(** * The Mnemosyne log manager (usermode/library/mnemosyne/src/log/mgr.c)

    A shallow embedding of the log manager: pool bring-up
    ([create_log_pool]), the log-type registry ([register_logtype]), the
    multi-log recovery scheduler ([do_recovery]) and the slot allocator
    ([m_logmgr_alloc_log]), followed by the properties of the
    specification that concern them.

    Conventions of the embedding.
    - A descriptor pointer [m_log_dsc_t *] is the index of the descriptor
      in the array [log_dscs]; the intrusive lists of the manager are
      lists of such indices, in list order.
    - [log_dscs[i].nvmd] and [log_dscs[i].nvphlog] point, exclusively, at
      the metadata record and the physical log of slot [i]; the cell of
      descriptor [i] therefore carries the contents of both.
    - The callbacks of an operations table are functions on the part of a
      descriptor a log implementation owns (metadata record, physical
      log, volatile log object, recovery order).  They cannot touch the
      list linkage, the [ops] pointer or another descriptor.
    - Every callback invocation and every persistent store to a slot is
      recorded, in program order, in a trace.
    - A failed [assert], a fatal internal error, a call through a NULL
      function pointer and a dereference of a NULL pointer end the
      process: [Fault].
    - Of the first part of [create_log_pool] (lines 76-106) the
      embedding keeps what decides whether the call goes on: whether
      the pool segment is in place, and whether the layout assertion
      holds.  The store of [log_pool] is left out; mgr.c reads
      [log_pool] nowhere else.
    - The mutexes are not modelled (the embedding is sequential), nor
      are the start of the truncation thread ([m_logtrunc_init]) and the
      debugging output of [do_recovery].
    - The do-while loop of [do_recovery] runs for as long as the
      callbacks announce recovery orders; it is given fuel, and
      [OutOfFuel] stands for a run that has not ended within it. *)

From Stdlib Require Import ZArith List Bool Arith Lia Permutation.
Import ListNotations.

Set Implicit Arguments.

(** ** Results *)

(** Modelled from the spec: result.h is not part of the sources; these
    are the three result codes mgr.c uses. *)
Inductive m_result_t : Type :=
| M_R_SUCCESS
| M_R_FAILURE
| M_R_NOMEMORY.

Definition is_success (r : m_result_t) : bool :=
  match r with M_R_SUCCESS => true | _ => false end.

(** What a run of a piece of code comes to. *)
Inductive outcome (A : Type) : Type :=
| Ret (a : A)
| Fault
| OutOfFuel.

Arguments Fault {A}.
Arguments OutOfFuel {A}.

Definition bind {A B : Type} (o : outcome A) (k : A -> outcome B) : outcome B :=
  match o with
  | Ret a => k a
  | Fault => Fault
  | OutOfFuel => OutOfFuel
  end.

Notation "'do' x <- o ; k" := (bind o (fun x => k))
  (at level 10, x pattern, o at level 100, k at level 200).

(** ** Constants of the headers *)

(** Modelled from the spec: log.h and pregionlayout.h are not part of
    the sources.  The type tag of a slot is
    [generic_flags & LF_TYPE_MASK]; [LF_TYPE_FREE] is the tag of an
    unused slot; the types known at compilation time are
    [1 .. LF_TYPE_VALIDVALUES - 1]; [INV_LOG_ORDER] is the recovery order
    of a log that has nothing (more) to recover.  [LOG_POOL_LAYOUT_FITS]
    is the value of the expression asserted in line 106,
    [metadata_section_size + LOG_NUM*physical_log_size <= LOG_POOL_SIZE],
    whose operands are fixed when the library is built. *)
Class log_constants : Type := {
  LF_TYPE_MASK : Z;
  LF_TYPE_FREE : Z;
  LF_TYPE_VALIDVALUES : nat;
  INV_LOG_ORDER : Z;
  LOG_POOL_LAYOUT_FITS : bool
}.

Definition LOG_NUM : nat := 32.

(** Conversion of a value to the 64-bit unsigned word type. *)
Definition u64 (x : Z) : Z := (x mod 2 ^ 64)%Z.

(** ** Data model *)

(** Modelled from the spec: the declarations of log.h are not part of
    the sources.  Of the metadata record the manager reads and writes
    [generic_flags] only. *)
Record m_log_nvmd_t : Type := {
  generic_flags : Z
}.

(** What a callback sees of the descriptor it is handed. *)
Record log_view : Type := {
  v_nvmd : m_log_nvmd_t;
  v_nvphlog : list Z;
  v_log : option Z;
  v_logorder : Z
}.

Definition callback : Type := log_view -> m_result_t * log_view.

(** Modelled from the spec: [m_log_ops_t], a table of five function
    pointers, each of which may be NULL. *)
Record m_log_ops_t : Type := {
  alloc : option callback;
  init : option callback;
  recovery_init : option callback;
  recovery_do : option callback;
  recovery_prepare_next : option callback
}.

Definition NULL_LOG_OPS : m_log_ops_t :=
  {| alloc := None; init := None; recovery_init := None;
     recovery_do := None; recovery_prepare_next := None |}.

(** Modelled from the spec: [m_log_dsc_t], with the fields mgr.c uses. *)
Record m_log_dsc_t : Type := {
  nvmd : m_log_nvmd_t;
  nvphlog : list Z;
  log : option Z;
  ops : option m_log_ops_t;
  logorder : Z
}.

Record m_logtype_entry_t : Type := {
  lt_type : Z;
  lt_ops : option m_log_ops_t
}.

(** Modelled from the spec: [m_logmgr_t], the registry and the three
    descriptor lists (the mutex is not modelled). *)
Record m_logmgr_t : Type := {
  known_logtypes_list : list m_logtype_entry_t;
  free_logs_list : list nat;
  active_logs_list : list nat;
  pending_logs_list : list nat
}.

Inductive event : Type :=
| EvAlloc (d : nat)
| EvInit (d : nat)
| EvRecoveryInit (d : nat)
| EvRecoveryDo (d : nat)
| EvRecoveryPrepareNext (d : nat)
| EvPcmStore (d : nat) (v : Z)
| EvPcmBarrier.

(** The memory outside the manager structure: the descriptors with their
    slots, the trace, the outcomes of the coming [malloc] calls
    ([true]: the call succeeds; when the list is used up every call
    succeeds), and the outcome of lines 76-93 of [create_log_pool].
    Modelled from the spec: segment.h is not part of the sources.
    [pool_segment] is [true] when the pool segment is in place after
    these lines, because [log_pool] is set already, because
    [m_segment_find_using_addr] finds the segment or because [m_pmap2]
    maps it; it is [false] when [m_pmap2] returns [MAP_FAILED]. *)
Record memory : Type := {
  log_dscs : nat -> m_log_dsc_t;
  trace : list event;
  allocs : list bool;
  pool_segment : bool
}.

Record state : Type := {
  mgr : m_logmgr_t;
  mem : memory
}.

(** The globals of mgr.c. *)
Record process : Type := {
  logmgr : option m_logmgr_t;
  logmgr_initialized : bool;
  heap : memory
}.

(** ** Memory and list primitives *)

Definition upd {A : Type} (d : nat) (x : A) (f : nat -> A) : nat -> A :=
  fun i => if Nat.eqb i d then x else f i.

Definition set_dsc (d : nat) (c : m_log_dsc_t) (m : memory) : memory :=
  {| log_dscs := upd d c (log_dscs m); trace := trace m; allocs := allocs m;
     pool_segment := pool_segment m |}.

Definition emit (e : event) (m : memory) : memory :=
  {| log_dscs := log_dscs m; trace := trace m ++ [e]; allocs := allocs m;
     pool_segment := pool_segment m |}.

Definition malloc (m : memory) : bool * memory :=
  match allocs m with
  | [] => (true, m)
  | b :: l => (b, {| log_dscs := log_dscs m; trace := trace m; allocs := l;
                     pool_segment := pool_segment m |})
  end.

Definition view_of (c : m_log_dsc_t) : log_view :=
  {| v_nvmd := nvmd c; v_nvphlog := nvphlog c; v_log := log c;
     v_logorder := logorder c |}.

Definition write_back (c : m_log_dsc_t) (v : log_view) : m_log_dsc_t :=
  {| nvmd := v_nvmd v; nvphlog := v_nvphlog v; log := v_log v;
     ops := ops c; logorder := v_logorder v |}.

Definition set_ops (o : option m_log_ops_t) (c : m_log_dsc_t) : m_log_dsc_t :=
  {| nvmd := nvmd c; nvphlog := nvphlog c; log := log c;
     ops := o; logorder := logorder c |}.

Definition set_flags (v : Z) (c : m_log_dsc_t) : m_log_dsc_t :=
  {| nvmd := {| generic_flags := v |}; nvphlog := nvphlog c; log := log c;
     ops := ops c; logorder := logorder c |}.

(** [f(log_dsc)]: the callback runs on descriptor [d]; the event [ev d]
    is recorded when it has returned. *)
Definition invoke (ev : nat -> event) (f : callback) (d : nat) (m : memory)
  : m_result_t * memory :=
  let c := log_dscs m d in
  let (r, v) := f (view_of c) in
  (r, emit (ev d) (set_dsc d (write_back c v) m)).

(** Modelled from the spec: the persistent-store-with-barrier primitive
    is not part of the sources.  [PCM_STORE(&(log_dsc->nvmd->generic_flags), v)]
    writes the word; [PCM_BARRIER] orders it before what follows. *)
Definition PCM_STORE_flags (d : nat) (v : Z) (m : memory) : memory :=
  emit (EvPcmStore d v) (set_dsc d (set_flags v (log_dscs m d)) m).

Definition PCM_BARRIER (m : memory) : memory := emit EvPcmBarrier m.

(** Modelled from the spec: list.h is not part of the sources; the four
    operations below have the meaning of the Linux list primitives of
    the same names.  [list_del_init(&(d->list))], for a descriptor
    linked in [l], unlinks it. *)
Definition list_del_init (d : nat) (l : list nat) : list nat :=
  filter (fun x => negb (Nat.eqb x d)) l.

(** [list_add_tail(&(d->list), &l)]: [d] becomes the last element. *)
Definition list_add_tail (d : nat) (l : list nat) : list nat := l ++ [d].

(** [list_add(&(d->list), &l)]: [d] becomes the first element. *)
Definition list_add (d : nat) (l : list nat) : list nat := d :: l.

(** [list_splice(&l, &head)]: the elements of [l] go to the front of
    [head]. *)
Definition list_splice (l head : list nat) : list nat := l ++ head.

Definition INIT_LIST_HEAD : list nat := [].

Definition set_known (r : list m_logtype_entry_t) (g : m_logmgr_t) : m_logmgr_t :=
  {| known_logtypes_list := r; free_logs_list := free_logs_list g;
     active_logs_list := active_logs_list g;
     pending_logs_list := pending_logs_list g |}.

Definition set_free (l : list nat) (g : m_logmgr_t) : m_logmgr_t :=
  {| known_logtypes_list := known_logtypes_list g; free_logs_list := l;
     active_logs_list := active_logs_list g;
     pending_logs_list := pending_logs_list g |}.

Definition set_active (l : list nat) (g : m_logmgr_t) : m_logmgr_t :=
  {| known_logtypes_list := known_logtypes_list g;
     free_logs_list := free_logs_list g; active_logs_list := l;
     pending_logs_list := pending_logs_list g |}.

Definition set_pending (l : list nat) (g : m_logmgr_t) : m_logmgr_t :=
  {| known_logtypes_list := known_logtypes_list g;
     free_logs_list := free_logs_list g;
     active_logs_list := active_logs_list g; pending_logs_list := l |}.

Definition set_mem (m : memory) (s : state) : state :=
  {| mgr := mgr s; mem := m |}.

Definition set_mgr (g : m_logmgr_t) (s : state) : state :=
  {| mgr := g; mem := mem s |}.

(** ** The operations of mgr.c *)

Section LogManager.

Context {consts : log_constants}.

(** [(log_dsc->nvmd->generic_flags & LF_TYPE_MASK) == t], the comparison
    being made on 64-bit unsigned words. *)
Definition tag_of (c : m_log_dsc_t) : Z :=
  Z.land (generic_flags (nvmd c)) LF_TYPE_MASK.

Definition tag_is (c : m_log_dsc_t) (t : Z) : bool :=
  Z.eqb (tag_of c) (u64 t).

Definition dsc (s : state) (d : nat) : m_log_dsc_t := log_dscs (mem s) d.

(** *** create_log_pool *)

(** One iteration of the loop of lines 108-123. *)
Definition create_log_dsc (i : nat) (s : state) : state :=
  let c := log_dscs (mem s) i in
  let c' := {| nvmd := nvmd c; nvphlog := nvphlog c; log := None;
               ops := None; logorder := INV_LOG_ORDER |} in
  let m' := set_dsc i c' (mem s) in
  if tag_is c' LF_TYPE_FREE
  then {| mgr := set_free (list_add_tail i (free_logs_list (mgr s))) (mgr s);
          mem := m' |}
  else {| mgr := set_pending (list_add_tail i (pending_logs_list (mgr s))) (mgr s);
          mem := m' |}.

Fixpoint create_log_dscs (l : list nat) (s : state) : state :=
  match l with
  | [] => s
  | i :: l' => create_log_dscs l' (create_log_dsc i s)
  end.

(** [create_log_pool].  Lines 76-93: when the pool segment cannot be
    mapped, [M_INTERNALERROR] ends the process.  Line 106: the layout
    assertion.  From line 107 on, the descriptors; [calloc] is not
    checked by the code, so its failure is a NULL dereference in the
    first iteration. *)
Definition create_log_pool (s : state) : outcome state :=
  if pool_segment (mem s) then
    if LOG_POOL_LAYOUT_FITS then
      let (ok, m) := malloc (mem s) in
      if ok then Ret (create_log_dscs (seq 0 LOG_NUM) (set_mem m s)) else Fault
    else Fault
  else Fault.

(** *** register_logtype *)

Definition is_registered (r : list m_logtype_entry_t) (t : Z) : bool :=
  existsb (fun e => Z.eqb (lt_type e) t) r.

(** [log_dsc->ops->alloc(log_dsc)] under [assert(... == M_R_SUCCESS)],
    [log_dsc->ops] having just been set. *)
Definition assert_alloc (d : nat) (m : memory) : outcome memory :=
  match ops (log_dscs m d) with
  | None => Fault
  | Some o =>
      match alloc o with
      | None => Fault
      | Some f =>
          let (r, m') := invoke EvAlloc f d m in
          if is_success r then Ret m' else Fault
      end
  end.

(** The loop over the pending list of lines 225-230. *)
Fixpoint bind_pending (l : list nat) (t : Z) (o : option m_log_ops_t)
    (m : memory) : outcome memory :=
  match l with
  | [] => Ret m
  | d :: l' =>
      if tag_is (log_dscs m d) t
      then do m' <- assert_alloc d (set_dsc d (set_ops o (log_dscs m d)) m);
           bind_pending l' t o m'
      else bind_pending l' t o m
  end.

Definition register_logtype (s : state) (t : Z) (o : option m_log_ops_t)
    (lock : bool) : outcome (m_result_t * state) :=
  if is_registered (known_logtypes_list (mgr s)) t
  then Ret (M_R_SUCCESS, s)
  else
    let (ok, m) := malloc (mem s) in
    if ok then
      let g := set_known (known_logtypes_list (mgr s)
                          ++ [{| lt_type := t; lt_ops := o |}]) (mgr s) in
      do m' <- bind_pending (pending_logs_list g) t o m;
      Ret (M_R_SUCCESS, {| mgr := g; mem := m' |})
    else Ret (M_R_NOMEMORY, set_mem m s).

(** [static_log_ops[i]]: every entry of the table is NULL_LOG_OPS. *)
Definition static_log_ops (i : nat) : m_log_ops_t := NULL_LOG_OPS.

Fixpoint register_static_from (l : list nat) (s : state) : outcome state :=
  match l with
  | [] => Ret s
  | i :: l' =>
      do (rv, s') <- register_logtype s (Z.of_nat i) (Some (static_log_ops i)) false;
      if is_success rv then register_static_from l' s' else Fault
  end.

Definition register_static_logtypes (s : state) : outcome (m_result_t * state) :=
  do s' <- register_static_from (seq 1 (LF_TYPE_VALIDVALUES - 1)) s;
  Ret (M_R_SUCCESS, s').

(** *** do_recovery *)

(** One iteration of the collection loop of lines 286-292; the
    descriptor [d] is the current element of the pending list. *)
Definition collect_log (d : nat) (p : state * list nat) : state * list nat :=
  let (s, recovery_list) := p in
  match ops (dsc s d) with
  | None => p
  | Some o =>
      match recovery_init o with
      | None => p
      | Some f =>
          let (_, m') := invoke EvRecoveryInit f d (mem s) in
          ({| mgr := set_pending (list_del_init d (pending_logs_list (mgr s))) (mgr s);
              mem := m' |},
           list_add d recovery_list)
      end
  end.

(** [list_for_each_entry_safe] over the pending list as it is when the
    loop starts: only the current element is ever unlinked. *)
Fixpoint collect_logs (l : list nat) (p : state * list nat) : state * list nat :=
  match l with
  | [] => p
  | d :: l' => collect_logs l' (collect_log d p)
  end.

(** The scan of lines 300-313; [log_dsc_to_recover] is the candidate
    found so far. *)
Fixpoint next_to_recover (m : memory) (l : list nat)
    (log_dsc_to_recover : option nat) : option nat :=
  match l with
  | [] => log_dsc_to_recover
  | d :: l' =>
      if Z.eqb (logorder (log_dscs m d)) INV_LOG_ORDER
      then next_to_recover m l' log_dsc_to_recover
      else
        match log_dsc_to_recover with
        | None => next_to_recover m l' (Some d)
        | Some c =>
            if Z.gtb (logorder (log_dscs m c)) (logorder (log_dscs m d))
            then next_to_recover m l' (Some d)
            else next_to_recover m l' (Some c)
        end
  end.

(** Lines 315-319: the three assertions, then [recovery_do] and
    [recovery_prepare_next] (their results are not looked at). *)
Definition recover_log (d : nat) (m : memory) : outcome memory :=
  match ops (log_dscs m d) with
  | None => Fault
  | Some o =>
      match recovery_do o, recovery_prepare_next o with
      | Some f_do, Some f_next =>
          let (_, m1) := invoke EvRecoveryDo f_do d m in
          let (_, m2) := invoke EvRecoveryPrepareNext f_next d m1 in
          Ret m2
      | _, _ => Fault
      end
  end.

(** The do-while loop of lines 298-321. *)
Fixpoint recovery_loop (fuel : nat) (recovery_list : list nat) (m : memory)
  : outcome memory :=
  match fuel with
  | O => OutOfFuel
  | S fuel' =>
      match next_to_recover m recovery_list None with
      | None => Ret m
      | Some d =>
          do m' <- recover_log d m;
          recovery_loop fuel' recovery_list m'
      end
  end.

Definition do_recovery (fuel : nat) (s : state) : outcome (m_result_t * state) :=
  let (s1, recovery_list) :=
    collect_logs (pending_logs_list (mgr s)) (s, INIT_LIST_HEAD) in
  do m' <- recovery_loop fuel recovery_list (mem s1);
  Ret (M_R_SUCCESS,
       {| mgr := set_free (list_splice recovery_list (free_logs_list (mgr s1))) (mgr s1);
          mem := m' |}).

(** *** m_logmgr_alloc_log *)

Definition is_null {A : Type} (p : option A) : bool :=
  match p with None => true | Some _ => false end.

(** The scan of the free list of lines 350-361. *)
Fixpoint scan_free_logs (m : memory) (t : Z) (l : list nat)
    (free_log_dsc free_log_dsc_notype : option nat) : option nat * option nat :=
  match l with
  | [] => (free_log_dsc, free_log_dsc_notype)
  | d :: l' =>
      scan_free_logs m t l'
        (if tag_is (log_dscs m d) t && is_null free_log_dsc
         then Some d else free_log_dsc)
        (if tag_is (log_dscs m d) LF_TYPE_FREE && is_null free_log_dsc_notype
         then Some d else free_log_dsc_notype)
  end.

(** The walk over the registry of lines 367-373, for the untyped
    descriptor [d]. *)
Fixpoint lookup_and_alloc (r : list m_logtype_entry_t) (t : Z) (d : nat)
    (m : memory) : outcome memory :=
  match r with
  | [] => Ret m
  | e :: r' =>
      if Z.eqb (lt_type e) t
      then assert_alloc d (set_dsc d (set_ops (lt_ops e) (log_dscs m d)) m)
      else lookup_and_alloc r' t d m
  end.

(** The new value of [generic_flags], line 395:
    [(generic_flags & ~LF_TYPE_MASK) | type] on 64-bit words. *)
Definition retag (flags t : Z) : Z :=
  Z.lor (Z.land flags (u64 (Z.lnot LF_TYPE_MASK))) (u64 t).

(** Lines 389-400, for the chosen descriptor [d]. *)
Definition activate_log (d : nat) (t : Z) (s : state)
  : outcome (m_result_t * option nat * state) :=
  let g := set_free (list_del_init d (free_logs_list (mgr s))) (mgr s) in
  let g := set_active (list_add_tail d (active_logs_list g)) g in
  match ops (dsc s d) with
  | None => Fault
  | Some o =>
      match init o with
      | None => Fault
      | Some f =>
          let (r, m1) := invoke EvInit f d (mem s) in
          if is_success r then
            let v := retag (generic_flags (nvmd (log_dscs m1 d))) t in
            Ret (M_R_SUCCESS, Some d,
                 {| mgr := g; mem := PCM_BARRIER (PCM_STORE_flags d v m1) |})
          else Fault
      end
  end.

(** The body of [m_logmgr_alloc_log] on the manager [logmgr] points to.
    The second component of the result is [*log_dscp] when it is
    written. *)
Definition alloc_log (t : Z) (s : state)
  : outcome (m_result_t * option nat * state) :=
  let (free_log_dsc, free_log_dsc_notype) :=
    scan_free_logs (mem s) t (free_logs_list (mgr s)) None None in
  match free_log_dsc with
  | Some d => activate_log d t s
  | None =>
      match free_log_dsc_notype with
      | Some d =>
          do m' <- lookup_and_alloc (known_logtypes_list (mgr s)) t d (mem s);
          match ops (log_dscs m' d) with
          | None => Ret (M_R_FAILURE, None, set_mem m' s)
          | Some _ => activate_log d t (set_mem m' s)
          end
      | None => Ret (M_R_FAILURE, None, s)
      end
  end.

(** *** The entry points, on the globals *)

Definition empty_mgr : m_logmgr_t :=
  {| known_logtypes_list := []; free_logs_list := INIT_LIST_HEAD;
     active_logs_list := INIT_LIST_HEAD; pending_logs_list := INIT_LIST_HEAD |}.

Definition publish (init_done : bool) (s : state) : process :=
  {| logmgr := Some (mgr s); logmgr_initialized := init_done; heap := mem s |}.

Definition logmgr_init (fuel : nat) (p : process) : outcome (m_result_t * process) :=
  if logmgr_initialized p then Ret (M_R_SUCCESS, p)
  else
    let (ok, m) := malloc (heap p) in
    if ok then
      do s1 <- create_log_pool {| mgr := empty_mgr; mem := m |};
      do (_, s2) <- register_static_logtypes s1;
      do (_, s3) <- do_recovery fuel s2;
      Ret (M_R_SUCCESS, publish true s3)
    else
      Ret (M_R_NOMEMORY,
           {| logmgr := logmgr p; logmgr_initialized := logmgr_initialized p;
              heap := m |}).

Definition m_logmgr_init (fuel : nat) (p : process) : outcome (m_result_t * process) :=
  logmgr_init fuel p.

Definition m_logmgr_register_logtype (fuel : nat) (t : Z)
    (o : option m_log_ops_t) (p : process) : outcome (m_result_t * process) :=
  do p1 <- match logmgr p with
           | None => do (_, p') <- logmgr_init fuel p; Ret p'
           | Some _ => Ret p
           end;
  match logmgr p1 with
  | None => Fault
  | Some g =>
      do (rv, s') <- register_logtype {| mgr := g; mem := heap p1 |} t o true;
      Ret (rv, publish (logmgr_initialized p1) s')
  end.

Definition m_logmgr_do_recovery (fuel : nat) (p : process)
  : outcome (m_result_t * process) :=
  match logmgr p with
  | None => Fault
  | Some g =>
      do (rv, s') <- do_recovery fuel {| mgr := g; mem := heap p |};
      Ret (rv, publish (logmgr_initialized p) s')
  end.

Definition m_logmgr_alloc_log (t : Z) (p : process)
  : outcome (m_result_t * option nat * process) :=
  match logmgr p with
  | None => Fault
  | Some g =>
      do (rv, log_dscp, s') <- alloc_log t {| mgr := g; mem := heap p |};
      Ret (rv, log_dscp, publish (logmgr_initialized p) s')
  end.

(** ** The states the manager can be in *)

(** Number of times descriptor [d] is linked in [l]. *)
Definition occ (d : nat) (l : list nat) : nat := count_occ Nat.eq_dec l d.

(** The configurations the manager goes through: the state, and the
    local [recovery_list] of a running [do_recovery] (empty outside of
    it).  A configuration is taken after the pool has been created,
    after each call of [register_logtype] and of the allocator, and,
    inside [do_recovery], after each iteration of the collection loop,
    after each iteration of the ordering loop and after the final
    splice.  A descriptor being moved is unlinked and linked again in one
    step. *)
Inductive reachable : state -> list nat -> Prop :=
| reach_create : forall m s,
    create_log_pool {| mgr := empty_mgr; mem := m |} = Ret s ->
    reachable s []
| reach_register : forall s t o lock rv s',
    reachable s [] ->
    register_logtype s t o lock = Ret (rv, s') ->
    reachable s' []
| reach_alloc : forall s t rv log_dscp s',
    reachable s [] ->
    alloc_log t s = Ret (rv, log_dscp, s') ->
    reachable s' []
| reach_collect : forall s l1 l2 s1 recovery_list,
    reachable s [] ->
    pending_logs_list (mgr s) = l1 ++ l2 ->
    collect_logs l1 (s, INIT_LIST_HEAD) = (s1, recovery_list) ->
    reachable s1 recovery_list
| reach_recover : forall s recovery_list d m',
    reachable s recovery_list ->
    next_to_recover (mem s) recovery_list None = Some d ->
    recover_log d (mem s) = Ret m' ->
    reachable (set_mem m' s) recovery_list
| reach_splice : forall s recovery_list,
    reachable s recovery_list ->
    next_to_recover (mem s) recovery_list None = None ->
    reachable
      {| mgr := set_free (list_splice recovery_list (free_logs_list (mgr s))) (mgr s);
         mem := mem s |} [].

(** Each descriptor of the pool is linked exactly once, in one of the
    four lists, and nothing else is linked. *)
Definition linked_once (g : m_logmgr_t) (recovery_list : list nat) : Prop :=
  forall d,
    occ d (free_logs_list g) + occ d (active_logs_list g)
    + occ d (pending_logs_list g) + occ d recovery_list
    = if Nat.ltb d LOG_NUM then 1 else 0.

Definition exactly_one (A B C D : Prop) : Prop :=
  (A /\ ~ B /\ ~ C /\ ~ D) \/ (~ A /\ B /\ ~ C /\ ~ D) \/
  (~ A /\ ~ B /\ C /\ ~ D) \/ (~ A /\ ~ B /\ ~ C /\ D).

(** ** The ordering loop, in the words of the specification *)

Definition order_of (m : memory) (d : nat) : Z := logorder (log_dscs m d).

(** No descriptor of [l] has a recovery order other than "none". *)
Definition none_pending (m : memory) (l : list nat) : Prop :=
  forall x, In x l -> order_of m x = INV_LOG_ORDER.

(** Among the descriptors of [l] whose recovery order is not "none",
    [d] has the numerically smallest order, and it is the first one
    encountered with that order. *)
Definition smallest_pending (m : memory) (l : list nat) (d : nat) : Prop :=
  exists l1 l2,
    l = l1 ++ d :: l2 /\
    order_of m d <> INV_LOG_ORDER /\
    (forall x, In x l1 ->
       order_of m x = INV_LOG_ORDER \/ (order_of m d < order_of m x)%Z) /\
    (forall x, In x l2 ->
       order_of m x = INV_LOG_ORDER \/ (order_of m d <= order_of m x)%Z).

(** The ordering loop of the specification: while some descriptor of the
    recovery set has an order, take the one with the smallest order,
    invoke [recovery_do] and then [recovery_prepare_next] on it; stop
    when none has an order. *)
Inductive ordering_loop (recovery_list : list nat) : memory -> memory -> Prop :=
| ordering_done : forall m,
    none_pending m recovery_list ->
    ordering_loop recovery_list m m
| ordering_step : forall m d o f_do f_next m',
    smallest_pending m recovery_list d ->
    ops (log_dscs m d) = Some o ->
    recovery_do o = Some f_do ->
    recovery_prepare_next o = Some f_next ->
    ordering_loop recovery_list
      (snd (invoke EvRecoveryPrepareNext f_next d
              (snd (invoke EvRecoveryDo f_do d m)))) m' ->
    ordering_loop recovery_list m m'.

(** The descriptor has an operations table with [recovery_init]. *)
Definition recoverable (m : memory) (d : nat) : bool :=
  match ops (log_dscs m d) with
  | Some o => negb (is_null (recovery_init o))
  | None => false
  end.

(** ** What recovery may and may not do *)

(** The effect of one callback on the cell of a descriptor. *)
Definition apply_cb (c : m_log_dsc_t) (f : callback) : m_log_dsc_t :=
  write_back c (snd (f (view_of c))).

(** [f] is one of the three recovery callbacks of the operations table
    of [c]. *)
Definition recovery_callback_of (c : m_log_dsc_t) (f : callback) : Prop :=
  exists o, ops c = Some o /\
    (recovery_init o = Some f \/ recovery_do o = Some f \/
     recovery_prepare_next o = Some f).

(** Between [m] and [m'] the cell of each descriptor has changed only
    through recovery callbacks of its own operations table. *)
Definition callbacks_only (m m' : memory) : Prop :=
  forall d, exists fs,
    Forall (recovery_callback_of (log_dscs m d)) fs /\
    log_dscs m' d = fold_left apply_cb fs (log_dscs m d).

(** [e] is the invocation of a recovery callback on a descriptor of [l]. *)
Definition recovery_event_in (l : list nat) (e : event) : Prop :=
  exists x, In x l /\
    (e = EvRecoveryInit x \/ e = EvRecoveryDo x \/ e = EvRecoveryPrepareNext x).

(** The callback leaves [generic_flags] as it finds it. *)
Definition keeps_flags (f : callback) : Prop :=
  forall v, generic_flags (v_nvmd (snd (f v))) = generic_flags (v_nvmd v).

(** The descriptor an event is about. *)
Definition event_dsc (e : event) : option nat :=
  match e with
  | EvAlloc d | EvInit d | EvRecoveryInit d | EvRecoveryDo d
  | EvRecoveryPrepareNext d | EvPcmStore d _ => Some d
  | EvPcmBarrier => None
  end.

(** The first of two optional results. *)
Definition or_else {A : Type} (a b : option A) : option A :=
  match a with Some _ => a | None => b end.

(** ** The allocator, in the words of the specification *)

(** The registry lookup of the specification: the first entry for the
    type.  In mgr.c it is the walk of lines 367-373. *)
Definition lookup_logtype (r : list m_logtype_entry_t) (t : Z)
  : option m_logtype_entry_t :=
  find (fun e => Z.eqb (lt_type e) t) r.

(** The first descriptor of the free list whose persisted tag is [t]. *)
Definition first_tagged (s : state) (t : Z) : option nat :=
  find (fun d => tag_is (dsc s d) t) (free_logs_list (mgr s)).

(** The state with another registry. *)
Definition with_known (r : list m_logtype_entry_t) (s : state) : state :=
  set_mgr (set_known r (mgr s)) s.

(** The callback [alloc] of the table [o] is there and succeeds on the
    cell [c]. *)
Definition alloc_succeeds (o : option m_log_ops_t) (c : m_log_dsc_t) : Prop :=
  exists tbl f, o = Some tbl /\ alloc tbl = Some f /\
                fst (f (view_of c)) = M_R_SUCCESS.

(** The entries of the registry for type [t]. *)
Definition entries_for (r : list m_logtype_entry_t) (t : Z)
  : list m_logtype_entry_t :=
  filter (fun e => Z.eqb (lt_type e) t) r.

(** The cell after one replay step: [recovery_do] followed by
    [recovery_prepare_next]. *)
Definition replay (c : m_log_dsc_t) (f_do f_next : callback) : m_log_dsc_t :=
  apply_cb (apply_cb c f_do) f_next.

(** The recovery callbacks of the descriptors of [l] make progress with
    respect to the measure [mu]: each has [recovery_do] and
    [recovery_prepare_next], and a replay step on a cell that still has
    an order makes the measure of the cell smaller. *)
Definition replay_progress (mu : m_log_dsc_t -> nat) (m : memory)
    (l : list nat) : Prop :=
  forall d, In d l ->
    exists o f_do f_next,
      ops (log_dscs m d) = Some o /\
      recovery_do o = Some f_do /\
      recovery_prepare_next o = Some f_next /\
      forall c, ops c = Some o -> logorder c <> INV_LOG_ORDER ->
                mu (replay c f_do f_next) < mu c.

(** Sum of the measures of the descriptors of [l]. *)
Definition total_measure (mu : m_log_dsc_t -> nat) (m : memory)
    (l : list nat) : nat :=
  list_sum (map (fun d => mu (log_dscs m d)) l).

(** ** Bring-up, in terms of the pool found at start *)

(** The cell of a descriptor as lines 109-115 leave it: the pointers to
    the slot are set, there is no log object, no operations table and no
    recovery order. *)
Definition fresh_dsc (c : m_log_dsc_t) : m_log_dsc_t :=
  {| nvmd := nvmd c; nvphlog := nvphlog c; log := None; ops := None;
     logorder := INV_LOG_ORDER |}.

(** The types known at compilation time, in the order of the loop of
    [register_static_logtypes]. *)
Definition static_types : list nat := seq 1 (LF_TYPE_VALIDVALUES - 1).

(** The registry entry [register_static_logtypes] makes for type [i]. *)
Definition static_entry (i : nat) : m_logtype_entry_t :=
  {| lt_type := Z.of_nat i; lt_ops := Some (static_log_ops i) |}.

(** The slot of descriptor [d] is tagged FREE in memory [m]. *)
Definition free_slot (m : memory) (d : nat) : bool :=
  tag_is (log_dscs m d) LF_TYPE_FREE.

End LogManager.

(** * A reference configuration and a sample log type

    Used to run the model on concrete inputs.  The sample log type keeps,
    in the physical log of a slot, the recovery orders of the replay
    steps that are still to be done. *)

Module Example.

#[export] Instance ref_consts : log_constants :=
  {| LF_TYPE_MASK := 7; LF_TYPE_FREE := 0; LF_TYPE_VALIDVALUES := 2;
     INV_LOG_ORDER := 2 ^ 64 - 1; LOG_POOL_LAYOUT_FITS := true |}.

Definition first_order (l : list Z) : Z :=
  match l with [] => INV_LOG_ORDER | x :: _ => x end.

Definition ex_alloc : callback := fun v =>
  (M_R_SUCCESS, {| v_nvmd := v_nvmd v; v_nvphlog := v_nvphlog v;
                   v_log := Some 1%Z; v_logorder := v_logorder v |}).

Definition ex_init : callback := fun v =>
  (M_R_SUCCESS, {| v_nvmd := v_nvmd v; v_nvphlog := [];
                   v_log := v_log v; v_logorder := INV_LOG_ORDER |}).

Definition ex_prepare : callback := fun v =>
  (M_R_SUCCESS, {| v_nvmd := v_nvmd v; v_nvphlog := v_nvphlog v;
                   v_log := v_log v; v_logorder := first_order (v_nvphlog v) |}).

Definition ex_do : callback := fun v =>
  (M_R_SUCCESS, {| v_nvmd := v_nvmd v; v_nvphlog := tl (v_nvphlog v);
                   v_log := v_log v; v_logorder := v_logorder v |}).

Definition ex_ops : m_log_ops_t :=
  {| alloc := Some ex_alloc; init := Some ex_init;
     recovery_init := Some ex_prepare; recovery_do := Some ex_do;
     recovery_prepare_next := Some ex_prepare |}.

Definition slot (flags : Z) (words : list Z) : m_log_dsc_t :=
  {| nvmd := {| generic_flags := flags |}; nvphlog := words; log := None;
     ops := None; logorder := 0 |}.

(** The pool found at start: slots 0 and 1 hold logs of type 2 with two
    replay steps each, slot 2 holds a log of type 3, the others are
    free. *)
Definition ex_pool (i : nat) : m_log_dsc_t :=
  match i with
  | 0 => slot 2%Z [10; 40]%Z
  | 1 => slot 2%Z [20; 30]%Z
  | 2 => slot 3%Z [5]%Z
  | _ => slot 0%Z []
  end.

Definition ex_mem : memory :=
  {| log_dscs := ex_pool; trace := []; allocs := [];
     pool_segment := true |}.

(** The process before any call into the log manager. *)
Definition ex_start : process :=
  {| logmgr := None; logmgr_initialized := false; heap := ex_mem |}.

Definition result_state {A : Type} (o : outcome (A * state)) (dflt : state) : state :=
  match o with Ret (_, s) => s | _ => dflt end.

(** After pool bring-up. *)
Definition ex_created : state :=
  create_log_dscs (seq 0 LOG_NUM) {| mgr := empty_mgr; mem := ex_mem |}.

(** After registration of type 2. *)
Definition ex_registered : state :=
  result_state (register_logtype ex_created 2 (Some ex_ops) true) ex_created.

(** After recovery. *)
Definition ex_recovered : state :=
  result_state (do_recovery 10 ex_registered) ex_registered.

(** After an allocation of type 2 from the recovered state (a recovered
    slot of that type is taken). *)
Definition ex_allocated : state :=
  result_state (alloc_log 2 ex_recovered) ex_recovered.

(** After an allocation of type 2 before any recovery (an untyped slot
    is bound through the registry). *)
Definition ex_bound : state :=
  result_state (alloc_log 2 ex_registered) ex_registered.

(** A pool without a free slot: every slot holds a log of type 3, which
    nobody registers. *)
Definition ex_exhausted : state :=
  create_log_dscs (seq 0 LOG_NUM)
    {| mgr := empty_mgr;
       mem := {| log_dscs := fun _ => slot 3%Z []; trace := []; allocs := [];
                 pool_segment := true |} |}.

(** A pool in which every slot holds a log of type 2 with one replay
    step; types 2 and 5 are registered, recovery has run. *)
Definition ex_full_created : state :=
  create_log_dscs (seq 0 LOG_NUM)
    {| mgr := empty_mgr;
       mem := {| log_dscs := fun i => slot 2%Z [Z.of_nat i];
                 trace := []; allocs := [];
                 pool_segment := true |} |}.

Definition ex_full_registered : state :=
  let s2 := result_state (register_logtype ex_full_created 2 (Some ex_ops) true)
              ex_full_created in
  result_state (register_logtype s2 5 (Some ex_ops) true) s2.

Definition ex_full_recovered : state :=
  result_state (do_recovery 40 ex_full_registered) ex_full_registered.

(** In the middle of recovery: the collection phase is over, the
    ordering loop has not started. *)
Definition ex_collected : state :=
  fst (collect_logs (pending_logs_list (mgr ex_registered))
         (ex_registered, INIT_LIST_HEAD)).

(** A measure for the sample log type: the replay steps left in the
    physical log, and the step announced by the recovery order. *)
Definition ex_mu (c : m_log_dsc_t) : nat :=
  2 * length (nvphlog c) + (if Z.eqb (logorder c) INV_LOG_ORDER then 0 else 1).

(** A log type that hands its slot back once replay is complete:
    [recovery_prepare_next] clears [generic_flags] when the physical log
    is used up. *)
Definition ex_prepare_freeing : callback := fun v =>
  (M_R_SUCCESS,
   {| v_nvmd := match v_nvphlog v with
                | [] => {| generic_flags := 0 |}
                | _ => v_nvmd v
                end;
      v_nvphlog := v_nvphlog v; v_log := v_log v;
      v_logorder := first_order (v_nvphlog v) |}).

Definition ex_ops_freeing : m_log_ops_t :=
  {| alloc := Some ex_alloc; init := Some ex_init;
     recovery_init := Some ex_prepare; recovery_do := Some ex_do;
     recovery_prepare_next := Some ex_prepare_freeing |}.

(** The reference pool after registration of type 2 with that table and
    recovery: slots 1 and 0 are free, tagged FREE, and still bound to
    the table. *)
Definition ex_freed : state :=
  let s1 := result_state (register_logtype ex_created 2 (Some ex_ops_freeing) true)
              ex_created in
  result_state (do_recovery 10 s1) s1.

(** The process after a first call of [m_logmgr_register_logtype]. *)
Definition ex_first_registered : process :=
  match m_logmgr_register_logtype 10 2 (Some ex_ops) ex_start with
  | Ret (_, p) => p
  | _ => ex_start
  end.

(** The pool area before [create_log_pool] has set up a descriptor. *)
Definition ex_blank : state := {| mgr := empty_mgr; mem := ex_mem |}.

(** The process after a first call of [logmgr_init]. *)
Definition ex_brought_up : process :=
  match logmgr_init 1 ex_start with
  | Ret (_, p) => p
  | _ => ex_start
  end.

(** A process whose pool holds, in slot 0, a log of type 1, the type
    known at compilation time under [ref_consts]. *)
Definition ex_start_static : process :=
  {| logmgr := None; logmgr_initialized := false;
     heap := {| log_dscs := fun i => match i with
                                     | 0 => slot 1%Z []
                                     | _ => slot 0%Z []
                                     end;
                trace := []; allocs := [];
                pool_segment := true |} |}.

(** A process in which the pool segment cannot be mapped. *)
Definition ex_start_unmapped : process :=
  {| logmgr := None; logmgr_initialized := false;
     heap := {| log_dscs := ex_pool; trace := []; allocs := [];
                pool_segment := false |} |}.

(** A process in which the next [malloc] fails. *)
Definition ex_start_oom : process :=
  {| logmgr := None; logmgr_initialized := false;
     heap := {| log_dscs := ex_pool; trace := []; allocs := [false];
                pool_segment := true |} |}.

(** The state after pool bring-up, with a [malloc] that fails next. *)
Definition ex_created_oom : state :=
  set_mem {| log_dscs := log_dscs (mem ex_created); trace := [];
             allocs := [false]; pool_segment := true |} ex_created.

(** After a second allocation of type 2 from the recovered state. *)
Definition ex_allocated_twice : state :=
  result_state (alloc_log 2 ex_allocated) ex_allocated.

(** A table with [recovery_init] but without [recovery_do], and the
    reference pool after registration of type 2 with that table. *)
Definition ex_ops_no_replay : m_log_ops_t :=
  {| alloc := Some ex_alloc; init := Some ex_init;
     recovery_init := Some ex_prepare; recovery_do := None;
     recovery_prepare_next := Some ex_prepare |}.

Definition ex_registered_no_replay : state :=
  result_state (register_logtype ex_created 2 (Some ex_ops_no_replay) true)
    ex_created.

(** [n] allocations of type 2 in a row. *)
Fixpoint alloc_many (n : nat) (s : state) : state :=
  match n with
  | 0 => s
  | S n' => alloc_many n' (result_state (alloc_log 2 s) s)
  end.

(** The pool of [ex_full_recovered] with every log in use. *)
Definition ex_all_active : state := alloc_many LOG_NUM ex_full_recovered.

End Example.

(** * Properties *)

Section Properties.

Context {consts : log_constants}.

(** ** Memory and list primitives *)

Lemma Ret_inj {A : Type} (a b : A) : Ret a = Ret b -> a = b.
Proof. now intros [= ->]. Qed.

Lemma upd_same {A : Type} (d : nat) (x : A) (f : nat -> A) : upd d x f d = x.
Proof. unfold upd. now rewrite Nat.eqb_refl. Qed.

Lemma upd_other {A : Type} (d d' : nat) (x : A) (f : nat -> A) :
  d' <> d -> upd d x f d' = f d'.
Proof.
  intros Hne. unfold upd.
  destruct (Nat.eqb_spec d' d); [contradiction | reflexivity].
Qed.

Lemma invoke_trace ev f d m :
  trace (snd (invoke ev f d m)) = trace m ++ [ev d].
Proof. unfold invoke. now destruct (f _). Qed.

Lemma invoke_allocs ev f d m : allocs (snd (invoke ev f d m)) = allocs m.
Proof. unfold invoke. now destruct (f _). Qed.

Lemma invoke_other ev f d m d' :
  d' <> d -> log_dscs (snd (invoke ev f d m)) d' = log_dscs m d'.
Proof.
  intros Hne. unfold invoke. destruct (f _). cbn. now apply upd_other.
Qed.

Lemma invoke_ops ev f d m d' :
  ops (log_dscs (snd (invoke ev f d m)) d') = ops (log_dscs m d').
Proof.
  unfold invoke. destruct (f _). cbn. unfold upd.
  destruct (Nat.eqb_spec d' d); [now subst | reflexivity].
Qed.

Lemma invoke_same ev f d m :
  log_dscs (snd (invoke ev f d m)) d
  = write_back (log_dscs m d) (snd (f (view_of (log_dscs m d)))).
Proof. unfold invoke. destruct (f _). cbn. now rewrite upd_same. Qed.

Lemma occ_nil d : occ d [] = 0.
Proof. reflexivity. Qed.

Lemma occ_app d l1 l2 : occ d (l1 ++ l2) = occ d l1 + occ d l2.
Proof. apply count_occ_app. Qed.

Lemma occ_cons d x l : occ d (x :: l) = (if Nat.eqb x d then 1 else 0) + occ d l.
Proof.
  unfold occ. cbn. destruct (Nat.eq_dec x d) as [->|Hne].
  - now rewrite Nat.eqb_refl.
  - now destruct (Nat.eqb_spec x d).
Qed.

Lemma occ_add_tail d x l :
  occ d (list_add_tail x l) = occ d l + (if Nat.eqb x d then 1 else 0).
Proof. unfold list_add_tail. rewrite occ_app, occ_cons. cbn. lia. Qed.

Lemma occ_del d x l :
  occ d (list_del_init x l) = if Nat.eqb x d then 0 else occ d l.
Proof.
  unfold list_del_init, occ. induction l as [|y l IH]; cbn.
  - now destruct (Nat.eqb x d).
  - destruct (Nat.eqb_spec y x) as [->|Hyx]; cbn.
    + rewrite IH. destruct (Nat.eq_dec x d) as [->|Hxd].
      * now rewrite Nat.eqb_refl.
      * reflexivity.
    + rewrite IH. destruct (Nat.eqb_spec x d) as [->|Hxd].
      * destruct (Nat.eq_dec y d); [contradiction | reflexivity].
      * reflexivity.
Qed.

Lemma occ_In d l : In d l <-> 0 < occ d l.
Proof. unfold occ. rewrite (count_occ_In Nat.eq_dec). lia. Qed.

Lemma occ_Permutation l l' :
  (forall x, occ x l = occ x l') -> Permutation l l'.
Proof. intros H. now apply (Permutation_count_occ Nat.eq_dec). Qed.

Lemma occ_seq d n : occ d (seq 0 n) = if Nat.ltb d n then 1 else 0.
Proof.
  induction n as [|n IH].
  - reflexivity.
  - rewrite seq_S, occ_app, IH, occ_cons. cbn [Nat.add occ count_occ].
    destruct (Nat.ltb_spec d n); destruct (Nat.ltb_spec d (S n));
      destruct (Nat.eqb_spec n d); lia.
Qed.

Lemma linked_once_In g recovery_list d l :
  linked_once g recovery_list ->
  In d l ->
  l = free_logs_list g \/ l = active_logs_list g \/
  l = pending_logs_list g \/ l = recovery_list ->
  occ d l = 1 /\ d < LOG_NUM.
Proof.
  intros Hl Hin Hwhich. apply occ_In in Hin. specialize (Hl d).
  destruct (Nat.ltb_spec d LOG_NUM);
    destruct Hwhich as [->|[->|[->| ->]]]; lia.
Qed.

(** ** The scan of the free list *)

Lemma scan_free_logs_find m t l a b :
  scan_free_logs m t l a b
  = (or_else a (find (fun d => tag_is (log_dscs m d) t) l),
     or_else b (find (fun d => tag_is (log_dscs m d) LF_TYPE_FREE) l)).
Proof.
  revert a b. induction l as [|d l IH]; intros a b; cbn.
  - now destruct a, b.
  - rewrite IH.
    destruct (tag_is (log_dscs m d) t), (tag_is (log_dscs m d) LF_TYPE_FREE),
      a, b; reflexivity.
Qed.

(** ** Partition of the descriptors *)

Ltac occ_norm :=
  cbn [free_logs_list active_logs_list pending_logs_list known_logtypes_list
       set_free set_active set_pending set_known mgr mem set_mem set_mgr
       list_add list_splice INIT_LIST_HEAD] in *;
  rewrite ?occ_app, ?occ_cons, ?occ_add_tail, ?occ_del, ?occ_nil in *.

Lemma create_log_dscs_occ l : forall s d,
  let s' := create_log_dscs l s in
  occ d (free_logs_list (mgr s')) + occ d (active_logs_list (mgr s'))
  + occ d (pending_logs_list (mgr s'))
  = occ d (free_logs_list (mgr s)) + occ d (active_logs_list (mgr s))
    + occ d (pending_logs_list (mgr s)) + occ d l.
Proof.
  induction l as [|i l IH]; intros s d; cbn zeta.
  - cbn. lia.
  - cbn [create_log_dscs]. rewrite IH. unfold create_log_dsc.
    destruct (tag_is _ _); occ_norm; lia.
Qed.

Lemma create_log_pool_linked m s :
  create_log_pool {| mgr := empty_mgr; mem := m |} = Ret s ->
  linked_once (mgr s) [].
Proof.
  unfold create_log_pool. destruct (pool_segment _); [|discriminate].
  destruct LOG_POOL_LAYOUT_FITS; [|discriminate].
  destruct (malloc _) as [[|] m1]; [|discriminate].
  intros H. apply Ret_inj in H. subst s. intros d.
  rewrite create_log_dscs_occ.
  cbn [set_mem mgr empty_mgr free_logs_list active_logs_list pending_logs_list
       INIT_LIST_HEAD occ count_occ Nat.add].
  now rewrite occ_seq.
Qed.

Lemma register_logtype_lists s t o lock rv s' :
  register_logtype s t o lock = Ret (rv, s') ->
  free_logs_list (mgr s') = free_logs_list (mgr s) /\
  active_logs_list (mgr s') = active_logs_list (mgr s) /\
  pending_logs_list (mgr s') = pending_logs_list (mgr s).
Proof.
  unfold register_logtype. destruct (is_registered _ _).
  - now intros [= _ <-].
  - destruct (malloc _) as [[|] m].
    + destruct (bind_pending _ _ _ _); [|discriminate..].
      cbn. now intros [= _ <-].
    + now intros [= _ <-].
Qed.

Lemma activate_log_ret d t s rv log_dscp s' :
  activate_log d t s = Ret (rv, log_dscp, s') ->
  rv = M_R_SUCCESS /\ log_dscp = Some d /\
  mgr s' = set_active (list_add_tail d (active_logs_list (mgr s)))
             (set_free (list_del_init d (free_logs_list (mgr s))) (mgr s)).
Proof.
  unfold activate_log. destruct (ops _) as [o|]; [|discriminate].
  destruct (init o) as [f|]; [|discriminate].
  destruct (invoke _ _ _ _) as [r m1]. destruct (is_success r); [|discriminate].
  now intros [= <- <- <-].
Qed.

Lemma activate_log_linked d t s rv log_dscp s' :
  linked_once (mgr s) [] ->
  In d (free_logs_list (mgr s)) ->
  activate_log d t s = Ret (rv, log_dscp, s') ->
  linked_once (mgr s') [].
Proof.
  intros Hl Hin Hact. apply activate_log_ret in Hact as (_ & _ & ->).
  edestruct linked_once_In as [Hone _]; [exact Hl | exact Hin | now left |].
  intros x. specialize (Hl x). occ_norm.
  destruct (Nat.eqb_spec d x) as [->|Hne]; lia.
Qed.

Lemma alloc_log_cases t s :
  let m := mem s in
  let l := free_logs_list (mgr s) in
  alloc_log t s =
  match find (fun d => tag_is (log_dscs m d) t) l with
  | Some d => activate_log d t s
  | None =>
      match find (fun d => tag_is (log_dscs m d) LF_TYPE_FREE) l with
      | Some d =>
          do m' <- lookup_and_alloc (known_logtypes_list (mgr s)) t d m;
          match ops (log_dscs m' d) with
          | None => Ret (M_R_FAILURE, None, set_mem m' s)
          | Some _ => activate_log d t (set_mem m' s)
          end
      | None => Ret (M_R_FAILURE, None, s)
      end
  end.
Proof. cbn zeta. unfold alloc_log. now rewrite scan_free_logs_find. Qed.

Lemma alloc_log_linked t s rv log_dscp s' :
  linked_once (mgr s) [] ->
  alloc_log t s = Ret (rv, log_dscp, s') ->
  linked_once (mgr s') [].
Proof.
  intros Hl. rewrite alloc_log_cases. cbn zeta.
  destruct (find (fun d => tag_is (log_dscs (mem s) d) t) _) as [d|] eqn:Hf.
  - apply find_some in Hf as [Hin _]. now apply activate_log_linked.
  - destruct (find (fun d => tag_is (log_dscs (mem s) d) LF_TYPE_FREE) _)
      as [d|] eqn:Hf0.
    + apply find_some in Hf0 as [Hin _].
      destruct (lookup_and_alloc _ _ _ _) as [m'| |]; [|discriminate..].
      cbn [bind]. destruct (ops _).
      * now apply activate_log_linked.
      * now intros [= _ _ <-].
    + now intros [= _ _ <-].
Qed.

Lemma In_list_del_init x d l : In x (list_del_init d l) <-> In x l /\ x <> d.
Proof.
  unfold list_del_init. rewrite filter_In.
  destruct (Nat.eqb_spec x d); cbn; intuition congruence.
Qed.

Lemma collect_log_linked d s recovery_list s1 recovery_list1 :
  linked_once (mgr s) recovery_list ->
  In d (pending_logs_list (mgr s)) ->
  collect_log d (s, recovery_list) = (s1, recovery_list1) ->
  linked_once (mgr s1) recovery_list1.
Proof.
  intros Hl Hin. unfold collect_log.
  destruct (ops _) as [o|]; [|now intros [= <- <-]].
  destruct (recovery_init o) as [f|]; [|now intros [= <- <-]].
  destruct (invoke _ _ _ _) as [r m']. intros [= <- <-].
  edestruct linked_once_In as [Hone _];
    [exact Hl | exact Hin | now right; right; left |].
  intros x. specialize (Hl x). occ_norm.
  destruct (Nat.eqb_spec d x) as [->|Hne]; lia.
Qed.

Lemma collect_log_pending d s recovery_list s1 recovery_list1 x :
  collect_log d (s, recovery_list) = (s1, recovery_list1) ->
  x <> d ->
  In x (pending_logs_list (mgr s)) ->
  In x (pending_logs_list (mgr s1)).
Proof.
  unfold collect_log.
  destruct (ops _) as [o|]; [|now intros [= <- <-]].
  destruct (recovery_init o) as [f|]; [|now intros [= <- <-]].
  destruct (invoke _ _ _ _) as [r m']. intros [= <- <-] Hne Hin.
  cbn. now apply In_list_del_init.
Qed.

Lemma collect_logs_linked l : forall s recovery_list s1 recovery_list1,
  NoDup l ->
  (forall d, In d l -> In d (pending_logs_list (mgr s))) ->
  linked_once (mgr s) recovery_list ->
  collect_logs l (s, recovery_list) = (s1, recovery_list1) ->
  linked_once (mgr s1) recovery_list1.
Proof.
  induction l as [|d l IH]; intros s rl s1 rl1 Hnd Hsub Hl; cbn [collect_logs].
  - now intros [= <- <-].
  - destruct (collect_log d (s, rl)) as [s2 rl2] eqn:Hstep.
    inversion Hnd as [|? ? Hnotin Hnd']; subst.
    apply IH; [assumption | | ].
    + intros x Hx. eapply collect_log_pending; [exact Hstep | | ].
      * intros ->. contradiction.
      * apply Hsub. now right.
    + eapply collect_log_linked; [exact Hl | | exact Hstep].
      apply Hsub. now left.
Qed.

Lemma linked_once_NoDup_pending g recovery_list :
  linked_once g recovery_list -> NoDup (pending_logs_list g).
Proof.
  intros Hl. apply (NoDup_count_occ Nat.eq_dec). intros x.
  specialize (Hl x). fold (occ x (pending_logs_list g)).
  destruct (Nat.ltb x LOG_NUM); lia.
Qed.

Lemma reachable_linked_once s recovery_list :
  reachable s recovery_list -> linked_once (mgr s) recovery_list.
Proof.
  induction 1 as [m s Hc | s t o lock rv s' _ IH Hr | s t rv dp s' _ IH Ha
                 | s l1 l2 s1 rl _ IH Hp Hc | s rl d m' _ IH _ _ | s rl _ IH _].
  - eapply create_log_pool_linked; eassumption.
  - apply register_logtype_lists in Hr as (Hf & Ha & Hp).
    intros x. specialize (IH x). now rewrite Hf, Ha, Hp.
  - eapply alloc_log_linked; eassumption.
  - pose proof (linked_once_NoDup_pending IH) as Hnd. rewrite Hp in Hnd.
    eapply collect_logs_linked; [ | | exact IH | exact Hc].
    + now apply NoDup_app_remove_r in Hnd.
    + intros x Hx. rewrite Hp. apply in_or_app. now left.
  - exact IH.
  - intros x. specialize (IH x). occ_norm. lia.
Qed.

(** ** The entry points stay within the reachable configurations *)

Lemma set_mem_id s : set_mem (mem s) s = s.
Proof. now destruct s. Qed.

Lemma recovery_loop_reachable fuel : forall s recovery_list m',
  reachable s recovery_list ->
  recovery_loop fuel recovery_list (mem s) = Ret m' ->
  reachable (set_mem m' s) recovery_list /\
  next_to_recover m' recovery_list None = None.
Proof.
  induction fuel as [|fuel IH]; intros s rl m' Hr; cbn [recovery_loop].
  - discriminate.
  - destruct (next_to_recover (mem s) rl None) as [d|] eqn:Hn.
    + destruct (recover_log d (mem s)) as [m1| |] eqn:Hrec; [|discriminate..].
      cbn [bind]. intros Hloop.
      apply (IH (set_mem m1 s) rl m'); [|exact Hloop].
      eapply reach_recover; eassumption.
    + intros H. apply Ret_inj in H. subst m'. now rewrite set_mem_id.
Qed.

Lemma do_recovery_reachable fuel s rv s' :
  reachable s [] ->
  do_recovery fuel s = Ret (rv, s') ->
  reachable s' [].
Proof.
  intros Hr. unfold do_recovery.
  destruct (collect_logs _ _) as [s1 rl] eqn:Hc.
  destruct (recovery_loop fuel rl (mem s1)) as [m'| |] eqn:Hloop; [|discriminate..].
  cbn [bind]. intros H. apply Ret_inj in H. injection H as _ <-.
  assert (Hr1 : reachable s1 rl).
  { eapply reach_collect with (l2 := []); [exact Hr | | exact Hc].
    now rewrite app_nil_r. }
  destruct (recovery_loop_reachable _ Hr1 Hloop) as [Hr2 Hnone].
  exact (reach_splice Hr2 Hnone).
Qed.

Lemma register_static_from_reachable l : forall s s',
  reachable s [] ->
  register_static_from l s = Ret s' ->
  reachable s' [].
Proof.
  induction l as [|i l IH]; intros s s' Hr; cbn [register_static_from].
  - intros H. apply Ret_inj in H. now subst.
  - destruct (register_logtype _ _ _ _) as [[rv s1]| |] eqn:Hreg; [|discriminate..].
    cbn [bind]. destruct (is_success rv); [|discriminate].
    apply IH. eapply reach_register; eassumption.
Qed.

Lemma logmgr_init_reachable fuel p rv p' :
  logmgr_initialized p = false ->
  logmgr_init fuel p = Ret (rv, p') ->
  rv = M_R_SUCCESS ->
  exists s, p' = publish true s /\ reachable s [].
Proof.
  intros Hinit. unfold logmgr_init. rewrite Hinit.
  destruct (malloc _) as [[|] m]; [|intros [= <- _]; discriminate].
  destruct (create_log_pool _) as [s1| |] eqn:Hc; [|discriminate..].
  cbn [bind]. unfold register_static_logtypes.
  destruct (register_static_from _ _) as [s2| |] eqn:Hs; [|discriminate..].
  cbn [bind].
  destruct (do_recovery fuel s2) as [[rv3 s3]| |] eqn:Hd; [|discriminate..].
  cbn [bind]. intros H _. apply Ret_inj in H. injection H as _ <-.
  exists s3. split; [reflexivity|].
  eapply do_recovery_reachable; [|exact Hd].
  eapply register_static_from_reachable; [|exact Hs].
  eapply reach_create. exact Hc.
Qed.

(** ** C2 *)

(** C2. Partition invariant: in every configuration the manager reaches
    through pool bring-up, type registration, recovery and allocation,
    the free, active, pending and recovery-transient lists together hold
    exactly the [LOG_NUM] descriptors of the pool, and each descriptor is
    a member of exactly one of the four lists. *)
Theorem slot_lists_partition s recovery_list :
  reachable s recovery_list ->
  Permutation
    (free_logs_list (mgr s) ++ active_logs_list (mgr s)
     ++ pending_logs_list (mgr s) ++ recovery_list)
    (seq 0 LOG_NUM)
  /\ forall d, d < LOG_NUM ->
       exactly_one (In d (free_logs_list (mgr s)))
                   (In d (active_logs_list (mgr s)))
                   (In d (pending_logs_list (mgr s)))
                   (In d recovery_list).
Proof.
  intros Hr. apply reachable_linked_once in Hr. split.
  - apply occ_Permutation. intros x.
    rewrite occ_seq, <- (Hr x), !occ_app. lia.
  - intros d Hd. specialize (Hr d).
    apply Nat.ltb_lt in Hd. rewrite Hd in Hr.
    unfold exactly_one. rewrite !occ_In. lia.
Qed.

(** ** Selection of the next log to recover *)

Lemma none_pending_cons m x l :
  none_pending m (x :: l) <-> order_of m x = INV_LOG_ORDER /\ none_pending m l.
Proof.
  unfold none_pending. split.
  - intros H. split; [apply H; now left | intros y Hy; apply H; now right].
  - intros [Hx H] y [<-|Hy]; auto.
Qed.

Lemma smallest_pending_skip m x l d :
  order_of m x = INV_LOG_ORDER \/ (order_of m d < order_of m x)%Z ->
  smallest_pending m l d -> smallest_pending m (x :: l) d.
Proof.
  intros Hx (l1 & l2 & -> & Hd & H1 & H2).
  exists (x :: l1), l2. repeat split; try assumption.
  intros y [<-|Hy]; auto.
Qed.

Lemma smallest_pending_head m x l :
  order_of m x <> INV_LOG_ORDER ->
  (forall y, In y l ->
     order_of m y = INV_LOG_ORDER \/ (order_of m x <= order_of m y)%Z) ->
  smallest_pending m (x :: l) x.
Proof.
  intros Hx Hl. exists [], l. repeat split; try assumption.
  intros y [].
Qed.

(** What the scan returns, for each state of the running candidate. *)
Lemma next_to_recover_acc m l : forall cur,
  match cur with
  | None =>
      match next_to_recover m l None with
      | None => none_pending m l
      | Some d => smallest_pending m l d
      end
  | Some c =>
      exists d, next_to_recover m l (Some c) = Some d /\
        ((d = c /\
          forall y, In y l ->
            order_of m y = INV_LOG_ORDER \/ (order_of m c <= order_of m y)%Z)
         \/ (smallest_pending m l d /\ (order_of m d < order_of m c)%Z))
  end.
Proof.
  induction l as [|x l IH]; intros cur.
  - destruct cur as [c|]; cbn.
    + exists c. split; [reflexivity|]. left. split; [reflexivity|]. intros y [].
    + intros y [].
  - cbn [next_to_recover]. fold (order_of m x).
    destruct (Z.eqb_spec (order_of m x) INV_LOG_ORDER) as [Hinv|Hord].
    + specialize (IH cur). destruct cur as [c|].
      * destruct IH as (d & Hd & [[Hdc Hall]|[Hs Hlt]]); exists d;
          (split; [exact Hd|]).
        -- left. split; [exact Hdc|]. intros y [<-|Hy]; auto.
        -- right. split; [|exact Hlt]. apply smallest_pending_skip; auto.
      * destruct (next_to_recover m l None).
        -- apply smallest_pending_skip; auto.
        -- now apply none_pending_cons.
    + destruct cur as [c|].
      * fold (order_of m c).
        destruct (Z.gtb_spec (order_of m c) (order_of m x)) as [Hgt|Hle].
        -- destruct (IH (Some x)) as (d & Hd & [[Hdx Hall]|[Hs Hlt]]); exists d;
             (split; [exact Hd|]); right.
           ++ subst d. split; [|lia]. now apply smallest_pending_head.
           ++ split; [|lia]. apply smallest_pending_skip; auto.
        -- destruct (IH (Some c)) as (d & Hd & [[Hdc Hall]|[Hs Hlt]]); exists d;
             (split; [exact Hd|]).
           ++ left. split; [exact Hdc|]. intros y [<-|Hy]; [right; lia | auto].
           ++ right. split; [|exact Hlt].
              apply smallest_pending_skip; [right; lia | exact Hs].
      * destruct (IH (Some x)) as (d & -> & [[-> Hall]|[Hs Hlt]]).
        -- now apply smallest_pending_head.
        -- apply smallest_pending_skip; auto.
Qed.

Lemma next_to_recover_some m l d :
  next_to_recover m l None = Some d -> smallest_pending m l d.
Proof.
  intros H. pose proof (next_to_recover_acc m l None) as Hacc. cbn in Hacc.
  now rewrite H in Hacc.
Qed.

Lemma smallest_pending_In m l d : smallest_pending m l d -> In d l.
Proof.
  intros (l1 & l2 & -> & _). apply in_or_app. right. now left.
Qed.

Lemma smallest_pending_order m l d :
  smallest_pending m l d -> order_of m d <> INV_LOG_ORDER.
Proof. now intros (l1 & l2 & _ & H & _). Qed.

Lemma next_to_recover_none m l :
  next_to_recover m l None = None <-> none_pending m l.
Proof.
  pose proof (next_to_recover_acc m l None) as Hacc. cbn in Hacc. split.
  - intros H. now rewrite H in Hacc.
  - intros Hnone. destruct (next_to_recover m l None) as [d|]; [|reflexivity].
    exfalso. apply (smallest_pending_order Hacc).
    apply Hnone. eapply smallest_pending_In; eassumption.
Qed.

Lemma smallest_pending_unique m l d d' :
  smallest_pending m l d -> smallest_pending m l d' -> d = d'.
Proof.
  intros (l1 & l2 & -> & Hd & H1 & H2) (l1' & l2' & Heq & Hd' & H1' & H2').
  apply app_eq_app in Heq as [l0 [[-> Ht]|[-> Ht]]].
  - destruct l0 as [|y l0]; cbn in Ht.
    + now injection Ht.
    + injection Ht as <- ->.
      assert (Ha : In d' (l1' ++ d' :: l0)) by (apply in_or_app; right; now left).
      assert (Hb : In d (l0 ++ d :: l2)) by (apply in_or_app; right; now left).
      destruct (H1 _ Ha), (H2' _ Hb); try contradiction. lia.
  - destruct l0 as [|y l0]; cbn in Ht.
    + now injection Ht.
    + injection Ht as <- ->.
      assert (Ha : In d (l1 ++ d :: l0)) by (apply in_or_app; right; now left).
      assert (Hb : In d' (l0 ++ d' :: l2')) by (apply in_or_app; right; now left).
      destruct (H1' _ Ha), (H2 _ Hb); try contradiction. lia.
Qed.

Lemma smallest_pending_next m l d :
  smallest_pending m l d -> next_to_recover m l None = Some d.
Proof.
  intros Hs. destruct (next_to_recover m l None) as [d'|] eqn:Hn.
  - f_equal. apply next_to_recover_some in Hn.
    eapply smallest_pending_unique; eassumption.
  - exfalso. apply next_to_recover_none in Hn.
    apply (smallest_pending_order Hs), Hn.
    eapply smallest_pending_In; eassumption.
Qed.

(** ** The ordering loop *)

Lemma recover_log_ret d m m' :
  recover_log d m = Ret m' ->
  exists o f_do f_next,
    ops (log_dscs m d) = Some o /\
    recovery_do o = Some f_do /\
    recovery_prepare_next o = Some f_next /\
    m' = snd (invoke EvRecoveryPrepareNext f_next d
                (snd (invoke EvRecoveryDo f_do d m))).
Proof.
  unfold recover_log. destruct (ops _) as [o|] eqn:Ho; [|discriminate].
  destruct (recovery_do o) as [f_do|] eqn:Hdo; [|discriminate].
  destruct (recovery_prepare_next o) as [f_next|] eqn:Hnext; [|discriminate].
  intros H. exists o, f_do, f_next. do 3 (split; [assumption || reflexivity|]).
  destruct (invoke EvRecoveryDo _ _ _) as [r1 m1]. cbn [snd].
  destruct (invoke EvRecoveryPrepareNext _ _ _) as [r2 m2].
  apply Ret_inj in H. now subst m'.
Qed.

Lemma recover_log_run d m o f_do f_next :
  ops (log_dscs m d) = Some o ->
  recovery_do o = Some f_do ->
  recovery_prepare_next o = Some f_next ->
  recover_log d m
  = Ret (snd (invoke EvRecoveryPrepareNext f_next d
                (snd (invoke EvRecoveryDo f_do d m)))).
Proof.
  intros Ho Hdo Hnext. unfold recover_log. rewrite Ho, Hdo, Hnext.
  destruct (invoke EvRecoveryDo _ _ _) as [r1 m1]. cbn [snd].
  now destruct (invoke EvRecoveryPrepareNext _ _ _).
Qed.

(** The loop of the code does what the loop of the specification does. *)
Lemma recovery_loop_sound fuel : forall l m m',
  recovery_loop fuel l m = Ret m' -> ordering_loop l m m'.
Proof.
  induction fuel as [|fuel IH]; intros l m m'; cbn [recovery_loop].
  - discriminate.
  - destruct (next_to_recover m l None) as [d|] eqn:Hn.
    + destruct (recover_log d m) as [m1| |] eqn:Hrec; [|discriminate..].
      cbn [bind]. intros Hloop.
      apply recover_log_ret in Hrec as (o & f_do & f_next & Ho & Hdo & Hnext & ->).
      eapply ordering_step; eauto using next_to_recover_some.
    + intros H. apply Ret_inj in H. subst m'.
      apply ordering_done. now apply next_to_recover_none.
Qed.

(** Every run of the loop of the specification is a run of the code:
    with enough fuel [recovery_loop] returns its result. *)
Lemma recovery_loop_complete l m m' :
  ordering_loop l m m' -> exists fuel, recovery_loop fuel l m = Ret m'.
Proof.
  induction 1 as [m Hnone | m d o f_do f_next m' Hs Ho Hdo Hnext _ [fuel IH]].
  - exists 1. cbn. apply next_to_recover_none in Hnone. now rewrite Hnone.
  - exists (S fuel). cbn [recovery_loop].
    rewrite (smallest_pending_next Hs).
    rewrite (recover_log_run _ _ Ho Hdo Hnext). cbn [bind]. exact IH.
Qed.

Lemma ordering_loop_end l m m' : ordering_loop l m m' -> none_pending m' l.
Proof. induction 1; assumption. Qed.

(** ** The collection phase *)

Lemma recoverable_ext m m' :
  (forall x, ops (log_dscs m' x) = ops (log_dscs m x)) ->
  forall x, recoverable m' x = recoverable m x.
Proof. intros H x. unfold recoverable. now rewrite H. Qed.

Lemma collect_log_cases d s recovery_list :
  (recoverable (mem s) d = false /\
   collect_log d (s, recovery_list) = (s, recovery_list))
  \/
  (recoverable (mem s) d = true /\
   exists o f,
     ops (log_dscs (mem s) d) = Some o /\ recovery_init o = Some f /\
     collect_log d (s, recovery_list)
     = ({| mgr := set_pending (list_del_init d (pending_logs_list (mgr s))) (mgr s);
           mem := snd (invoke EvRecoveryInit f d (mem s)) |},
        d :: recovery_list)).
Proof.
  unfold recoverable, collect_log, dsc.
  destruct (ops _) as [o|]; [|now left].
  destruct (recovery_init o) as [f|] eqn:Hf; [|now left].
  right. split; [reflexivity|]. exists o, f.
  split; [reflexivity|]. split; [exact Hf|].
  now destruct (invoke _ _ _ _).
Qed.

Lemma collect_logs_spec l : forall s recovery_list s1 recovery_list1,
  collect_logs l (s, recovery_list) = (s1, recovery_list1) ->
  let moved := filter (recoverable (mem s)) l in
  recovery_list1 = rev moved ++ recovery_list /\
  known_logtypes_list (mgr s1) = known_logtypes_list (mgr s) /\
  free_logs_list (mgr s1) = free_logs_list (mgr s) /\
  active_logs_list (mgr s1) = active_logs_list (mgr s) /\
  (forall x, In x (pending_logs_list (mgr s1)) <->
             In x (pending_logs_list (mgr s)) /\ ~ In x moved) /\
  trace (mem s1) = trace (mem s) ++ map EvRecoveryInit moved /\
  allocs (mem s1) = allocs (mem s) /\
  (forall x, ops (log_dscs (mem s1) x) = ops (log_dscs (mem s) x)) /\
  (forall x, ~ In x moved -> log_dscs (mem s1) x = log_dscs (mem s) x).
Proof.
  induction l as [|d l IH]; intros s rl s1 rl1; cbn [collect_logs].
  - intros [= <- <-]. cbn. rewrite app_nil_r. intuition.
  - destruct (collect_log_cases d s rl) as [[Hrec ->]|[Hrec (o & f & Ho & Hf & ->)]];
      intros Hc; apply IH in Hc; cbn zeta in *; cbn [filter]; rewrite Hrec.
    + exact Hc.
    + cbn [mem mgr] in Hc.
      set (m1 := snd (invoke EvRecoveryInit f d (mem s))) in *.
      assert (Hops : forall x, ops (log_dscs m1 x) = ops (log_dscs (mem s) x))
        by (intros x; apply invoke_ops).
      rewrite (filter_ext _ _ (recoverable_ext _ _ Hops)) in Hc.
      destruct Hc as (-> & Hk & Hfree & Hact & Hpend & Htr & Hal & Ho1 & Hfr).
      refine (conj _ (conj Hk (conj Hfree (conj Hact (conj _ (conj _
                (conj _ (conj _ _)))))))).
      * cbn [rev]. now rewrite <- app_assoc.
      * intros x. rewrite Hpend. cbn [mgr set_pending pending_logs_list].
        rewrite In_list_del_init. cbn [In]. split.
        -- intros [[Hx Hne] Hn]. split; [exact Hx|]. intros [Heq|Hin]; auto.
        -- intros [Hx Hn]. repeat split; auto.
      * rewrite Htr. unfold m1. rewrite invoke_trace. cbn [map].
        now rewrite <- app_assoc.
      * rewrite Hal. apply invoke_allocs.
      * intros x. now rewrite Ho1.
      * intros x Hn. rewrite Hfr by (intros Hin; apply Hn; now right).
        apply invoke_other. intros ->. apply Hn. now left.
Qed.

(** ** The footprint of recovery *)

Lemma fold_apply_cb_ops fs : forall c, ops (fold_left apply_cb fs c) = ops c.
Proof.
  induction fs as [|f fs IH]; intros c; cbn; [reflexivity|].
  now rewrite IH.
Qed.

Lemma recovery_callback_of_ext c c' f :
  ops c' = ops c -> recovery_callback_of c f -> recovery_callback_of c' f.
Proof. intros Heq (o & Ho & Hf). exists o. now rewrite Heq. Qed.

Lemma callbacks_only_refl m : callbacks_only m m.
Proof. intros d. now exists []. Qed.

Lemma callbacks_only_trans m1 m2 m3 :
  callbacks_only m1 m2 -> callbacks_only m2 m3 -> callbacks_only m1 m3.
Proof.
  intros H12 H23 d.
  destruct (H12 d) as (fs & Hfs & E12). destruct (H23 d) as (gs & Hgs & E23).
  exists (fs ++ gs). split.
  - apply Forall_app. split; [exact Hfs|].
    eapply Forall_impl; [|exact Hgs]. intros f.
    apply recovery_callback_of_ext. rewrite E12. symmetry.
    apply fold_apply_cb_ops.
  - now rewrite fold_left_app, <- E12.
Qed.

Lemma callbacks_only_invoke ev f d m :
  recovery_callback_of (log_dscs m d) f ->
  callbacks_only m (snd (invoke ev f d m)).
Proof.
  intros Hf x. destruct (Nat.eq_dec x d) as [->|Hne].
  - exists [f]. split; [now constructor|]. now rewrite invoke_same.
  - exists []. split; [constructor|]. now rewrite invoke_other.
Qed.

Lemma callbacks_only_ops m m' x :
  callbacks_only m m' -> ops (log_dscs m' x) = ops (log_dscs m x).
Proof.
  intros H. destruct (H x) as (fs & _ & ->). apply fold_apply_cb_ops.
Qed.

Lemma fold_apply_cb_flags fs : forall c,
  Forall keeps_flags fs ->
  generic_flags (nvmd (fold_left apply_cb fs c)) = generic_flags (nvmd c).
Proof.
  induction fs as [|f fs IH]; intros c Hfs; cbn; [reflexivity|].
  inversion Hfs as [|? ? Hf Hfs']; subst.
  rewrite IH by assumption. apply Hf.
Qed.

Lemma recovery_event_in_incl l l' e :
  incl l l' -> recovery_event_in l e -> recovery_event_in l' e.
Proof. intros Hi (x & Hx & He). exists x. auto. Qed.

(** What the ordering loop changes. *)
Lemma ordering_loop_effect l m m' :
  ordering_loop l m m' ->
  (exists evs, trace m' = trace m ++ evs /\ Forall (recovery_event_in l) evs) /\
  allocs m' = allocs m /\
  (forall x, ~ In x l -> log_dscs m' x = log_dscs m x) /\
  callbacks_only m m'.
Proof.
  induction 1 as [m Hnone | m d o f_do f_next m' Hs Ho Hdo Hnext _ IH].
  - split; [|split; [|split]].
    + exists []. now rewrite app_nil_r.
    + reflexivity.
    + reflexivity.
    + apply callbacks_only_refl.
  - set (m1 := snd (invoke EvRecoveryDo f_do d m)) in *.
    set (m2 := snd (invoke EvRecoveryPrepareNext f_next d m1)) in *.
    destruct IH as ((evs & Htr & Hevs) & Hal & Hfr & Hcb).
    pose proof (smallest_pending_In Hs) as Hin.
    split; [|split; [|split]].
    + exists ([EvRecoveryDo d; EvRecoveryPrepareNext d] ++ evs). split.
      * rewrite Htr. unfold m2, m1. rewrite !invoke_trace.
        now rewrite <- !app_assoc.
      * apply Forall_app. split; [|exact Hevs].
        repeat constructor; exists d; auto.
    + rewrite Hal. unfold m2, m1. now rewrite !invoke_allocs.
    + intros x Hx. rewrite Hfr by assumption. unfold m2, m1.
      rewrite !invoke_other; [reflexivity | |]; intros ->; contradiction.
    + eapply callbacks_only_trans; [|exact Hcb].
      eapply callbacks_only_trans; apply callbacks_only_invoke.
      * exists o. auto.
      * exists o. unfold m1. rewrite invoke_ops. auto.
Qed.

(** What the collection phase changes, cell by cell. *)
Lemma collect_logs_callbacks l : forall s recovery_list s1 recovery_list1,
  collect_logs l (s, recovery_list) = (s1, recovery_list1) ->
  callbacks_only (mem s) (mem s1).
Proof.
  induction l as [|d l IH]; intros s rl s1 rl1; cbn [collect_logs].
  - intros [= <- <-]. apply callbacks_only_refl.
  - destruct (collect_log_cases d s rl) as [[_ ->]|[_ (o & f & Ho & Hf & ->)]];
      intros Hc; apply IH in Hc; [exact Hc|].
    eapply callbacks_only_trans; [|exact Hc].
    apply callbacks_only_invoke. exists o. auto.
Qed.

(** What a run of [do_recovery] changes. *)
Lemma do_recovery_effect fuel s rv s' :
  do_recovery fuel s = Ret (rv, s') ->
  let moved := filter (recoverable (mem s)) (pending_logs_list (mgr s)) in
  rv = M_R_SUCCESS /\
  known_logtypes_list (mgr s') = known_logtypes_list (mgr s) /\
  active_logs_list (mgr s') = active_logs_list (mgr s) /\
  free_logs_list (mgr s') = rev moved ++ free_logs_list (mgr s) /\
  (forall x, In x (pending_logs_list (mgr s')) <->
             In x (pending_logs_list (mgr s)) /\ ~ In x moved) /\
  (exists evs, trace (mem s') = trace (mem s) ++ evs /\
               Forall (recovery_event_in moved) evs) /\
  allocs (mem s') = allocs (mem s) /\
  (forall x, ~ In x moved -> log_dscs (mem s') x = log_dscs (mem s) x) /\
  callbacks_only (mem s) (mem s').
Proof.
  unfold do_recovery.
  destruct (collect_logs _ _) as [s1 rl] eqn:Hc.
  destruct (recovery_loop fuel rl (mem s1)) as [m'| |] eqn:Hloop; [|discriminate..].
  cbn [bind]. intros H. apply Ret_inj in H. injection H as <- <-. cbn zeta.
  pose proof (collect_logs_callbacks _ _ _ Hc) as Hcb1.
  apply collect_logs_spec in Hc
    as (Hrl & Hk & Hfree & Hact & Hpend & Htr & Hal & Hops & Hfr).
  cbn zeta in *. unfold INIT_LIST_HEAD in Hrl. rewrite app_nil_r in Hrl. subst rl.
  apply recovery_loop_sound, ordering_loop_effect in Hloop
    as ((evs & Htr2 & Hevs) & Hal2 & Hfr2 & Hcb2).
  cbn [mgr mem set_free free_logs_list active_logs_list pending_logs_list
       known_logtypes_list list_splice].
  refine (conj eq_refl (conj Hk (conj Hact (conj _ (conj Hpend (conj _
            (conj _ (conj _ _)))))))).
  - now rewrite Hfree.
  - exists (map EvRecoveryInit
              (filter (recoverable (mem s)) (pending_logs_list (mgr s))) ++ evs).
    split.
    + now rewrite Htr2, Htr, <- app_assoc.
    + apply Forall_app. split.
      * apply Forall_forall. intros e He. apply in_map_iff in He as (x & <- & Hx).
        exists x. auto.
      * eapply Forall_impl; [|exact Hevs]. intros e.
        apply recovery_event_in_incl. intros x Hx. now apply in_rev.
  - now rewrite Hal2.
  - intros x Hx. rewrite Hfr2; [now apply Hfr|]. intros Hin. apply Hx.
    now apply in_rev.
  - eapply callbacks_only_trans; eassumption.
Qed.

(** ** Termination of the ordering loop *)

Lemma total_measure_cons mu m x l :
  total_measure mu m (x :: l) = mu (log_dscs m x) + total_measure mu m l.
Proof. reflexivity. Qed.

Lemma total_measure_le mu m m' l :
  (forall x, In x l -> mu (log_dscs m' x) <= mu (log_dscs m x)) ->
  total_measure mu m' l <= total_measure mu m l.
Proof.
  induction l as [|x l IH]; intros H; [reflexivity|].
  rewrite !total_measure_cons.
  pose proof (H x (or_introl eq_refl)) as Hx.
  assert (Hl : forall y, In y l -> mu (log_dscs m' y) <= mu (log_dscs m y))
    by (intros y Hy; apply H; now right).
  specialize (IH Hl). lia.
Qed.

Lemma total_measure_lt mu m m' l d :
  In d l ->
  mu (log_dscs m' d) < mu (log_dscs m d) ->
  (forall x, In x l -> mu (log_dscs m' x) <= mu (log_dscs m x)) ->
  total_measure mu m' l < total_measure mu m l.
Proof.
  induction l as [|x l IH]; intros Hin Hd H; [contradiction|].
  rewrite !total_measure_cons.
  assert (Hl : forall y, In y l -> mu (log_dscs m' y) <= mu (log_dscs m y))
    by (intros y Hy; apply H; now right).
  destruct Hin as [->|Hin].
  - pose proof (total_measure_le mu m m' l Hl) as Hle. lia.
  - specialize (IH Hin Hd Hl). pose proof (H x (or_introl eq_refl)). lia.
Qed.

Lemma total_measure_In mu m l d :
  In d l -> mu (log_dscs m d) <= total_measure mu m l.
Proof.
  induction l as [|x l IH]; intros Hin; [contradiction|].
  rewrite total_measure_cons. destruct Hin as [->|Hin]; [lia|].
  specialize (IH Hin). lia.
Qed.

(** With callbacks that make progress the ordering loop returns, within
    a fuel of one more than the total measure of the recovery set. *)
Lemma recovery_loop_terminates mu l : forall n m,
  replay_progress mu m l ->
  total_measure mu m l <= n ->
  exists m', recovery_loop (S n) l m = Ret m'.
Proof.
  induction n as [|n IH]; intros m Hprog Hsum; cbn [recovery_loop];
    destruct (next_to_recover m l None) as [d|] eqn:Hn; eauto.
  - exfalso. apply next_to_recover_some in Hn.
    pose proof (smallest_pending_In Hn) as Hin.
    pose proof (smallest_pending_order Hn) as Hord.
    destruct (Hprog d Hin) as (o & f_do & f_next & Ho & _ & _ & Hdec).
    specialize (Hdec (log_dscs m d) Ho Hord).
    pose proof (total_measure_In mu m l d Hin). lia.
  - apply next_to_recover_some in Hn.
    pose proof (smallest_pending_In Hn) as Hin.
    pose proof (smallest_pending_order Hn) as Hord.
    destruct (Hprog d Hin) as (o & f_do & f_next & Ho & Hdo & Hnext & Hdec).
    rewrite (recover_log_run _ _ Ho Hdo Hnext). cbn [bind].
    set (m1 := snd (invoke EvRecoveryPrepareNext f_next d
                      (snd (invoke EvRecoveryDo f_do d m)))).
    assert (Hd : log_dscs m1 d = replay (log_dscs m d) f_do f_next).
    { unfold m1. now rewrite !invoke_same. }
    assert (Hother : forall x, x <> d -> log_dscs m1 x = log_dscs m x).
    { intros x Hx. unfold m1. now rewrite !invoke_other. }
    assert (Hops : forall x, ops (log_dscs m1 x) = ops (log_dscs m x)).
    { intros x. unfold m1. now rewrite !invoke_ops. }
    apply IH.
    + intros x Hx. destruct (Hprog x Hx) as (o' & g_do & g_next & Ho' & H').
      exists o', g_do, g_next. split; [now rewrite Hops | exact H'].
    + specialize (Hdec (log_dscs m d) Ho Hord).
      assert (Hlt : total_measure mu m1 l < total_measure mu m l).
      { apply total_measure_lt with (d := d); [exact Hin | now rewrite Hd |].
        intros x Hx. destruct (Nat.eq_dec x d) as [->|Hne].
        - rewrite Hd. lia.
        - now rewrite Hother. }
      lia.
Qed.

(** [do_recovery] returns when the callbacks of the collected
    descriptors make progress. *)
Lemma do_recovery_returns mu s s1 recovery_list :
  collect_logs (pending_logs_list (mgr s)) (s, INIT_LIST_HEAD)
  = (s1, recovery_list) ->
  replay_progress mu (mem s1) recovery_list ->
  exists s',
    do_recovery (S (total_measure mu (mem s1) recovery_list)) s
    = Ret (M_R_SUCCESS, s').
Proof.
  intros Hc Hprog. unfold do_recovery. rewrite Hc.
  destruct (recovery_loop_terminates (n := total_measure mu (mem s1) recovery_list)
              Hprog (le_n _)) as [m' ->].
  cbn [bind]. eauto.
Qed.

(** ** C1 *)

(** C1. Recovery ordering and completion: a run of [do_recovery] that
    returns has moved the pending descriptors with [recovery_init] into
    the recovery set and then gone through the ordering loop of the
    specification: in each iteration the descriptor with the smallest
    order other than "none" (the first encountered on ties) is selected,
    [recovery_do] and then [recovery_prepare_next] are invoked on it; the
    loop stops in the first memory in which no descriptor of the set has
    an order; after it every descriptor collected is on the free list. *)
Theorem do_recovery_ordering fuel s rv s' :
  do_recovery fuel s = Ret (rv, s') ->
  let moved := filter (recoverable (mem s)) (pending_logs_list (mgr s)) in
  let recovery_list := rev moved in
  exists s1,
    collect_logs (pending_logs_list (mgr s)) (s, INIT_LIST_HEAD)
    = (s1, recovery_list) /\
    ordering_loop recovery_list (mem s1) (mem s') /\
    none_pending (mem s') recovery_list /\
    free_logs_list (mgr s') = recovery_list ++ free_logs_list (mgr s) /\
    forall d, In d moved -> In d (free_logs_list (mgr s')).
Proof.
  unfold do_recovery.
  destruct (collect_logs _ _) as [s1 rl] eqn:Hc.
  destruct (recovery_loop fuel rl (mem s1)) as [m'| |] eqn:Hloop; [|discriminate..].
  cbn [bind]. intros H. apply Ret_inj in H. injection H as _ <-. cbn zeta.
  pose proof Hc as Hspec. apply collect_logs_spec in Hspec as (Hrl & _ & Hfree & _).
  cbn zeta in Hrl. unfold INIT_LIST_HEAD in Hrl. rewrite app_nil_r in Hrl.
  subst rl. exists s1. apply recovery_loop_sound in Hloop.
  cbn [mgr mem set_free free_logs_list list_splice]. rewrite Hfree.
  repeat split; try assumption.
  - eapply ordering_loop_end; eassumption.
  - intros d Hd. apply in_or_app. left. now apply in_rev in Hd.
Qed.

(** ** C8 *)

Lemma recoverable_false m d :
  ops (log_dscs m d) = None \/
  (exists o, ops (log_dscs m d) = Some o /\ recovery_init o = None) ->
  recoverable m d = false.
Proof.
  unfold recoverable. intros [->|(o & -> & ->)]; reflexivity.
Qed.

(** C8. A descriptor on the pending list whose operations table is
    absent, or has no [recovery_init], is left alone by a run of
    [do_recovery]: it is still on the pending list when the call
    returns, it has not been put on the free list, its cell is
    unchanged, and no event of the run (no callback invocation) is about
    it. *)
Theorem do_recovery_leaves_unregistered fuel s rv s' d :
  do_recovery fuel s = Ret (rv, s') ->
  In d (pending_logs_list (mgr s)) ->
  ops (dsc s d) = None \/
  (exists o, ops (dsc s d) = Some o /\ recovery_init o = None) ->
  In d (pending_logs_list (mgr s')) /\
  (~ In d (free_logs_list (mgr s)) -> ~ In d (free_logs_list (mgr s'))) /\
  dsc s' d = dsc s d /\
  exists evs,
    trace (mem s') = trace (mem s) ++ evs /\
    forall e, In e evs -> event_dsc e <> Some d.
Proof.
  intros Hrun Hpend Hops. apply recoverable_false in Hops.
  apply do_recovery_effect in Hrun
    as (_ & _ & _ & Hfree & Hp & (evs & Htr & Hevs) & _ & Hfr & _).
  cbn zeta in *.
  assert (Hnot : ~ In d (filter (recoverable (mem s)) (pending_logs_list (mgr s)))).
  { rewrite filter_In. intros [_ H]. congruence. }
  split; [|split; [|split]].
  - apply Hp. auto.
  - intros Hnf. rewrite Hfree. intros Hin. apply in_app_or in Hin as [Hin|Hin].
    + apply Hnot. now apply in_rev.
    + contradiction.
  - unfold dsc. now apply Hfr.
  - exists evs. split; [exact Htr|]. intros e He.
    rewrite Forall_forall in Hevs. destruct (Hevs e He) as (x & Hx & Hex).
    assert (Hxd : x <> d) by (intros ->; contradiction).
    destruct Hex as [->|[->| ->]]; cbn; congruence.
Qed.

(** ** C10 *)

(** C10. The scheduler writes no persisted metadata: in a run of
    [do_recovery] no persistent store is issued, and the cell of a
    descriptor changes only through the recovery callbacks of its own
    operations table.  Hence a descriptor whose recovery callbacks leave
    [generic_flags] alone has, after the run, the flags and the type tag
    it had before; if it was moved through the recovery set it is then
    on the free list with that tag, which is not FREE if it was not
    before. *)
Theorem do_recovery_keeps_tags fuel s rv s' :
  do_recovery fuel s = Ret (rv, s') ->
  (exists evs, trace (mem s') = trace (mem s) ++ evs /\
               forall d v, ~ In (EvPcmStore d v) evs) /\
  callbacks_only (mem s) (mem s') /\
  forall d,
    (forall f, recovery_callback_of (dsc s d) f -> keeps_flags f) ->
    generic_flags (nvmd (dsc s' d)) = generic_flags (nvmd (dsc s d)) /\
    tag_of (dsc s' d) = tag_of (dsc s d) /\
    (In d (pending_logs_list (mgr s)) -> recoverable (mem s) d = true ->
     In d (free_logs_list (mgr s')) /\
     tag_is (dsc s' d) LF_TYPE_FREE = tag_is (dsc s d) LF_TYPE_FREE).
Proof.
  intros Hrun. apply do_recovery_effect in Hrun
    as (_ & _ & _ & Hfree & _ & (evs & Htr & Hevs) & _ & _ & Hcb).
  cbn zeta in *. split; [|split].
  - exists evs. split; [exact Htr|]. intros d v Hin.
    rewrite Forall_forall in Hevs. destruct (Hevs _ Hin) as (x & _ & [H|[H|H]]);
      discriminate.
  - exact Hcb.
  - intros d Hkeep.
    assert (Hflags : generic_flags (nvmd (dsc s' d)) = generic_flags (nvmd (dsc s d))).
    { unfold dsc. destruct (Hcb d) as (fs & Hfs & ->).
      apply fold_apply_cb_flags. eapply Forall_impl; [|exact Hfs]. exact Hkeep. }
    assert (Htag : tag_of (dsc s' d) = tag_of (dsc s d))
      by (unfold tag_of; now rewrite Hflags).
    split; [exact Hflags|]. split; [exact Htag|]. intros Hp Hrec. split.
    + rewrite Hfree. apply in_or_app. left. apply in_rev.
      rewrite rev_involutive. apply filter_In. auto.
    + unfold tag_is. now rewrite Htag.
Qed.

(** ** The allocator *)

Lemma alloc_log_first_tagged t s :
  alloc_log t s =
  match first_tagged s t with
  | Some d => activate_log d t s
  | None =>
      match first_tagged s LF_TYPE_FREE with
      | Some d =>
          do m' <- lookup_and_alloc (known_logtypes_list (mgr s)) t d (mem s);
          match ops (log_dscs m' d) with
          | None => Ret (M_R_FAILURE, None, set_mem m' s)
          | Some _ => activate_log d t (set_mem m' s)
          end
      | None => Ret (M_R_FAILURE, None, s)
      end
  end.
Proof. apply alloc_log_cases. Qed.

Lemma first_tagged_some s t d :
  first_tagged s t = Some d ->
  In d (free_logs_list (mgr s)) /\ tag_is (dsc s d) t = true.
Proof. apply find_some. Qed.

Lemma lookup_and_alloc_lookup r t d m :
  lookup_and_alloc r t d m =
  match lookup_logtype r t with
  | Some e => assert_alloc d (set_dsc d (set_ops (lt_ops e) (log_dscs m d)) m)
  | None => Ret m
  end.
Proof.
  unfold lookup_logtype. induction r as [|e r IH]; cbn; [reflexivity|].
  now destruct (Z.eqb (lt_type e) t).
Qed.

(** What a successful [alloc] call under [assert] leaves behind. *)
Lemma assert_alloc_ret d m m' :
  assert_alloc d m = Ret m' ->
  exists tbl f,
    ops (log_dscs m d) = Some tbl /\ alloc tbl = Some f /\
    fst (f (view_of (log_dscs m d))) = M_R_SUCCESS /\
    m' = snd (invoke EvAlloc f d m).
Proof.
  unfold assert_alloc. destruct (ops _) as [tbl|] eqn:Ho; [|discriminate].
  destruct (alloc tbl) as [f|] eqn:Hf; [|discriminate].
  unfold invoke. destruct (f _) as [r v] eqn:Hfv.
  destruct r; cbn [is_success]; try discriminate.
  intros H. apply Ret_inj in H. subst m'. exists tbl, f.
  unfold invoke. rewrite Hfv. cbn. auto 10.
Qed.

Lemma assert_alloc_run d m tbl f :
  ops (log_dscs m d) = Some tbl -> alloc tbl = Some f ->
  fst (f (view_of (log_dscs m d))) = M_R_SUCCESS ->
  assert_alloc d m = Ret (snd (invoke EvAlloc f d m)).
Proof.
  intros Ho Hf Hr. unfold assert_alloc. rewrite Ho, Hf.
  unfold invoke in *. destruct (f _) as [r v]. cbn in Hr. now subst r.
Qed.

(** What a returning [activate_log] has done. *)
Lemma activate_log_spec d t s rv log_dscp s' :
  activate_log d t s = Ret (rv, log_dscp, s') ->
  exists tbl f,
    ops (dsc s d) = Some tbl /\ init tbl = Some f /\
    fst (f (view_of (dsc s d))) = M_R_SUCCESS /\
    let m1 := snd (invoke EvInit f d (mem s)) in
    let v := retag (generic_flags (nvmd (log_dscs m1 d))) t in
    rv = M_R_SUCCESS /\ log_dscp = Some d /\
    mgr s' = set_active (list_add_tail d (active_logs_list (mgr s)))
               (set_free (list_del_init d (free_logs_list (mgr s))) (mgr s)) /\
    mem s' = PCM_BARRIER (PCM_STORE_flags d v m1).
Proof.
  unfold activate_log. destruct (ops _) as [tbl|] eqn:Ho; [|discriminate].
  destruct (init tbl) as [f|] eqn:Hf; [|discriminate].
  unfold invoke, dsc. destruct (f _) as [r v] eqn:Hfv.
  destruct r; cbn [is_success]; try discriminate.
  intros H. apply Ret_inj in H. injection H as <- <- <-.
  exists tbl, f. unfold invoke. rewrite Hfv. cbn. auto 10.
Qed.

Lemma PCM_store_trace d v m :
  trace (PCM_BARRIER (PCM_STORE_flags d v m))
  = trace m ++ [EvPcmStore d v; EvPcmBarrier].
Proof. cbn. now rewrite <- app_assoc. Qed.

Lemma PCM_store_same d v m :
  log_dscs (PCM_BARRIER (PCM_STORE_flags d v m)) d = set_flags v (log_dscs m d).
Proof. cbn. apply upd_same. Qed.

(** The tag bits of the new flags are those of the type. *)
Lemma retag_tag flags t :
  Z.land (retag flags t) LF_TYPE_MASK = Z.land (u64 t) LF_TYPE_MASK.
Proof.
  unfold retag, u64. apply Z.bits_inj'. intros n Hn.
  rewrite !Z.land_spec, Z.lor_spec, Z.land_spec.
  destruct (Z.testbit LF_TYPE_MASK n) eqn:Hm; [|now rewrite !andb_false_r].
  rewrite !andb_true_r.
  destruct (Z.ltb_spec n 64) as [Hlt|Hge].
  - rewrite (Z.mod_pow2_bits_low (Z.lnot _)) by lia.
    rewrite Z.lnot_spec by lia. rewrite Hm. cbn. now rewrite andb_false_r.
  - rewrite !Z.mod_pow2_bits_high by lia. now rewrite andb_false_r.
Qed.

Lemma activate_log_run d t s tbl f :
  ops (dsc s d) = Some tbl -> init tbl = Some f ->
  fst (f (view_of (dsc s d))) = M_R_SUCCESS ->
  exists s', activate_log d t s = Ret (M_R_SUCCESS, Some d, s').
Proof.
  intros Ho Hf Hr. unfold activate_log. rewrite Ho, Hf.
  unfold invoke, dsc in *. destruct (f _) as [r v]. cbn in Hr. subst r.
  cbn [is_success]. eauto.
Qed.

Lemma activate_log_with_known r d t s :
  activate_log d t (with_known r s) =
  match activate_log d t s with
  | Ret (rv, log_dscp, s') => Ret (rv, log_dscp, with_known r s')
  | Fault => Fault
  | OutOfFuel => OutOfFuel
  end.
Proof.
  unfold activate_log, with_known, dsc. cbn [mem mgr set_mgr].
  destruct (ops _) as [tbl|]; [|reflexivity].
  destruct (init tbl) as [f|]; [|reflexivity].
  destruct (invoke _ _ _ _) as [rr m1]. now destruct (is_success rr).
Qed.

Lemma activate_log_trace d t s rv log_dscp s' :
  activate_log d t s = Ret (rv, log_dscp, s') ->
  exists v,
    trace (mem s') = trace (mem s) ++ [EvInit d; EvPcmStore d v; EvPcmBarrier] /\
    generic_flags (nvmd (dsc s' d)) = v /\
    tag_of (dsc s' d) = Z.land (u64 t) LF_TYPE_MASK /\
    ops (dsc s' d) = ops (dsc s d).
Proof.
  intros H. apply activate_log_spec in H
    as (tbl & f & Ho & Hf & Hr & _ & _ & _ & Hmem).
  cbn zeta in Hmem. unfold dsc, tag_of. rewrite Hmem.
  eexists. rewrite PCM_store_trace, PCM_store_same, invoke_trace. cbn [nvmd set_flags generic_flags ops].
  rewrite invoke_ops, retag_tag, <- app_assoc.
  repeat split; reflexivity.
Qed.

(** ** C3 *)

(** C3. Allocation preference: one scan of the free list yields the
    first descriptor whose persisted tag is the requested type and the
    first whose tag is FREE.  If there is a tag-matched descriptor it is
    the one activated and returned: the outcome does not depend on the
    registry and no [alloc] is invoked (the events are [init], the tag
    store and the barrier).  Otherwise, if there is a FREE-tagged
    descriptor and the registry has an entry for the type, the
    descriptor gets the operations table of that entry and [alloc] is
    invoked on it before it is activated. *)
Theorem alloc_log_selection t s :
  scan_free_logs (mem s) t (free_logs_list (mgr s)) None None
  = (first_tagged s t, first_tagged s LF_TYPE_FREE) /\
  (forall d, first_tagged s t = Some d ->
     alloc_log t s = activate_log d t s /\
     (forall tbl f,
        ops (dsc s d) = Some tbl -> init tbl = Some f ->
        fst (f (view_of (dsc s d))) = M_R_SUCCESS ->
        exists s', alloc_log t s = Ret (M_R_SUCCESS, Some d, s')) /\
     forall rv log_dscp s',
       alloc_log t s = Ret (rv, log_dscp, s') ->
       rv = M_R_SUCCESS /\ log_dscp = Some d /\
       (forall r, alloc_log t (with_known r s) = Ret (rv, log_dscp, with_known r s')) /\
       exists v, trace (mem s')
                 = trace (mem s) ++ [EvInit d; EvPcmStore d v; EvPcmBarrier]) /\
  (forall d e,
     first_tagged s t = None ->
     first_tagged s LF_TYPE_FREE = Some d ->
     lookup_logtype (known_logtypes_list (mgr s)) t = Some e ->
     forall rv log_dscp s',
       alloc_log t s = Ret (rv, log_dscp, s') ->
       rv = M_R_SUCCESS /\ log_dscp = Some d /\
       ops (dsc s' d) = lt_ops e /\
       exists v, trace (mem s')
                 = trace (mem s)
                   ++ [EvAlloc d; EvInit d; EvPcmStore d v; EvPcmBarrier]).
Proof.
  split; [apply scan_free_logs_find|]. split.
  - intros d Hd.
    assert (Heq : alloc_log t s = activate_log d t s)
      by (now rewrite alloc_log_first_tagged, Hd).
    split; [exact Heq|]. split.
    + intros tbl f Ho Hf Hr. rewrite Heq. eapply activate_log_run; eassumption.
    + intros rv dp s' Hrun. rewrite Heq in Hrun.
      destruct (activate_log_ret _ _ _ Hrun) as (-> & -> & _).
      split; [reflexivity|]. split; [reflexivity|]. split.
      * intros r. rewrite alloc_log_first_tagged.
        change (first_tagged (with_known r s) t) with (first_tagged s t).
        now rewrite Hd, activate_log_with_known, Hrun.
      * apply activate_log_trace in Hrun as (v & Htr & _). eauto.
  - intros d e Hnone Hfree He rv dp s'.
    rewrite alloc_log_first_tagged, Hnone, Hfree, lookup_and_alloc_lookup, He.
    destruct (assert_alloc _ _) as [m'| |] eqn:Ha; [|discriminate..].
    cbn [bind]. apply assert_alloc_ret in Ha
      as (tbl & f & Ho & Hf & Hr & ->).
    cbn [set_dsc log_dscs] in Ho. rewrite upd_same in Ho. cbn in Ho.
    rewrite invoke_ops. cbn [set_dsc log_dscs]. rewrite upd_same.
    cbn [set_ops ops]. rewrite Ho. intros Hrun.
    destruct (activate_log_ret _ _ _ Hrun) as (-> & -> & _).
    apply activate_log_trace in Hrun as (v & Htr & _ & _ & Hops).
    split; [reflexivity|]. split; [reflexivity|]. split.
    + rewrite Hops. unfold dsc. cbn [mem set_mem]. rewrite invoke_ops.
      cbn [set_dsc log_dscs]. rewrite upd_same. reflexivity.
    + exists v. rewrite Htr. cbn [mem set_mem]. rewrite invoke_trace.
      cbn [set_dsc trace]. now rewrite <- app_assoc.
Qed.

(** ** C4 *)

(** C4, amended. A request for a type that has no entry in the registry,
    when no free descriptor carries the type's tag and the first
    FREE-tagged free descriptor has no operations table bound, fails
    with the generic [M_R_FAILURE] and changes nothing: the state
    returned is the state given (same lists, same descriptors, no event,
    hence no persistent store).  It is the very result of a request
    that finds no usable free descriptor at all. *)
Theorem alloc_log_unknown_type t s d :
  first_tagged s t = None ->
  first_tagged s LF_TYPE_FREE = Some d ->
  lookup_logtype (known_logtypes_list (mgr s)) t = None ->
  ops (dsc s d) = None ->
  alloc_log t s = Ret (M_R_FAILURE, None, s) /\
  forall s0,
    first_tagged s0 t = None ->
    first_tagged s0 LF_TYPE_FREE = None ->
    alloc_log t s0 = Ret (M_R_FAILURE, None, s0).
Proof.
  intros Hnone Hfree Hlook Hops. split.
  - rewrite alloc_log_first_tagged, Hnone, Hfree, lookup_and_alloc_lookup, Hlook.
    cbn [bind]. unfold dsc in Hops. rewrite Hops. now rewrite set_mem_id.
  - intros s0 H1 H2. now rewrite alloc_log_first_tagged, H1, H2.
Qed.

(** ** C5 *)

Lemma not_In_list_del_init d l : ~ In d (list_del_init d l).
Proof. rewrite In_list_del_init. tauto. Qed.

(** C5. A successful allocation has moved the selected descriptor from
    the free list to the tail of the active list, has invoked [init] on
    it and, after that, has stored the new flags and issued the barrier.
    The tag bits of the flags stored are those of the type: the
    persisted tag is the type whenever the type fits the tag mask. *)
Theorem alloc_log_success t s log_dscp s' :
  alloc_log t s = Ret (M_R_SUCCESS, log_dscp, s') ->
  exists d,
    log_dscp = Some d /\
    In d (free_logs_list (mgr s)) /\
    free_logs_list (mgr s') = list_del_init d (free_logs_list (mgr s)) /\
    ~ In d (free_logs_list (mgr s')) /\
    active_logs_list (mgr s') = active_logs_list (mgr s) ++ [d] /\
    pending_logs_list (mgr s') = pending_logs_list (mgr s) /\
    (exists pre v,
       trace (mem s')
       = trace (mem s) ++ pre ++ [EvInit d; EvPcmStore d v; EvPcmBarrier] /\
       (pre = [] \/ pre = [EvAlloc d]) /\
       generic_flags (nvmd (dsc s' d)) = v) /\
    tag_of (dsc s' d) = Z.land (u64 t) LF_TYPE_MASK /\
    (Z.land (u64 t) LF_TYPE_MASK = u64 t -> tag_is (dsc s' d) t = true).
Proof.
  rewrite alloc_log_first_tagged.
  assert (Hact : forall d s0 pre,
    activate_log d t s0 = Ret (M_R_SUCCESS, log_dscp, s') ->
    In d (free_logs_list (mgr s)) ->
    mgr s0 = mgr s -> trace (mem s0) = trace (mem s) ++ pre ->
    pre = [] \/ pre = [EvAlloc d] ->
    exists d,
      log_dscp = Some d /\
      In d (free_logs_list (mgr s)) /\
      free_logs_list (mgr s') = list_del_init d (free_logs_list (mgr s)) /\
      ~ In d (free_logs_list (mgr s')) /\
      active_logs_list (mgr s') = active_logs_list (mgr s) ++ [d] /\
      pending_logs_list (mgr s') = pending_logs_list (mgr s) /\
      (exists pre v,
         trace (mem s')
         = trace (mem s) ++ pre ++ [EvInit d; EvPcmStore d v; EvPcmBarrier] /\
         (pre = [] \/ pre = [EvAlloc d]) /\
         generic_flags (nvmd (dsc s' d)) = v) /\
      tag_of (dsc s' d) = Z.land (u64 t) LF_TYPE_MASK /\
      (Z.land (u64 t) LF_TYPE_MASK = u64 t -> tag_is (dsc s' d) t = true)).
  { intros d s0 pre Hrun Hin Hmgr Htr0 Hpre.
    destruct (activate_log_ret _ _ _ Hrun) as (_ & -> & Hg).
    apply activate_log_trace in Hrun as (v & Htr & Hv & Htag & _).
    exists d. rewrite Hg, Hmgr in *.
    cbn [set_active set_free free_logs_list active_logs_list pending_logs_list].
    repeat split; auto using not_In_list_del_init.
    - exists pre, v. rewrite Htr, Htr0, <- app_assoc. auto.
    - intros Hfit. unfold tag_is. rewrite Htag, Hfit. apply Z.eqb_refl. }
  destruct (first_tagged s t) as [d|] eqn:Hd.
  - intros Hrun. apply first_tagged_some in Hd as [Hin _].
    apply (Hact d s [] Hrun); auto. now rewrite app_nil_r.
  - destruct (first_tagged s LF_TYPE_FREE) as [d|] eqn:Hfree; [|discriminate].
    apply first_tagged_some in Hfree as [Hin _].
    rewrite lookup_and_alloc_lookup.
    destruct (lookup_logtype _ _) as [e|].
    + destruct (assert_alloc _ _) as [m'| |] eqn:Ha; [|discriminate..].
      cbn [bind]. destruct (ops _); [|discriminate]. intros Hrun.
      apply assert_alloc_ret in Ha as (_ & f & _ & _ & _ & ->).
      apply (Hact d _ [EvAlloc d] Hrun); auto.
      cbn [mem set_mem]. now rewrite invoke_trace.
    + cbn [bind]. destruct (ops _); [|discriminate]. intros Hrun.
      apply (Hact d _ [] Hrun); auto.
      cbn [mem set_mem]. now rewrite app_nil_r.
Qed.

(** ** Selection by tag *)

(** The allocator only ever selects a free descriptor whose persisted
    tag is the requested type or FREE; when every free descriptor
    carries the tag of another, non-FREE type the request fails with
    [M_R_FAILURE] and nothing changes. *)
Lemma alloc_log_same_type_or_free t s :
  (forall rv d s',
     alloc_log t s = Ret (rv, Some d, s') ->
     In d (free_logs_list (mgr s)) /\
     (tag_is (dsc s d) t = true \/ tag_is (dsc s d) LF_TYPE_FREE = true)) /\
  ((forall d, In d (free_logs_list (mgr s)) ->
      tag_is (dsc s d) t = false /\ tag_is (dsc s d) LF_TYPE_FREE = false) ->
   alloc_log t s = Ret (M_R_FAILURE, None, s)).
Proof.
  split.
  - intros rv d s'. rewrite alloc_log_first_tagged.
    destruct (first_tagged s t) as [d1|] eqn:H1.
    + intros Hrun. destruct (activate_log_ret _ _ _ Hrun) as (_ & [= ->] & _).
      apply first_tagged_some in H1. tauto.
    + destruct (first_tagged s LF_TYPE_FREE) as [d0|] eqn:H0; [|discriminate].
      destruct (lookup_and_alloc _ _ _ _) as [m'| |]; [|discriminate..].
      cbn [bind]. destruct (ops _); [|discriminate].
      intros Hrun. destruct (activate_log_ret _ _ _ Hrun) as (_ & [= ->] & _).
      apply first_tagged_some in H0. tauto.
  - intros Hall. rewrite alloc_log_first_tagged.
    destruct (first_tagged s t) as [d1|] eqn:H1.
    + apply first_tagged_some in H1 as [Hin Ht].
      destruct (Hall _ Hin). congruence.
    + destruct (first_tagged s LF_TYPE_FREE) as [d0|] eqn:H0; [|reflexivity].
      apply first_tagged_some in H0 as [Hin Ht].
      destruct (Hall _ Hin). congruence.
Qed.

(** ** The registry *)

Lemma is_registered_In r t : is_registered r t = true <-> In t (map lt_type r).
Proof.
  unfold is_registered. rewrite existsb_exists, in_map_iff. split.
  - intros (e & He & Heq). apply Z.eqb_eq in Heq. eauto.
  - intros (e & Heq & He). exists e. split; [exact He|]. now apply Z.eqb_eq.
Qed.

Lemma entries_for_absent r t : is_registered r t = false -> entries_for r t = [].
Proof.
  unfold is_registered, entries_for. induction r as [|e r IH]; cbn; [reflexivity|].
  destruct (Z.eqb (lt_type e) t); cbn; [discriminate | exact IH].
Qed.

Lemma entries_for_unique r t :
  NoDup (map lt_type r) -> is_registered r t = true ->
  length (entries_for r t) = 1.
Proof.
  induction r as [|e r IH]; [discriminate|].
  intros Hnd. inversion Hnd as [|? ? Hnotin Hnd']; subst.
  change (is_registered (e :: r) t)
    with (Z.eqb (lt_type e) t || is_registered r t).
  change (entries_for (e :: r) t)
    with (if Z.eqb (lt_type e) t then e :: entries_for r t else entries_for r t).
  destruct (Z.eqb_spec (lt_type e) t) as [Heq|Hne]; cbn [orb].
  - intros _. rewrite entries_for_absent; [reflexivity|].
    destruct (is_registered r t) eqn:Hr; [|reflexivity].
    apply is_registered_In in Hr. congruence.
  - now apply IH.
Qed.

Lemma register_appends_NoDup r t o :
  NoDup (map lt_type r) -> is_registered r t = false ->
  NoDup (map lt_type (r ++ [{| lt_type := t; lt_ops := o |}])).
Proof.
  intros Hnd Hr. rewrite map_app. cbn.
  apply NoDup_app; [exact Hnd | repeat constructor; intros [] |].
  intros x Hx [<-|[]]. apply is_registered_In in Hx. congruence.
Qed.

Lemma create_log_dscs_known l : forall s,
  known_logtypes_list (mgr (create_log_dscs l s)) = known_logtypes_list (mgr s).
Proof.
  induction l as [|i l IH]; intros s; cbn [create_log_dscs]; [reflexivity|].
  rewrite IH. unfold create_log_dsc. now destruct (tag_is _ _).
Qed.

Lemma alloc_log_known t s rv log_dscp s' :
  alloc_log t s = Ret (rv, log_dscp, s') ->
  known_logtypes_list (mgr s') = known_logtypes_list (mgr s).
Proof.
  rewrite alloc_log_first_tagged.
  destruct (first_tagged s t).
  - intros H. now apply activate_log_ret in H as (_ & _ & ->).
  - destruct (first_tagged s LF_TYPE_FREE); [|now intros [= _ _ <-]].
    destruct (lookup_and_alloc _ _ _ _); [|discriminate..].
    cbn [bind]. destruct (ops _).
    + intros H. now apply activate_log_ret in H as (_ & _ & ->).
    + now intros [= _ _ <-].
Qed.

Lemma register_logtype_known s t o lock rv s' :
  register_logtype s t o lock = Ret (rv, s') ->
  known_logtypes_list (mgr s') = known_logtypes_list (mgr s) \/
  (is_registered (known_logtypes_list (mgr s)) t = false /\
   known_logtypes_list (mgr s')
   = known_logtypes_list (mgr s) ++ [{| lt_type := t; lt_ops := o |}]).
Proof.
  unfold register_logtype. destruct (is_registered _ _) eqn:Hr.
  - intros [= _ <-]. now left.
  - destruct (malloc _) as [[|] m].
    + destruct (bind_pending _ _ _ _); [|discriminate..].
      cbn. intros [= _ <-]. now right.
    + intros [= _ <-]. now left.
Qed.

(** The types of the registry are pairwise different. *)
Lemma reachable_registry_NoDup s recovery_list :
  reachable s recovery_list ->
  NoDup (map lt_type (known_logtypes_list (mgr s))).
Proof.
  induction 1 as [m s Hc | s t o lock rv s' _ IH Hr | s t rv dp s' _ IH Ha
                 | s l1 l2 s1 rl _ IH Hp Hc | s rl d m' _ IH _ _ | s rl _ IH _].
  - unfold create_log_pool in Hc. destruct (pool_segment _); [|discriminate].
    destruct LOG_POOL_LAYOUT_FITS; [|discriminate].
    destruct (malloc _) as [[|] m1]; [|discriminate].
    apply Ret_inj in Hc. subst s. rewrite create_log_dscs_known. constructor.
  - apply register_logtype_known in Hr as [->|[Hr ->]]; [exact IH|].
    now apply register_appends_NoDup.
  - apply alloc_log_known in Ha. now rewrite Ha.
  - apply collect_logs_spec in Hc as (_ & -> & _). exact IH.
  - exact IH.
  - exact IH.
Qed.

Lemma malloc_log_dscs m : log_dscs (snd (malloc m)) = log_dscs m.
Proof. unfold malloc. now destruct (allocs m). Qed.

Lemma malloc_trace m : trace (snd (malloc m)) = trace m.
Proof. unfold malloc. now destruct (allocs m). Qed.

(** The loop over the pending list, when every [alloc] it needs is there
    and succeeds. *)
Lemma bind_pending_spec t o l : forall m,
  NoDup l ->
  (forall d, In d l -> tag_is (log_dscs m d) t = true ->
             alloc_succeeds o (log_dscs m d)) ->
  exists m',
    bind_pending l t o m = Ret m' /\
    trace m' = trace m ++ map EvAlloc (filter (fun d => tag_is (log_dscs m d) t) l) /\
    (forall d, In d l -> tag_is (log_dscs m d) t = true ->
       exists tbl f, o = Some tbl /\ alloc tbl = Some f /\
                     log_dscs m' d = apply_cb (set_ops o (log_dscs m d)) f) /\
    (forall d, ~ (In d l /\ tag_is (log_dscs m d) t = true) ->
       log_dscs m' d = log_dscs m d).
Proof.
  induction l as [|d l IH]; intros m Hnd Hok.
  - exists m. cbn. rewrite app_nil_r. repeat split; intros; tauto.
  - inversion Hnd as [|? ? Hnotin Hnd']; subst.
    cbn [bind_pending filter].
    destruct (tag_is (log_dscs m d) t) eqn:Htag.
    + destruct (Hok d (or_introl eq_refl) Htag) as (tbl & f & -> & Hf & Hr).
      set (m0 := set_dsc d (set_ops (Some tbl) (log_dscs m d)) m).
      assert (Hrun : assert_alloc d m0 = Ret (snd (invoke EvAlloc f d m0))).
      { apply assert_alloc_run with (tbl := tbl); [| exact Hf |];
          unfold m0; cbn [set_dsc log_dscs]; rewrite upd_same; [reflexivity|].
        exact Hr. }
      rewrite Hrun. cbn [bind]. set (m1 := snd (invoke EvAlloc f d m0)) in *.
      assert (Hsame : forall x, x <> d -> log_dscs m1 x = log_dscs m x).
      { intros x Hx. unfold m1. rewrite invoke_other by assumption.
        unfold m0. cbn. now apply upd_other. }
      assert (Hd : log_dscs m1 d = apply_cb (set_ops (Some tbl) (log_dscs m d)) f).
      { unfold m1. rewrite invoke_same. unfold m0. cbn [set_dsc log_dscs].
        now rewrite upd_same. }
      destruct (IH m1 Hnd') as (m' & Hb & Htr & Hbound & Hfr).
      { intros x Hx. rewrite Hsame by (intros ->; contradiction).
        intros Hxt. apply Hok; [now right | exact Hxt]. }
      exists m'. split; [exact Hb|]. split; [|split].
      * assert (Hfilt : filter (fun x => tag_is (log_dscs m1 x) t) l
                        = filter (fun x => tag_is (log_dscs m x) t) l).
        { apply filter_ext_in. intros x Hx. rewrite Hsame; [reflexivity|].
          intros ->. contradiction. }
        rewrite Htr, Hfilt. unfold m1. rewrite invoke_trace. unfold m0.
        cbn [set_dsc trace map]. now rewrite <- app_assoc.
      * intros x [<-|Hx] Hxt.
        -- exists tbl, f. repeat split; try assumption.
           rewrite Hfr; [exact Hd|]. intros [Hin _]. contradiction.
        -- assert (Hne : x <> d) by (intros ->; contradiction).
           rewrite <- (Hsame x Hne). apply Hbound; [exact Hx|].
           now rewrite Hsame.
      * intros x Hx. assert (Hne : x <> d).
        { intros ->. apply Hx. split; [now left | exact Htag]. }
        rewrite Hfr; [now apply Hsame|].
        rewrite Hsame by assumption. intros [Hin Hxt]. apply Hx.
        split; [now right | exact Hxt].
    + destruct (IH m Hnd') as (m' & Hb & Htr & Hbound & Hfr).
      { intros x Hx. apply Hok. now right. }
      exists m'. split; [exact Hb|]. split; [exact Htr|]. split.
      * intros x [<-|Hx] Hxt; [congruence|]. now apply Hbound.
      * intros x Hx. apply Hfr. intros [Hin Hxt]. apply Hx.
        split; [now right | exact Hxt].
Qed.

(** ** C6 *)

(** C6. The contract of [register_logtype], in a reachable state.  The
    types of the registry are pairwise different.  If the type is
    already registered the call returns [M_R_SUCCESS] and the state it
    was given: the registry still has exactly one entry for the type
    and no callback has run.  Otherwise, when [malloc] succeeds and
    [alloc] is there and succeeds on the pending descriptors carrying
    the type's tag, the call returns [M_R_SUCCESS], the entry has been
    appended (the one entry for the type), and [alloc] has been invoked,
    in list order, on exactly the pending descriptors whose persisted
    tag is the type, each of which now has the operations table; no
    other descriptor has changed. *)
Theorem register_logtype_contract s t o lock :
  reachable s [] ->
  NoDup (map lt_type (known_logtypes_list (mgr s))) /\
  (is_registered (known_logtypes_list (mgr s)) t = true ->
     register_logtype s t o lock = Ret (M_R_SUCCESS, s) /\
     length (entries_for (known_logtypes_list (mgr s)) t) = 1) /\
  (is_registered (known_logtypes_list (mgr s)) t = false ->
     fst (malloc (mem s)) = true ->
     (forall d, In d (pending_logs_list (mgr s)) ->
                tag_is (dsc s d) t = true -> alloc_succeeds o (dsc s d)) ->
     exists s',
       register_logtype s t o lock = Ret (M_R_SUCCESS, s') /\
       known_logtypes_list (mgr s')
       = known_logtypes_list (mgr s) ++ [{| lt_type := t; lt_ops := o |}] /\
       length (entries_for (known_logtypes_list (mgr s')) t) = 1 /\
       free_logs_list (mgr s') = free_logs_list (mgr s) /\
       active_logs_list (mgr s') = active_logs_list (mgr s) /\
       pending_logs_list (mgr s') = pending_logs_list (mgr s) /\
       trace (mem s')
       = trace (mem s)
         ++ map EvAlloc (filter (fun d => tag_is (dsc s d) t)
                                (pending_logs_list (mgr s))) /\
       (forall d, In d (pending_logs_list (mgr s)) ->
                  tag_is (dsc s d) t = true ->
                  ops (dsc s' d) = o /\
                  exists tbl f, o = Some tbl /\ alloc tbl = Some f /\
                    dsc s' d = apply_cb (set_ops o (dsc s d)) f) /\
       (forall d, ~ (In d (pending_logs_list (mgr s)) /\
                     tag_is (dsc s d) t = true) ->
                  dsc s' d = dsc s d)).
Proof.
  intros Hreach.
  pose proof (reachable_registry_NoDup Hreach) as Hnd.
  pose proof (linked_once_NoDup_pending (reachable_linked_once Hreach)) as Hndp.
  split; [exact Hnd|]. split.
  - intros Hr. split; [|now apply entries_for_unique].
    unfold register_logtype. now rewrite Hr.
  - intros Hr Hmalloc Hok. unfold register_logtype. rewrite Hr.
    pose proof (malloc_log_dscs (mem s)) as Hcells.
    pose proof (malloc_trace (mem s)) as Htrace.
    destruct (malloc (mem s)) as [ok m]. cbn [fst snd] in *. subst ok.
    cbn [pending_logs_list set_known].
    destruct (@bind_pending_spec t o _ m Hndp)
      as (m' & Hb & Htr & Hbound & Hfr).
    { intros d Hd. rewrite Hcells. now apply Hok. }
    rewrite Hb. cbn [bind]. eexists. split; [reflexivity|].
    cbn [mgr mem set_known known_logtypes_list free_logs_list
         active_logs_list pending_logs_list]. unfold dsc. cbn [mem].
    rewrite Hcells in *. rewrite Htrace in Htr.
    refine (conj eq_refl (conj _ (conj eq_refl (conj eq_refl (conj eq_refl
              (conj Htr (conj _ Hfr))))))).
    + apply entries_for_unique.
      * now apply register_appends_NoDup.
      * apply is_registered_In. rewrite map_app. apply in_or_app. right. now left.
    + intros d Hd Hdt. split; [|now apply Hbound].
      destruct (Hbound d Hd Hdt) as (tbl & f & -> & _ & ->). reflexivity.
Qed.

(** ** C9 *)

Lemma logmgr_init_cases fuel p rv p' :
  logmgr_initialized p = false ->
  logmgr_init fuel p = Ret (rv, p') ->
  (rv = M_R_SUCCESS /\ exists s, p' = publish true s /\ reachable s []) \/
  (rv = M_R_NOMEMORY /\ logmgr p' = logmgr p).
Proof.
  intros Hinit Hrun. destruct rv.
  - left. split; [reflexivity|]. eapply logmgr_init_reachable; eauto.
  - exfalso. revert Hrun. unfold logmgr_init. rewrite Hinit.
    destruct (malloc _) as [[|] m]; [|discriminate].
    destruct (create_log_pool _); [|discriminate..]. cbn [bind].
    destruct (register_static_logtypes _) as [[rv2 s2]| |]; [|discriminate..].
    cbn [bind]. destruct (do_recovery fuel s2) as [[rv3 s3]| |]; discriminate.
  - right. split; [reflexivity|]. revert Hrun. unfold logmgr_init. rewrite Hinit.
    destruct (malloc _) as [[|] m]; [|now intros [= <-]].
    destruct (create_log_pool _); [|discriminate..]. cbn [bind].
    destruct (register_static_logtypes _) as [[rv2 s2]| |]; [|discriminate..].
    cbn [bind]. destruct (do_recovery fuel s2) as [[rv3 s3]| |]; discriminate.
Qed.

(** C9. Creation on first use.  [m_logmgr_register_logtype] called
    before any manager exists creates it first and then works on it:
    when it returns, the manager is published, initialized and in a
    reachable state.  [m_logmgr_do_recovery] and [m_logmgr_alloc_log]
    have no such step: called while [logmgr] is NULL they dereference
    it. *)
Theorem first_use_of_the_manager fuel t p :
  logmgr p = None ->
  logmgr_initialized p = false ->
  (forall o rv p',
     m_logmgr_register_logtype fuel t o p = Ret (rv, p') ->
     exists s, p' = publish true s /\ reachable s []) /\
  m_logmgr_do_recovery fuel p = Fault /\
  m_logmgr_alloc_log t p = Fault.
Proof.
  intros Hnull Hinit. split; [|split].
  - intros o rv p'. unfold m_logmgr_register_logtype. rewrite Hnull.
    destruct (logmgr_init fuel p) as [[rv1 p1]| |] eqn:Hrun; [|discriminate..].
    cbn [bind].
    apply logmgr_init_cases in Hrun; [|exact Hinit].
    destruct Hrun as [[_ (s1 & -> & Hr)]|[_ Hsame]].
    + cbn [logmgr publish heap logmgr_initialized].
      replace {| mgr := mgr s1; mem := mem s1 |} with s1 by now destruct s1.
      destruct (register_logtype s1 t o true) as [[rv2 s2]| |] eqn:Hreg;
        [|discriminate..].
      cbn [bind]. intros H. apply Ret_inj in H. injection H as _ <-.
      exists s2. split; [reflexivity|]. eapply reach_register; eassumption.
    + rewrite Hsame, Hnull. discriminate.
  - unfold m_logmgr_do_recovery. now rewrite Hnull.
  - unfold m_logmgr_alloc_log. now rewrite Hnull.
Qed.

(** * Further properties of the code *)

(** ** Pool bring-up *)

Lemma tag_is_fresh c t : tag_is (fresh_dsc c) t = tag_is c t.
Proof. reflexivity. Qed.

Lemma create_log_dsc_eq i s :
  create_log_dsc i s =
  let m' := set_dsc i (fresh_dsc (log_dscs (mem s) i)) (mem s) in
  if free_slot (mem s) i
  then {| mgr := set_free (list_add_tail i (free_logs_list (mgr s))) (mgr s);
          mem := m' |}
  else {| mgr := set_pending (list_add_tail i (pending_logs_list (mgr s))) (mgr s);
          mem := m' |}.
Proof. reflexivity. Qed.

Lemma upd_fresh_tag m i x :
  free_slot (set_dsc i (fresh_dsc (log_dscs m i)) m) x = free_slot m x.
Proof.
  unfold free_slot. cbn [set_dsc log_dscs]. unfold upd.
  destruct (Nat.eqb_spec x i) as [->|_]; [apply tag_is_fresh | reflexivity].
Qed.

Lemma create_log_dsc_effect i s :
  let s' := create_log_dsc i s in
  free_logs_list (mgr s')
  = free_logs_list (mgr s) ++ (if free_slot (mem s) i then [i] else []) /\
  pending_logs_list (mgr s')
  = pending_logs_list (mgr s) ++ (if free_slot (mem s) i then [] else [i]) /\
  active_logs_list (mgr s') = active_logs_list (mgr s) /\
  known_logtypes_list (mgr s') = known_logtypes_list (mgr s) /\
  trace (mem s') = trace (mem s) /\
  allocs (mem s') = allocs (mem s) /\
  (forall x, dsc s' x = if Nat.eqb x i then fresh_dsc (dsc s i) else dsc s x).
Proof.
  cbn zeta. rewrite create_log_dsc_eq. cbn zeta. unfold list_add_tail, dsc.
  destruct (free_slot (mem s) i); cbn; rewrite ?app_nil_r; repeat split.
Qed.

(** What the construction loop does to a state, for any list of
    indices. *)
Lemma create_log_dscs_spec l : forall s,
  let s' := create_log_dscs l s in
  free_logs_list (mgr s')
  = free_logs_list (mgr s) ++ filter (free_slot (mem s)) l /\
  pending_logs_list (mgr s')
  = pending_logs_list (mgr s)
    ++ filter (fun i => negb (free_slot (mem s) i)) l /\
  active_logs_list (mgr s') = active_logs_list (mgr s) /\
  trace (mem s') = trace (mem s) /\
  allocs (mem s') = allocs (mem s) /\
  (forall i, In i l -> dsc s' i = fresh_dsc (dsc s i)) /\
  (forall i, ~ In i l -> dsc s' i = dsc s i).
Proof.
  induction l as [|i l IH]; intros s; cbn zeta.
  - cbn. rewrite !app_nil_r. repeat split; intros; tauto.
  - cbn [create_log_dscs filter].
    destruct (IH (create_log_dsc i s)) as (Hf & Hp & Ha & Ht & Hal & Hin & Hout).
    destruct (create_log_dsc_effect i s) as (Ef & Ep & Ea & _ & Et & Eal & Ecell).
    cbn zeta in *.
    assert (Hext : forall x, free_slot (mem (create_log_dsc i s)) x
                             = free_slot (mem s) x).
    { intros x. unfold free_slot. fold (dsc (create_log_dsc i s) x).
      rewrite Ecell. fold (dsc s x).
      destruct (Nat.eqb_spec x i) as [->|_]; reflexivity. }
    rewrite (filter_ext _ _ Hext) in Hf.
    rewrite (filter_ext (fun x => negb (free_slot (mem (create_log_dsc i s)) x))
               (fun x => negb (free_slot (mem s) x))) in Hp
      by (intros x; now rewrite Hext).
    rewrite Hf, Hp, Ha, Ht, Hal, Ef, Ep, Ea, Et, Eal.
    split; [|split; [|split; [|split; [|split; [|split]]]]]; try reflexivity.
    + rewrite <- app_assoc. now destruct (free_slot (mem s) i).
    + rewrite <- app_assoc. now destruct (free_slot (mem s) i).
    + intros x Hx. destruct (in_dec Nat.eq_dec x l) as [Hl|Hl].
      * rewrite (Hin x Hl), Ecell.
        destruct (Nat.eqb_spec x i) as [->|_]; reflexivity.
      * destruct Hx as [<-|Hx]; [|contradiction].
        rewrite (Hout i Hl), Ecell. now rewrite Nat.eqb_refl.
    + intros x Hx. rewrite Hout by (intros H; apply Hx; now right).
      rewrite Ecell. destruct (Nat.eqb_spec x i) as [->|_];
        [exfalso; apply Hx; now left | reflexivity].
Qed.

Lemma create_log_pool_spec s0 s :
  create_log_pool s0 = Ret s ->
  free_logs_list (mgr s)
  = free_logs_list (mgr s0) ++ filter (free_slot (mem s0)) (seq 0 LOG_NUM) /\
  pending_logs_list (mgr s)
  = pending_logs_list (mgr s0)
    ++ filter (fun i => negb (free_slot (mem s0) i)) (seq 0 LOG_NUM) /\
  active_logs_list (mgr s) = active_logs_list (mgr s0) /\
  trace (mem s) = trace (mem s0) /\
  (forall i, i < LOG_NUM -> dsc s i = fresh_dsc (dsc s0 i)) /\
  (forall i, LOG_NUM <= i -> dsc s i = dsc s0 i).
Proof.
  unfold create_log_pool.
  assert (Hseq : forall i, In i (seq 0 LOG_NUM) <-> i < LOG_NUM)
    by (intros i; rewrite in_seq; lia).
  revert Hseq. generalize (seq 0 LOG_NUM) as l. intros l Hseq.
  pose proof (malloc_log_dscs (mem s0)) as Hcells.
  pose proof (malloc_trace (mem s0)) as Htrace.
  destruct (pool_segment _); [|discriminate].
  destruct LOG_POOL_LAYOUT_FITS; [|discriminate].
  destruct (malloc (mem s0)) as [[|] m]; [|discriminate].
  cbn [snd] in *. intros H. apply Ret_inj in H. subst s.
  destruct (create_log_dscs_spec l (set_mem m s0))
    as (Hf & Hp & Ha & Ht & _ & Hin & Hout).
  cbn zeta in *. cbn [set_mem mgr mem] in *.
  assert (Hfs : forall x, free_slot m x = free_slot (mem s0) x)
    by (intros x; unfold free_slot; now rewrite Hcells).
  rewrite (filter_ext _ _ Hfs) in Hf.
  rewrite (filter_ext (fun x => negb (free_slot m x))
             (fun x => negb (free_slot (mem s0) x))) in Hp
    by (intros x; now rewrite Hfs).
  rewrite Hf, Hp, Ha, Ht, Htrace.
  do 4 (split; [reflexivity|]). unfold dsc in *. cbn [mem] in *. split.
  - intros i Hi. rewrite <- Hcells. apply Hin. now apply Hseq.
  - intros i Hi. rewrite <- Hcells. apply Hout. rewrite Hseq. lia.
Qed.

(** X1. Bring-up classifies by the persisted tag: [create_log_pool], when it
    returns, has appended to the free list the descriptors of the
    FREE-tagged slots and to the pending list those of all other slots,
    both in index order; the active list, the trace and the slots are
    untouched, and every descriptor of the pool has no log object, no
    operations table and no recovery order. *)
Theorem create_log_pool_classifies s0 s :
  create_log_pool s0 = Ret s ->
  free_logs_list (mgr s)
  = free_logs_list (mgr s0) ++ filter (free_slot (mem s0)) (seq 0 LOG_NUM) /\
  pending_logs_list (mgr s)
  = pending_logs_list (mgr s0)
    ++ filter (fun i => negb (free_slot (mem s0) i)) (seq 0 LOG_NUM) /\
  active_logs_list (mgr s) = active_logs_list (mgr s0) /\
  trace (mem s) = trace (mem s0) /\
  (forall i, i < LOG_NUM -> dsc s i = fresh_dsc (dsc s0 i)) /\
  (forall i, LOG_NUM <= i -> dsc s i = dsc s0 i).
Proof. apply create_log_pool_spec. Qed.

Lemma create_log_pool_known s0 s :
  create_log_pool s0 = Ret s ->
  known_logtypes_list (mgr s) = known_logtypes_list (mgr s0).
Proof.
  unfold create_log_pool. generalize (seq 0 LOG_NUM) as l. intros l.
  destruct (pool_segment _); [|discriminate].
  destruct LOG_POOL_LAYOUT_FITS; [|discriminate].
  destruct (malloc (mem s0)) as [[|] m]; [|discriminate].
  intros H. apply Ret_inj in H. subst s. now rewrite create_log_dscs_known.
Qed.

(** ** The types known at compilation time *)

Lemma bind_pending_no_match l t o : forall m,
  (forall d, In d l -> tag_is (log_dscs m d) t = false) ->
  bind_pending l t o m = Ret m.
Proof.
  induction l as [|d l IH]; intros m H; cbn [bind_pending]; [reflexivity|].
  rewrite (H d (or_introl eq_refl)). apply IH. intros x Hx. apply H. now right.
Qed.

Lemma bind_pending_null_fault l t : forall m,
  (exists d, In d l /\ tag_is (log_dscs m d) t = true) ->
  bind_pending l t (Some NULL_LOG_OPS) m = Fault.
Proof.
  induction l as [|d l IH]; intros m (x & Hx & Ht); [contradiction|].
  cbn [bind_pending]. destruct (tag_is (log_dscs m d) t) eqn:Hd.
  - unfold assert_alloc. cbn [set_dsc log_dscs]. rewrite upd_same. reflexivity.
  - apply IH. exists x. destruct Hx as [->|Hx]; [congruence | auto].
Qed.

Lemma exists_tagged_dec m t l :
  (exists d, In d l /\ tag_is (log_dscs m d) t = true) \/
  (forall d, In d l -> tag_is (log_dscs m d) t = false).
Proof.
  induction l as [|d l [Hex|Hall]].
  - right. intros d [].
  - left. destruct Hex as (x & Hx & Ht). exists x. split; [now right | exact Ht].
  - destruct (tag_is (log_dscs m d) t) eqn:Hd.
    + left. exists d. split; [now left | exact Hd].
    + right. intros x [<-|Hx]; auto.
Qed.

(** The registration of a table without callbacks: it returns success
    exactly when the type is registered already, or [malloc] succeeds
    and no pending descriptor carries the tag. *)
Lemma register_null_ops s t lock :
  register_logtype s t (Some NULL_LOG_OPS) lock =
  if is_registered (known_logtypes_list (mgr s)) t then Ret (M_R_SUCCESS, s)
  else if fst (malloc (mem s)) then
    if existsb (fun d => tag_is (log_dscs (mem s) d) t) (pending_logs_list (mgr s))
    then Fault
    else Ret (M_R_SUCCESS,
              {| mgr := set_known (known_logtypes_list (mgr s)
                                   ++ [{| lt_type := t; lt_ops := Some NULL_LOG_OPS |}])
                          (mgr s);
                 mem := snd (malloc (mem s)) |})
  else Ret (M_R_NOMEMORY, set_mem (snd (malloc (mem s))) s).
Proof.
  unfold register_logtype. destruct (is_registered _ _); [reflexivity|].
  pose proof (malloc_log_dscs (mem s)) as Hcells.
  destruct (malloc (mem s)) as [[|] m]; cbn [fst snd] in *; [|reflexivity].
  cbn [pending_logs_list set_known]. rewrite <- Hcells.
  destruct (existsb _ _) eqn:He.
  - rewrite bind_pending_null_fault; [reflexivity|].
    apply existsb_exists in He. exact He.
  - rewrite bind_pending_no_match; [reflexivity|].
    intros d Hd. destruct (tag_is (log_dscs m d) t) eqn:Ht; [|reflexivity].
    assert (existsb (fun d => tag_is (log_dscs m d) t) (pending_logs_list (mgr s)) = true)
      by (apply existsb_exists; eauto).
    congruence.
Qed.

Lemma is_registered_app r e t :
  is_registered (r ++ [e]) t = is_registered r t || Z.eqb (lt_type e) t.
Proof. unfold is_registered. rewrite existsb_app. cbn. now rewrite orb_false_r. Qed.

Lemma malloc_allocs_nil m : allocs m = [] -> malloc m = (true, m).
Proof. unfold malloc. now intros ->. Qed.

(** What a returning static registration has done, when none of the
    types was registered before. *)
Lemma register_static_from_fresh l : forall s s',
  NoDup l ->
  (forall i, In i l -> is_registered (known_logtypes_list (mgr s)) (Z.of_nat i) = false) ->
  register_static_from l s = Ret s' ->
  known_logtypes_list (mgr s') = known_logtypes_list (mgr s) ++ map static_entry l /\
  free_logs_list (mgr s') = free_logs_list (mgr s) /\
  active_logs_list (mgr s') = active_logs_list (mgr s) /\
  pending_logs_list (mgr s') = pending_logs_list (mgr s) /\
  log_dscs (mem s') = log_dscs (mem s) /\
  trace (mem s') = trace (mem s) /\
  (forall i d, In i l -> In d (pending_logs_list (mgr s)) ->
               tag_is (dsc s d) (Z.of_nat i) = false).
Proof.
  induction l as [|j l IH]; intros s s' Hnd Hfresh; cbn [register_static_from].
  - intros H. apply Ret_inj in H. subst s'. cbn. rewrite app_nil_r.
    repeat split. intros i d [].
  - unfold static_log_ops. rewrite register_null_ops.
    rewrite (Hfresh j (or_introl eq_refl)).
    pose proof (malloc_log_dscs (mem s)) as Hcells.
    pose proof (malloc_trace (mem s)) as Htrace.
    destruct (malloc (mem s)) as [[|] m]; cbn [fst snd] in *; [|discriminate].
    destruct (existsb _ _) eqn:He; [discriminate|].
    cbn [bind is_success]. intros Hrest.
    inversion Hnd as [|? ? Hnotin Hnd']; subst.
    apply IH in Hrest; [|exact Hnd'|].
    + cbn [mgr mem set_known known_logtypes_list free_logs_list
           active_logs_list pending_logs_list] in Hrest.
      destruct Hrest as (Hk & Hf & Ha & Hp & Hc & Ht & Htags).
      rewrite Hk, Hf, Ha, Hp, Hc, Ht, Hcells, Htrace. cbn [map].
      rewrite <- app_assoc. do 6 (split; [reflexivity|]).
      intros i d [<-|Hi] Hd.
      * unfold dsc. destruct (tag_is (log_dscs (mem s) d) (Z.of_nat j)) eqn:Hdt;
          [|reflexivity].
        assert (existsb (fun d => tag_is (log_dscs (mem s) d) (Z.of_nat j))
                  (pending_logs_list (mgr s)) = true)
          by (apply existsb_exists; eauto).
        congruence.
      * specialize (Htags i d Hi Hd). unfold dsc in *. cbn [mem] in Htags.
        now rewrite Hcells in Htags.
    + intros i Hi. cbn [mgr set_known known_logtypes_list].
      rewrite is_registered_app, (Hfresh i (or_intror Hi)). cbn.
      apply Z.eqb_neq. intros Heq. apply Nat2Z.inj in Heq. subst. contradiction.
Qed.

(** A pending descriptor with the tag of a type known at compilation
    time stops the static registration: [alloc] is a NULL pointer in
    every table of [static_log_ops]. *)
Lemma register_static_from_fault l : forall s,
  NoDup l ->
  (forall i, In i l -> is_registered (known_logtypes_list (mgr s)) (Z.of_nat i) = false) ->
  (exists i d, In i l /\ In d (pending_logs_list (mgr s)) /\
               tag_is (dsc s d) (Z.of_nat i) = true) ->
  register_static_from l s = Fault.
Proof.
  induction l as [|j l IH]; intros s Hnd Hfresh (i & d & Hi & Hd & Ht);
    [contradiction|].
  cbn [register_static_from]. unfold static_log_ops. rewrite register_null_ops.
  rewrite (Hfresh j (or_introl eq_refl)).
  pose proof (malloc_log_dscs (mem s)) as Hcells.
  destruct (malloc (mem s)) as [[|] m]; cbn [fst snd] in *; [|reflexivity].
  destruct (existsb _ _) eqn:He; [reflexivity|].
  cbn [bind is_success]. inversion Hnd as [|? ? Hnotin Hnd']; subst.
  apply IH; [exact Hnd' | |].
  - intros k Hk. cbn [mgr set_known known_logtypes_list].
    rewrite is_registered_app, (Hfresh k (or_intror Hk)). cbn.
    apply Z.eqb_neq. intros Heq. apply Nat2Z.inj in Heq. subst. contradiction.
  - destruct Hi as [<-|Hi].
    + exfalso. assert (existsb (fun d => tag_is (log_dscs (mem s) d) (Z.of_nat j))
                         (pending_logs_list (mgr s)) = true)
        by (apply existsb_exists; eauto).
      congruence.
    + exists i, d. split; [exact Hi|]. split; [exact Hd|].
      unfold dsc in *. cbn [mem]. now rewrite Hcells.
Qed.

(** ** Recovery with nothing to recover *)

Lemma collect_logs_nothing l : forall s recovery_list,
  (forall d, In d l -> recoverable (mem s) d = false) ->
  collect_logs l (s, recovery_list) = (s, recovery_list).
Proof.
  induction l as [|d l IH]; intros s rl H; cbn [collect_logs]; [reflexivity|].
  destruct (collect_log_cases d s rl) as [[_ ->]|[Hrec _]].
  - apply IH. intros x Hx. apply H. now right.
  - rewrite (H d (or_introl eq_refl)) in Hrec. discriminate.
Qed.

Lemma set_free_id s :
  {| mgr := set_free (list_splice [] (free_logs_list (mgr s))) (mgr s);
     mem := mem s |} = s.
Proof. destruct s as [[k f a p] m]. reflexivity. Qed.

Lemma do_recovery_noop s :
  (forall d, In d (pending_logs_list (mgr s)) -> recoverable (mem s) d = false) ->
  (forall n, do_recovery (S n) s = Ret (M_R_SUCCESS, s)) /\
  (forall fuel rv s', do_recovery fuel s = Ret (rv, s') -> s' = s).
Proof.
  intros H. assert (Hrun : forall n, do_recovery (S n) s = Ret (M_R_SUCCESS, s)).
  { intros n. unfold do_recovery. rewrite collect_logs_nothing by exact H.
    cbn [recovery_loop next_to_recover INIT_LIST_HEAD bind].
    now rewrite set_free_id. }
  split; [exact Hrun|]. intros [|n] rv s'.
  - unfold do_recovery. rewrite collect_logs_nothing by exact H. discriminate.
  - rewrite Hrun. intros E. apply Ret_inj in E. congruence.
Qed.

(** X2. When no pending descriptor has an operations table with
    [recovery_init], [do_recovery] invokes nothing and changes nothing;
    one unit of fuel is enough for it to return. *)
Theorem do_recovery_nothing_to_recover s :
  (forall d, In d (pending_logs_list (mgr s)) -> recoverable (mem s) d = false) ->
  (forall n, do_recovery (S n) s = Ret (M_R_SUCCESS, s)) /\
  (forall fuel rv s', do_recovery fuel s = Ret (rv, s') -> s' = s).
Proof. apply do_recovery_noop. Qed.

(** After a run that returned nothing is left to recover. *)
Lemma do_recovery_settled fuel s rv s' :
  do_recovery fuel s = Ret (rv, s') ->
  forall n, do_recovery (S n) s' = Ret (M_R_SUCCESS, s').
Proof.
  intros Hrun n. apply do_recovery_effect in Hrun
    as (_ & _ & _ & _ & Hpend & _ & _ & _ & Hcb).
  cbn zeta in *.
  assert (Hnone : forall d, In d (pending_logs_list (mgr s')) ->
                            recoverable (mem s') d = false).
  { intros d Hd. apply Hpend in Hd as [Hd Hnot].
    rewrite (recoverable_ext _ _ (fun x => callbacks_only_ops x Hcb)).
    destruct (recoverable (mem s) d) eqn:Hr; [|reflexivity].
    exfalso. apply Hnot. apply filter_In. auto. }
  unfold do_recovery. rewrite collect_logs_nothing by exact Hnone.
  cbn [recovery_loop next_to_recover INIT_LIST_HEAD bind].
  now rewrite set_free_id.
Qed.

(** X3. Recovery is idempotent: after a run that returned, a second run
    returns at once and leaves the state as the first run left it. *)
Theorem do_recovery_idempotent fuel s rv s' :
  do_recovery fuel s = Ret (rv, s') ->
  forall n, do_recovery (S n) s' = Ret (M_R_SUCCESS, s').
Proof. apply do_recovery_settled. Qed.

(** ** Bring-up of the manager *)

Lemma static_types_NoDup : NoDup static_types.
Proof. apply seq_NoDup. Qed.

(** The first steps of [logmgr_init], up to the static registration. *)
Lemma bring_up_registered m s1 s2 :
  create_log_pool {| mgr := empty_mgr; mem := m |} = Ret s1 ->
  register_static_from static_types s1 = Ret s2 ->
  known_logtypes_list (mgr s2) = map static_entry static_types /\
  free_logs_list (mgr s2) = filter (free_slot m) (seq 0 LOG_NUM) /\
  pending_logs_list (mgr s2)
  = filter (fun i => negb (free_slot m i)) (seq 0 LOG_NUM) /\
  active_logs_list (mgr s2) = [] /\
  trace (mem s2) = trace m /\
  (forall i, i < LOG_NUM -> dsc s2 i = fresh_dsc (log_dscs m i)) /\
  (forall i, LOG_NUM <= i -> dsc s2 i = log_dscs m i) /\
  (forall i d, In i static_types -> d < LOG_NUM -> free_slot m d = false ->
               tag_is (log_dscs m d) (Z.of_nat i) = false).
Proof.
  intros Hc Hs.
  pose proof (create_log_pool_known _ Hc) as Hk1.
  apply create_log_pool_spec in Hc as (Hf1 & Hp1 & Ha1 & Ht1 & Hin1 & Hout1).
  cbn [mgr mem empty_mgr known_logtypes_list free_logs_list active_logs_list
       pending_logs_list INIT_LIST_HEAD] in *.
  rewrite app_nil_l in Hf1, Hp1.
  apply register_static_from_fresh in Hs
    as (Hk & Hf & Ha & Hp & Hcells & Htr & Htags);
    [|exact static_types_NoDup | intros i _; now rewrite Hk1].
  rewrite Hk, Hk1, Hf, Hf1, Hp, Hp1, Ha, Ha1, Htr, Ht1. unfold dsc in *.
  rewrite Hcells. cbn [mem] in *.
  do 5 (split; [reflexivity|]). split; [exact Hin1|]. split; [exact Hout1|].
  intros i d Hi Hd Hfree.
  specialize (Htags i d Hi). rewrite Hp1, Hin1 in Htags by exact Hd.
  apply Htags. rewrite filter_In, in_seq. split; [lia | now rewrite Hfree].
Qed.

(** The state a first, successful [logmgr_init] publishes. *)
Lemma logmgr_init_state fuel p p' :
  logmgr_initialized p = false ->
  logmgr_init fuel p = Ret (M_R_SUCCESS, p') ->
  exists s,
    p' = publish true s /\
    known_logtypes_list (mgr s) = map static_entry static_types /\
    free_logs_list (mgr s) = filter (free_slot (heap p)) (seq 0 LOG_NUM) /\
    pending_logs_list (mgr s)
    = filter (fun i => negb (free_slot (heap p) i)) (seq 0 LOG_NUM) /\
    active_logs_list (mgr s) = [] /\
    trace (mem s) = trace (heap p) /\
    (forall i, i < LOG_NUM -> dsc s i = fresh_dsc (log_dscs (heap p) i)) /\
    (forall i d, In i static_types -> d < LOG_NUM ->
                 free_slot (heap p) d = false ->
                 tag_is (log_dscs (heap p) d) (Z.of_nat i) = false).
Proof.
  intros Hinit. unfold logmgr_init. rewrite Hinit.
  pose proof (malloc_log_dscs (heap p)) as Hcells.
  pose proof (malloc_trace (heap p)) as Htrace.
  destruct (malloc (heap p)) as [[|] m]; [|discriminate]. cbn [snd] in *.
  destruct (create_log_pool _) as [s1| |] eqn:Hc; [|discriminate..].
  cbn [bind]. unfold register_static_logtypes.
  fold static_types.
  destruct (register_static_from _ _) as [s2| |] eqn:Hs; [|discriminate..].
  cbn [bind].
  destruct (do_recovery fuel s2) as [[rv3 s3]| |] eqn:Hd; [|discriminate..].
  cbn [bind]. intros H. apply Ret_inj in H. injection H as <-.
  destruct (bring_up_registered _ Hc Hs)
    as (Hk & Hf & Hp & Ha & Htr & Hin & _ & Htags).
  assert (Hsame : s3 = s2).
  { refine (proj2 (do_recovery_noop s2 _) _ _ _ Hd).
    intros d Hdp. rewrite Hp, filter_In, in_seq in Hdp. destruct Hdp as [Hdp _].
    unfold recoverable. fold (dsc s2 d).
    rewrite Hin by lia. reflexivity. }
  subst s3. exists s2. split; [reflexivity|].
  assert (Hfs : forall x, free_slot m x = free_slot (heap p) x)
    by (intros x; unfold free_slot; now rewrite Hcells).
  rewrite Hk, Hf, Hp, Ha, Htr, Htrace.
  rewrite (filter_ext _ _ Hfs).
  rewrite (filter_ext (fun x => negb (free_slot m x))
             (fun x => negb (free_slot (heap p) x)))
    by (intros x; now rewrite Hfs).
  do 5 (split; [reflexivity|]). split.
  - intros i Hi. rewrite <- Hcells. now apply Hin.
  - intros i d Hi Hd' Hfree. rewrite <- Hcells. apply Htags; auto.
    now rewrite Hfs.
Qed.


(** X4. What a first, successful [logmgr_init] leaves behind: the
    manager is published and marked initialized; the registry holds one
    entry, without callbacks, for each type known at compilation time;
    the FREE-tagged slots are on the free list and all others on the
    pending list, in index order; nothing is active; no callback has been
    invoked and no log has been recovered, for the only operations
    tables there are have no [recovery_init]. *)
Theorem logmgr_init_brings_up fuel p p' :
  logmgr_initialized p = false ->
  logmgr_init fuel p = Ret (M_R_SUCCESS, p') ->
  exists g,
    logmgr p' = Some g /\ logmgr_initialized p' = true /\
    known_logtypes_list g = map static_entry static_types /\
    free_logs_list g = filter (free_slot (heap p)) (seq 0 LOG_NUM) /\
    pending_logs_list g
    = filter (fun i => negb (free_slot (heap p) i)) (seq 0 LOG_NUM) /\
    active_logs_list g = [] /\
    trace (heap p') = trace (heap p) /\
    (forall i, i < LOG_NUM ->
               log_dscs (heap p') i = fresh_dsc (log_dscs (heap p) i)) /\
    (forall i d, In i static_types -> d < LOG_NUM ->
                 free_slot (heap p) d = false ->
                 tag_is (log_dscs (heap p) d) (Z.of_nat i) = false).
Proof.
  intros Hinit Hrun.
  destruct (@logmgr_init_state fuel p p' Hinit Hrun)
    as (s & -> & Hk & Hf & Hp & Ha & Htr & Hin & Htags).
  exists (mgr s). cbn [publish logmgr logmgr_initialized heap].
  do 7 (split; [reflexivity || assumption|]). split; [exact Hin | exact Htags].
Qed.

(** X5. Bring-up cannot get past a slot that persists the tag of a type
    known at compilation time: the static registration binds it to a
    table of [static_log_ops], whose [alloc] is a NULL pointer, and
    calls through it.  (When [malloc] fails on the way the assertion of
    [register_static_logtypes], or the unchecked [calloc], ends the
    process as well.) *)
Theorem logmgr_init_static_tag_fault fuel p d i :
  logmgr_initialized p = false ->
  fst (malloc (heap p)) = true ->
  d < LOG_NUM ->
  In i static_types ->
  free_slot (heap p) d = false ->
  tag_is (log_dscs (heap p) d) (Z.of_nat i) = true ->
  logmgr_init fuel p = Fault.
Proof.
  intros Hinit Hmalloc Hd Hi Hfree Htag. unfold logmgr_init. rewrite Hinit.
  pose proof (malloc_log_dscs (heap p)) as Hcells.
  destruct (malloc (heap p)) as [[|] m]; [|discriminate]. cbn [snd] in *.
  destruct (create_log_pool _) as [s1| |] eqn:Hc; cbn [bind]; try reflexivity.
  - unfold register_static_logtypes. fold static_types.
    rewrite register_static_from_fault; [reflexivity | exact static_types_NoDup | |].
    + intros k _. now rewrite (create_log_pool_known _ Hc).
    + apply create_log_pool_spec in Hc as (_ & Hp1 & _ & _ & Hin1 & _).
      exists i, d. split; [exact Hi|]. split.
      * rewrite Hp1. cbn [mgr mem empty_mgr pending_logs_list INIT_LIST_HEAD].
        rewrite app_nil_l, filter_In, in_seq. split; [lia|].
        unfold free_slot in *. now rewrite Hcells, Hfree.
      * rewrite Hin1 by exact Hd. unfold dsc. cbn [mem].
        rewrite tag_is_fresh. now rewrite Hcells.
  - exfalso. revert Hc. unfold create_log_pool.
    destruct (pool_segment _); [|discriminate].
    destruct LOG_POOL_LAYOUT_FITS; [|discriminate].
    destruct (malloc _) as [[|] m1]; discriminate.
Qed.

(** X6. Bring-up happens once: after a call of [logmgr_init] that
    returned success, any further call returns success and leaves the
    process as it is: no second manager, no second set of descriptors,
    no second registration. *)
Theorem logmgr_init_idempotent fuel p p' :
  logmgr_init fuel p = Ret (M_R_SUCCESS, p') ->
  logmgr_initialized p' = true /\
  forall fuel', logmgr_init fuel' p' = Ret (M_R_SUCCESS, p').
Proof.
  intros Hrun. assert (Hflag : logmgr_initialized p' = true).
  { destruct (logmgr_initialized p) eqn:Hinit.
    - unfold logmgr_init in Hrun. rewrite Hinit in Hrun.
      apply Ret_inj in Hrun. injection Hrun as <-. exact Hinit.
    - apply logmgr_init_cases in Hrun; [|exact Hinit].
      destruct Hrun as [[_ (s & -> & _)]|[Hrv _]]; [reflexivity | discriminate]. }
  split; [exact Hflag|]. intros fuel'. unfold logmgr_init. now rewrite Hflag.
Qed.

(** X7. The result of [logmgr_init] is not looked at by
    [m_logmgr_register_logtype]: when the manager structure cannot be
    allocated, [logmgr_init] returns [M_R_NOMEMORY] with nothing
    published, and the registration goes on with the NULL manager. *)
Theorem register_after_failed_init fuel t o p :
  logmgr p = None ->
  logmgr_initialized p = false ->
  fst (malloc (heap p)) = false ->
  logmgr_init fuel p
  = Ret (M_R_NOMEMORY,
         {| logmgr := None; logmgr_initialized := false;
            heap := snd (malloc (heap p)) |}) /\
  m_logmgr_register_logtype fuel t o p = Fault.
Proof.
  intros Hnull Hinit Hmalloc.
  assert (Hrun : logmgr_init fuel p
                 = Ret (M_R_NOMEMORY,
                        {| logmgr := None; logmgr_initialized := false;
                           heap := snd (malloc (heap p)) |})).
  { unfold logmgr_init. rewrite Hinit, Hnull.
    destruct (malloc (heap p)) as [[|] m]; [discriminate | reflexivity]. }
  split; [exact Hrun|].
  unfold m_logmgr_register_logtype. now rewrite Hnull, Hrun.
Qed.

Lemma is_registered_static i :
  In i static_types ->
  is_registered (map static_entry static_types) (Z.of_nat i) = true.
Proof.
  intros Hi. apply is_registered_In. rewrite map_map. cbn [static_entry lt_type].
  now apply in_map.
Qed.

Lemma lookup_static i :
  In i static_types ->
  exists e, lookup_logtype (map static_entry static_types) (Z.of_nat i) = Some e /\
            lt_ops e = Some NULL_LOG_OPS.
Proof.
  intros Hi. unfold lookup_logtype.
  destruct (find _ _) as [e|] eqn:Hf.
  - exists e. split; [reflexivity|]. apply find_some in Hf as [He _].
    apply in_map_iff in He as (j & <- & _). reflexivity.
  - exfalso. pose proof (is_registered_static i Hi) as Hr.
    unfold is_registered in Hr. apply existsb_exists in Hr as (e & He & Heq).
    pose proof (find_none _ _ Hf e He) as Hn. cbn in Hn. congruence.
Qed.

(** X8. The types known at compilation time stay bound to the tables
    without callbacks.  After bring-up a client registration of such a
    type is taken for a repetition: it returns success and installs
    nothing.  And a request to allocate a log of such a type from a pool
    that has a free slot calls [alloc] through the NULL pointer of that
    table (the compile-time type being other than FREE). *)
Theorem static_type_after_bring_up fuel p p' i :
  logmgr_initialized p = false ->
  logmgr_init fuel p = Ret (M_R_SUCCESS, p') ->
  In i static_types ->
  (forall fuel' o,
     m_logmgr_register_logtype fuel' (Z.of_nat i) o p' = Ret (M_R_SUCCESS, p')) /\
  (u64 (Z.of_nat i) <> u64 LF_TYPE_FREE ->
   (exists d, d < LOG_NUM /\ free_slot (heap p) d = true) ->
   m_logmgr_alloc_log (Z.of_nat i) p' = Fault).
Proof.
  intros Hinit Hrun Hi.
  destruct (@logmgr_init_state fuel p p' Hinit Hrun)
    as (s & -> & Hk & Hf & _ & _ & _ & Hin & _).
  assert (Hs : {| mgr := mgr s; mem := mem s |} = s) by now destruct s.
  split.
  - intros fuel' o. unfold m_logmgr_register_logtype.
    cbn [publish logmgr heap logmgr_initialized bind]. rewrite Hs.
    unfold register_logtype. rewrite Hk, is_registered_static by exact Hi.
    reflexivity.
  - intros Hne (d & Hd & Hfree). unfold m_logmgr_alloc_log.
    cbn [publish logmgr heap logmgr_initialized]. rewrite Hs.
    assert (Htags : forall x, In x (free_logs_list (mgr s)) ->
              tag_is (dsc s x) LF_TYPE_FREE = true /\
              tag_is (dsc s x) (Z.of_nat i) = false).
    { intros x Hx. rewrite Hf, filter_In, in_seq in Hx. destruct Hx as [Hx Hxf].
      rewrite Hin by lia. rewrite !tag_is_fresh. split; [exact Hxf|].
      unfold free_slot, tag_is in *. apply Z.eqb_eq in Hxf. rewrite Hxf.
      apply Z.eqb_neq. congruence. }
    rewrite alloc_log_first_tagged.
    assert (H1 : first_tagged s (Z.of_nat i) = None).
    { unfold first_tagged. destruct (find _ _) as [x|] eqn:Hx; [|reflexivity].
      apply find_some in Hx as [Hx Hxt]. destruct (Htags x Hx). congruence. }
    rewrite H1.
    destruct (first_tagged s LF_TYPE_FREE) as [d0|] eqn:H0.
    + rewrite lookup_and_alloc_lookup, Hk.
      destruct (lookup_static i Hi) as (e & -> & He). rewrite He.
      unfold assert_alloc. cbn [set_dsc log_dscs]. rewrite upd_same. reflexivity.
    + exfalso. unfold first_tagged in H0.
      assert (Hdf : In d (free_logs_list (mgr s))).
      { rewrite Hf, filter_In, in_seq. split; [lia | exact Hfree]. }
      pose proof (find_none _ _ H0 d Hdf) as Hn. cbn in Hn.
      destruct (Htags d Hdf). congruence.
Qed.

(** ** More on the allocator *)

Lemma lookup_and_alloc_ret r t d m m' :
  lookup_and_alloc r t d m = Ret m' ->
  (lookup_logtype r t = None /\ m' = m) \/
  (exists e tbl f,
     lookup_logtype r t = Some e /\ lt_ops e = Some tbl /\ alloc tbl = Some f /\
     m' = snd (invoke EvAlloc f d (set_dsc d (set_ops (lt_ops e) (log_dscs m d)) m))).
Proof.
  rewrite lookup_and_alloc_lookup. destruct (lookup_logtype r t) as [e|].
  - intros H. right. apply assert_alloc_ret in H as (tbl & f & Ho & Hf & _ & ->).
    cbn [set_dsc log_dscs] in Ho. rewrite upd_same in Ho. cbn in Ho.
    exists e, tbl, f. auto.
  - intros H. apply Ret_inj in H. now left.
Qed.

Lemma lookup_and_alloc_effect r t d m m' :
  lookup_and_alloc r t d m = Ret m' ->
  (forall x, x <> d -> log_dscs m' x = log_dscs m x) /\
  allocs m' = allocs m /\
  (ops (log_dscs m' d) = None -> m' = m).
Proof.
  intros H. apply lookup_and_alloc_ret in H
    as [[_ ->]|(e & tbl & f & _ & He & _ & ->)].
  - auto.
  - split; [|split].
    + intros x Hx. rewrite invoke_other by exact Hx. cbn. now apply upd_other.
    + now rewrite invoke_allocs.
    + rewrite invoke_ops. cbn [set_dsc log_dscs]. rewrite upd_same.
      cbn [set_ops ops]. rewrite He. discriminate.
Qed.

Lemma activate_log_effect d t s rv log_dscp s' :
  activate_log d t s = Ret (rv, log_dscp, s') ->
  (forall x, x <> d -> dsc s' x = dsc s x) /\
  allocs (mem s') = allocs (mem s) /\
  known_logtypes_list (mgr s') = known_logtypes_list (mgr s) /\
  pending_logs_list (mgr s') = pending_logs_list (mgr s).
Proof.
  intros H. apply activate_log_spec in H
    as (tbl & f & _ & _ & _ & _ & _ & Hg & Hm).
  cbn zeta in Hm. unfold dsc. rewrite Hm, Hg. split; [|split; [|split]].
  - intros x Hx. cbn [PCM_BARRIER PCM_STORE_flags emit set_dsc log_dscs].
    rewrite upd_other by exact Hx. now apply invoke_other.
  - cbn. apply invoke_allocs.
  - reflexivity.
  - reflexivity.
Qed.

(** The three ways [alloc_log] returns. *)
Lemma alloc_log_ret t s rv log_dscp s' :
  alloc_log t s = Ret (rv, log_dscp, s') ->
  (rv = M_R_FAILURE /\ log_dscp = None /\ s' = s /\
   first_tagged s t = None) \/
  (exists d s0,
     rv = M_R_SUCCESS /\ log_dscp = Some d /\
     In d (free_logs_list (mgr s)) /\
     activate_log d t s0 = Ret (rv, log_dscp, s') /\
     mgr s0 = mgr s /\
     (forall x, x <> d -> dsc s0 x = dsc s x) /\
     allocs (mem s0) = allocs (mem s)).
Proof.
  rewrite alloc_log_first_tagged.
  destruct (first_tagged s t) as [d|] eqn:H1.
  - intros H. right. exists d, s.
    destruct (activate_log_ret _ _ _ H) as (-> & -> & _).
    apply first_tagged_some in H1 as [Hin _]. auto 10.
  - destruct (first_tagged s LF_TYPE_FREE) as [d|] eqn:H0.
    + destruct (lookup_and_alloc _ _ _ _) as [m'| |] eqn:Hl; [|discriminate..].
      cbn [bind]. apply lookup_and_alloc_effect in Hl as (Hother & Hal & Hnone).
      destruct (ops (log_dscs m' d)) eqn:Ho.
      * intros H. right. exists d, (set_mem m' s).
        destruct (activate_log_ret _ _ _ H) as (-> & -> & _).
        apply first_tagged_some in H0 as [Hin _]. auto 10.
      * intros H. apply Ret_inj in H. injection H as <- <- <-. left.
        rewrite (Hnone eq_refl), set_mem_id. auto.
    + intros H. apply Ret_inj in H. injection H as <- <- <-. left. auto.
Qed.

(** X9. A request the allocator cannot serve costs nothing: the only
    results of [alloc_log] are [M_R_SUCCESS], with a descriptor, and
    [M_R_FAILURE], without one; on failure the state returned is the
    state given.  With an empty free list the request fails. *)
Theorem alloc_log_failure_is_clean t s :
  (forall rv log_dscp s',
     alloc_log t s = Ret (rv, log_dscp, s') ->
     (rv = M_R_SUCCESS /\ exists d, log_dscp = Some d) \/
     (rv = M_R_FAILURE /\ log_dscp = None /\ s' = s)) /\
  (free_logs_list (mgr s) = [] ->
   alloc_log t s = Ret (M_R_FAILURE, None, s)).
Proof.
  split.
  - intros rv dp s' H. apply alloc_log_ret in H
      as [(-> & -> & -> & _)|(d & s0 & -> & -> & _)]; eauto.
  - intros Hempty. rewrite alloc_log_first_tagged. unfold first_tagged.
    now rewrite Hempty.
Qed.

(** X10. An allocation changes the selected descriptor only: the cell of
    every other descriptor, the registry and the pending list are as
    before, and no memory is allocated. *)
Theorem alloc_log_frame t s rv log_dscp s' :
  alloc_log t s = Ret (rv, log_dscp, s') ->
  known_logtypes_list (mgr s') = known_logtypes_list (mgr s) /\
  pending_logs_list (mgr s') = pending_logs_list (mgr s) /\
  allocs (mem s') = allocs (mem s) /\
  forall x, log_dscp <> Some x -> dsc s' x = dsc s x.
Proof.
  intros H. apply alloc_log_ret in H
    as [(-> & -> & -> & _)|(d & s0 & -> & -> & _ & Hact & Hmgr & Hother & Hal)].
  - auto.
  - apply activate_log_effect in Hact as (Hother' & Hal' & Hk & Hp).
    rewrite Hk, Hp, Hal', Hal, Hmgr. do 3 (split; [reflexivity|]).
    intros x Hx. assert (Hne : x <> d) by congruence.
    rewrite Hother' by exact Hne. now apply Hother.
Qed.

(** ** C7 *)

(** C7, amended. After a run of [do_recovery] that returns, every
    descriptor the run has recovered is on the free list, but it is not
    reusable regardless of type: a following allocation selects it only
    if its persisted tag, as it stands after recovery, is the requested
    type or FREE; when the tag names another, non-FREE type the
    descriptor is neither selected nor rebound (its cell is untouched
    and it stays on the free list). *)
Theorem recovered_slots_reuse_by_tag fuel s rv s1 d :
  do_recovery fuel s = Ret (rv, s1) ->
  In d (pending_logs_list (mgr s)) ->
  recoverable (mem s) d = true ->
  In d (free_logs_list (mgr s1)) /\
  forall t rv' log_dscp s2,
    alloc_log t s1 = Ret (rv', log_dscp, s2) ->
    (log_dscp = Some d ->
     tag_is (dsc s1 d) t = true \/ tag_is (dsc s1 d) LF_TYPE_FREE = true) /\
    (tag_is (dsc s1 d) t = false ->
     tag_is (dsc s1 d) LF_TYPE_FREE = false ->
     log_dscp <> Some d /\ dsc s2 d = dsc s1 d /\
     In d (free_logs_list (mgr s2))).
Proof.
  intros Hrec Hpend Hrecov.
  assert (Hfree : In d (free_logs_list (mgr s1))).
  { apply do_recovery_effect in Hrec as (_ & _ & _ & Hf & _). cbn zeta in Hf.
    rewrite Hf. apply in_or_app. left. apply -> in_rev.
    apply filter_In. split; assumption. }
  split; [exact Hfree|]. intros t rv' log_dscp s2 Ha.
  destruct (alloc_log_same_type_or_free t s1) as [Hsel _].
  split.
  - intros ->. apply (Hsel _ _ _ Ha).
  - intros Ht Hf.
    assert (Hne : log_dscp <> Some d).
    { intros ->. destruct (Hsel _ _ _ Ha) as [_ [H|H]]; congruence. }
    split; [exact Hne|].
    apply alloc_log_ret in Ha
      as [(_ & _ & -> & _)|(d' & s0 & _ & -> & _ & Hact & Hmgr & Hother & _)].
    + split; [reflexivity | exact Hfree].
    + assert (Hdd : d <> d') by congruence.
      pose proof (activate_log_effect _ _ _ Hact) as (Hother' & _).
      apply activate_log_ret in Hact as (_ & _ & Hg).
      split.
      * rewrite Hother' by exact Hdd. now apply Hother.
      * rewrite Hg, Hmgr. cbn [set_active set_free free_logs_list].
        apply In_list_del_init. split; assumption.
Qed.

(** X11. A descriptor is handed out once.  In a reachable state the
    descriptor an allocation returns is one of the pool, it was neither
    active nor pending, it is active afterwards, and no later allocation
    returns it again. *)
Theorem alloc_log_hands_out_once t s rv d s' :
  reachable s [] ->
  alloc_log t s = Ret (rv, Some d, s') ->
  d < LOG_NUM /\
  ~ In d (active_logs_list (mgr s)) /\
  ~ In d (pending_logs_list (mgr s)) /\
  In d (active_logs_list (mgr s')) /\
  forall t' rv' d' s'',
    alloc_log t' s' = Ret (rv', Some d', s'') -> d' <> d.
Proof.
  intros Hreach Hrun.
  pose proof (reachable_linked_once Hreach) as Hl.
  assert (Hl' : linked_once (mgr s') [])
    by (eapply reachable_linked_once, reach_alloc; eassumption).
  apply alloc_log_ret in Hrun
    as [(_ & [=] & _)|(d0 & s0 & _ & [= <-] & Hin & Hact & Hmgr & _)].
  apply activate_log_ret in Hact as (_ & _ & Hg).
  assert (Hact' : In d (active_logs_list (mgr s'))).
  { rewrite Hg. cbn. unfold list_add_tail. apply in_or_app. right. now left. }
  pose proof (Hl d) as Hd. pose proof (Hl' d) as Hd'.
  apply occ_In in Hin. apply occ_In in Hact'. rewrite occ_nil in *.
  destruct (Nat.ltb_spec d LOG_NUM) as [Hlt|Hge]; [|lia].
  split; [exact Hlt|]. rewrite !occ_In. split; [lia|]. split; [lia|].
  split; [exact Hact'|].
  intros t' rv' d' s'' Hrun' ->.
  apply alloc_log_ret in Hrun'
    as [(_ & [=] & _)|(d1 & s1 & _ & [= <-] & Hin' & _)].
  apply occ_In in Hin'. lia.
Qed.

(** ** More on the registry *)

Lemma register_logtype_ret s t o lock rv s' :
  register_logtype s t o lock = Ret (rv, s') ->
  (rv = M_R_SUCCESS /\ is_registered (known_logtypes_list (mgr s)) t = true /\
   s' = s) \/
  (rv = M_R_SUCCESS /\ is_registered (known_logtypes_list (mgr s)) t = false /\
   fst (malloc (mem s)) = true /\
   mgr s' = set_known (known_logtypes_list (mgr s)
                       ++ [{| lt_type := t; lt_ops := o |}]) (mgr s) /\
   bind_pending (pending_logs_list (mgr s)) t o (snd (malloc (mem s)))
   = Ret (mem s')) \/
  (rv = M_R_NOMEMORY /\ is_registered (known_logtypes_list (mgr s)) t = false /\
   fst (malloc (mem s)) = false /\ s' = set_mem (snd (malloc (mem s))) s).
Proof.
  unfold register_logtype. destruct (is_registered _ _).
  - intros H. apply Ret_inj in H. injection H as <- <-. now left.
  - destruct (malloc (mem s)) as [[|] m]; cbn [fst snd].
    + cbn [pending_logs_list set_known].
      destruct (bind_pending _ _ _ _) as [m'| |]; [|discriminate..].
      cbn [bind]. intros H. apply Ret_inj in H. injection H as <- <-.
      right. left. auto.
    + intros H. apply Ret_inj in H. injection H as <- <-. right. right. auto.
Qed.

(** X12. The results of [register_logtype]: when it returns, the result
    is [M_R_SUCCESS] and the type is in the registry, or it is
    [M_R_NOMEMORY], which happens exactly for a type not yet registered
    when [malloc] fails, and then the manager, the descriptors and the
    trace are untouched. *)
Theorem register_logtype_results s t o lock :
  (forall rv s',
     register_logtype s t o lock = Ret (rv, s') ->
     (rv = M_R_SUCCESS /\ is_registered (known_logtypes_list (mgr s')) t = true)
     \/
     (rv = M_R_NOMEMORY /\ mgr s' = mgr s /\
      log_dscs (mem s') = log_dscs (mem s) /\ trace (mem s') = trace (mem s))) /\
  (is_registered (known_logtypes_list (mgr s)) t = false ->
   fst (malloc (mem s)) = false ->
   exists s', register_logtype s t o lock = Ret (M_R_NOMEMORY, s')).
Proof.
  split.
  - intros rv s' H. apply register_logtype_ret in H
      as [(-> & Hr & ->)|[(-> & _ & _ & Hg & _)|(-> & _ & _ & ->)]].
    + now left.
    + left. split; [reflexivity|]. rewrite Hg. cbn [set_known known_logtypes_list].
      rewrite is_registered_app. cbn. rewrite Z.eqb_refl. apply orb_true_r.
    + right. cbn [set_mem mgr mem].
      now rewrite malloc_log_dscs, malloc_trace.
  - intros Hr Hm. unfold register_logtype. rewrite Hr.
    destruct (malloc (mem s)) as [[|] m]; [discriminate | eauto].
Qed.

(** X13. The first registration of a type wins: after a registration that
    returned success, a registration of the same type, with whatever
    table, returns success and changes nothing. *)
Theorem register_logtype_first_wins s t o lock s1 :
  register_logtype s t o lock = Ret (M_R_SUCCESS, s1) ->
  forall o' lock', register_logtype s1 t o' lock' = Ret (M_R_SUCCESS, s1).
Proof.
  intros H o' lock'.
  assert (Hr : is_registered (known_logtypes_list (mgr s1)) t = true).
  { apply register_logtype_ret in H
      as [(_ & Hr & ->)|[(_ & _ & _ & Hg & _)|([=] & _)]]; [exact Hr|].
    rewrite Hg. cbn [set_known known_logtypes_list].
    rewrite is_registered_app. cbn. rewrite Z.eqb_refl. apply orb_true_r. }
  unfold register_logtype. now rewrite Hr.
Qed.

Lemma lookup_and_alloc_unregistered r t d m :
  is_registered r t = false -> lookup_and_alloc r t d m = Ret m.
Proof.
  unfold is_registered. induction r as [|e r IH]; cbn; [reflexivity|].
  destruct (Z.eqb (lt_type e) t); cbn; [discriminate | exact IH].
Qed.

Lemma lookup_and_alloc_app r e t d m :
  lookup_and_alloc (r ++ [e]) t d m =
  if is_registered r t then lookup_and_alloc r t d m
  else if Z.eqb (lt_type e) t
       then assert_alloc d (set_dsc d (set_ops (lt_ops e) (log_dscs m d)) m)
       else Ret m.
Proof.
  unfold is_registered. induction r as [|e' r IH]; cbn; [reflexivity|].
  destruct (Z.eqb (lt_type e') t); cbn; [reflexivity | exact IH].
Qed.

(** X14. Registration and lookup: after the registration of a type that
    was not registered, the walk of the allocator over the registry
    finds, for that type, the table just registered (it binds it and
    calls its [alloc]); for every other type it does what it did
    before. *)
Theorem register_then_lookup s t o lock s1 :
  is_registered (known_logtypes_list (mgr s)) t = false ->
  register_logtype s t o lock = Ret (M_R_SUCCESS, s1) ->
  (forall d m,
     lookup_and_alloc (known_logtypes_list (mgr s1)) t d m
     = assert_alloc d (set_dsc d (set_ops o (log_dscs m d)) m)) /\
  (forall t' d m, t' <> t ->
     lookup_and_alloc (known_logtypes_list (mgr s1)) t' d m
     = lookup_and_alloc (known_logtypes_list (mgr s)) t' d m).
Proof.
  intros Hr H. apply register_logtype_ret in H
    as [(_ & Hr' & _)|[(_ & _ & _ & Hg & _)|([=] & _)]]; [congruence|].
  rewrite Hg. cbn [set_known known_logtypes_list]. split.
  - intros d m. rewrite lookup_and_alloc_app, Hr. cbn [lt_type lt_ops].
    now rewrite Z.eqb_refl.
  - intros t' d m Hne. rewrite lookup_and_alloc_app. cbn [lt_type].
    destruct (is_registered _ t') eqn:Hr'; [reflexivity|].
    rewrite lookup_and_alloc_unregistered by exact Hr'.
    destruct (Z.eqb_spec t t'); [congruence | reflexivity].
Qed.

Lemma assert_alloc_effect d m m' :
  assert_alloc d m = Ret m' ->
  (forall x, ops (log_dscs m' x) = ops (log_dscs m x)) /\
  (forall x, x <> d -> log_dscs m' x = log_dscs m x).
Proof.
  intros H. apply assert_alloc_ret in H as (tbl & f & _ & _ & _ & ->). split.
  - intros x. apply invoke_ops.
  - intros x Hx. now apply invoke_other.
Qed.

(** The operations table of the pending descriptors after a returning
    walk of [register_logtype]. *)
Lemma bind_pending_ret_ops t o l : forall m m',
  NoDup l ->
  bind_pending l t o m = Ret m' ->
  (forall d, In d l -> tag_is (log_dscs m d) t = true ->
             ops (log_dscs m' d) = o) /\
  (forall d, ~ In d l -> log_dscs m' d = log_dscs m d).
Proof.
  induction l as [|d l IH]; intros m m' Hnd; cbn [bind_pending].
  - intros H. apply Ret_inj in H. subst m'. split; [intros d []|reflexivity].
  - inversion Hnd as [|? ? Hnotin Hnd']; subst.
    destruct (tag_is (log_dscs m d) t) eqn:Hd.
    + destruct (assert_alloc _ _) as [m1| |] eqn:Ha; [|discriminate..].
      cbn [bind]. intros H. apply IH in H as [Hin Hout]; [|exact Hnd'].
      apply assert_alloc_effect in Ha as [Hops Hother].
      assert (Hcell : forall x, x <> d -> log_dscs m1 x = log_dscs m x).
      { intros x Hx. rewrite Hother by exact Hx. cbn. now apply upd_other. }
      split.
      * intros x [<-|Hx] Hxt.
        -- rewrite (Hout d Hnotin), Hops. cbn [set_dsc log_dscs].
           now rewrite upd_same.
        -- apply Hin; [exact Hx|]. rewrite Hcell; [exact Hxt|].
           intros ->. contradiction.
      * intros x Hx. rewrite Hout by (intros Hl; apply Hx; now right).
        apply Hcell. intros ->. apply Hx. now left.
    + intros H. apply IH in H as [Hin Hout]; [|exact Hnd']. split.
      * intros x [<-|Hx] Hxt; [congruence | now apply Hin].
      * intros x Hx. apply Hout. intros Hl. apply Hx. now right.
Qed.

(** X15. A late registration unblocks the pending logs of the type: when
    a type with [recovery_init] is registered in a reachable state and
    recovery is then run and returns, every pending descriptor whose
    persisted tag was the type has left the pending list and is on the
    free list. *)
Theorem late_registration_unblocks s t tbl f lock s1 fuel rv s2 d :
  reachable s [] ->
  is_registered (known_logtypes_list (mgr s)) t = false ->
  recovery_init tbl = Some f ->
  register_logtype s t (Some tbl) lock = Ret (M_R_SUCCESS, s1) ->
  do_recovery fuel s1 = Ret (rv, s2) ->
  In d (pending_logs_list (mgr s)) ->
  tag_is (dsc s d) t = true ->
  recoverable (mem s1) d = true /\
  In d (free_logs_list (mgr s2)) /\
  ~ In d (pending_logs_list (mgr s2)).
Proof.
  intros Hreach Hr Hf Hreg Hrec Hd Ht.
  pose proof (linked_once_NoDup_pending (reachable_linked_once Hreach)) as Hnd.
  apply register_logtype_ret in Hreg
    as [(_ & Hr' & _)|[(_ & _ & _ & Hg & Hb)|([=] & _)]]; [congruence|].
  apply bind_pending_ret_ops in Hb as [Hops _]; [|exact Hnd].
  specialize (Hops d Hd). rewrite malloc_log_dscs in Hops. specialize (Hops Ht).
  assert (Hrecov : recoverable (mem s1) d = true).
  { unfold recoverable. rewrite Hops, Hf. reflexivity. }
  assert (Hpend : In d (pending_logs_list (mgr s1))) by (now rewrite Hg).
  apply do_recovery_effect in Hrec as (_ & _ & _ & Hfree & Hp & _).
  cbn zeta in *.
  assert (Hmoved : In d (filter (recoverable (mem s1)) (pending_logs_list (mgr s1))))
    by (apply filter_In; auto).
  split; [exact Hrecov|]. split.
  - rewrite Hfree. apply in_or_app. left. now apply in_rev in Hmoved.
  - rewrite Hp. tauto.
Qed.

(** ** More on recovery *)

(** X16. Recovery leaves the logs in use alone: in a reachable state a
    run of [do_recovery] that returns has changed neither the registry
    nor the active list nor the cell of any active or free descriptor,
    and the descriptors that were free are still free, after the
    recovered ones. *)
Theorem do_recovery_frame fuel s rv s' :
  reachable s [] ->
  do_recovery fuel s = Ret (rv, s') ->
  known_logtypes_list (mgr s') = known_logtypes_list (mgr s) /\
  active_logs_list (mgr s') = active_logs_list (mgr s) /\
  (exists l, free_logs_list (mgr s') = l ++ free_logs_list (mgr s)) /\
  forall d,
    In d (active_logs_list (mgr s)) \/ In d (free_logs_list (mgr s)) ->
    dsc s' d = dsc s d.
Proof.
  intros Hreach Hrun. pose proof (reachable_linked_once Hreach) as Hl.
  apply do_recovery_effect in Hrun
    as (_ & Hk & Ha & Hfree & _ & _ & _ & Hfr & _).
  cbn zeta in *. split; [exact Hk|]. split; [exact Ha|]. split; [eauto|].
  intros d Hd. unfold dsc. apply Hfr. rewrite filter_In. intros [Hp _].
  specialize (Hl d). rewrite occ_nil in Hl. rewrite !occ_In in *.
  destruct (Nat.ltb d LOG_NUM); lia.
Qed.

(** ** The tag store *)

Lemma testbit_u64 x n :
  (0 <= n)%Z -> Z.testbit (u64 x) n = Z.ltb n 64 && Z.testbit x n.
Proof.
  intros Hn. unfold u64. destruct (Z.ltb_spec n 64).
  - now rewrite Z.mod_pow2_bits_low by lia.
  - now rewrite Z.mod_pow2_bits_high by lia.
Qed.

(** X17. The tag store of line 395 rewrites the tag and nothing else: for
    a type with no bit outside the tag mask, the word stored has the
    bits of the old flags outside the mask and the bits of the type
    inside it; it is a 64-bit word; storing the same type again changes
    nothing, and of two stores the later one decides. *)
Theorem retag_rewrites_the_tag_only flags t :
  Z.land (u64 t) (u64 (Z.lnot LF_TYPE_MASK)) = 0%Z ->
  Z.land (retag flags t) (u64 (Z.lnot LF_TYPE_MASK))
  = Z.land flags (u64 (Z.lnot LF_TYPE_MASK)) /\
  Z.land (retag flags t) LF_TYPE_MASK = Z.land (u64 t) LF_TYPE_MASK /\
  (0 <= retag flags t < 2 ^ 64)%Z /\
  retag (retag flags t) t = retag flags t /\
  forall t', retag (retag flags t) t' = retag flags t'.
Proof.
  intros Hfit.
  assert (Hbits : forall n, (0 <= n)%Z ->
            Z.testbit (u64 t) n && Z.testbit (u64 (Z.lnot LF_TYPE_MASK)) n = false).
  { intros n Hn. rewrite <- Z.land_spec, Hfit. apply Z.bits_0. }
  assert (Hkeep : Z.land (retag flags t) (u64 (Z.lnot LF_TYPE_MASK))
                  = Z.land flags (u64 (Z.lnot LF_TYPE_MASK))).
  { unfold retag. apply Z.bits_inj'. intros n Hn.
    rewrite !Z.land_spec, Z.lor_spec, Z.land_spec. specialize (Hbits n Hn).
    destruct (Z.testbit flags n), (Z.testbit (u64 (Z.lnot LF_TYPE_MASK)) n),
      (Z.testbit (u64 t) n); cbn in *; congruence. }
  split; [exact Hkeep|]. split; [apply retag_tag|]. split; [|split].
  - assert (Hmod : u64 (retag flags t) = retag flags t).
    { apply Z.bits_inj'. intros n Hn. rewrite testbit_u64 by exact Hn.
      unfold retag. rewrite Z.lor_spec, Z.land_spec, !testbit_u64 by exact Hn.
      destruct (Z.ltb n 64); cbn; [reflexivity|]. now rewrite andb_false_r. }
    rewrite <- Hmod. unfold u64. apply Z.mod_pos_bound. lia.
  - unfold retag at 1. now rewrite Hkeep.
  - intros t'. unfold retag at 1. now rewrite Hkeep.
Qed.

(** ** An allocation that succeeds *)

(** An allocation from an untyped slot, when the table is found and its
    [alloc] and [init] succeed. *)
Lemma alloc_log_untyped_run t s d e tbl f_alloc f_init :
  first_tagged s t = None ->
  first_tagged s LF_TYPE_FREE = Some d ->
  lookup_logtype (known_logtypes_list (mgr s)) t = Some e ->
  lt_ops e = Some tbl ->
  alloc tbl = Some f_alloc ->
  init tbl = Some f_init ->
  fst (f_alloc (view_of (dsc s d))) = M_R_SUCCESS ->
  fst (f_init (view_of (apply_cb (dsc s d) f_alloc))) = M_R_SUCCESS ->
  exists s',
    alloc_log t s = Ret (M_R_SUCCESS, Some d, s') /\
    ops (dsc s' d) = Some tbl /\
    dsc s' d
    = set_flags (retag (generic_flags
                          (nvmd (apply_cb (apply_cb (dsc s d) f_alloc) f_init))) t)
        (set_ops (Some tbl) (apply_cb (apply_cb (dsc s d) f_alloc) f_init)) /\
    tag_of (dsc s' d) = Z.land (u64 t) LF_TYPE_MASK.
Proof.
  intros H1 H0 He Hops Ha Hi Hra Hri.
  rewrite alloc_log_first_tagged, H1, H0, lookup_and_alloc_lookup, He, Hops.
  set (m0 := set_dsc d (set_ops (Some tbl) (log_dscs (mem s) d)) (mem s)).
  assert (Hrun : assert_alloc d m0 = Ret (snd (invoke EvAlloc f_alloc d m0))).
  { apply assert_alloc_run with (tbl := tbl); [| exact Ha |];
      unfold m0; cbn [set_dsc log_dscs]; rewrite upd_same; [reflexivity|].
    exact Hra. }
  rewrite Hrun. cbn [bind]. set (m1 := snd (invoke EvAlloc f_alloc d m0)).
  assert (Hcell : log_dscs m1 d = set_ops (Some tbl) (apply_cb (dsc s d) f_alloc)).
  { unfold m1. rewrite invoke_same. unfold m0. cbn [set_dsc log_dscs].
    now rewrite upd_same. }
  rewrite Hcell. cbn [set_ops ops].
  destruct (@activate_log_run d t (set_mem m1 s) tbl f_init) as [s' Hact].
  - unfold dsc. cbn [set_mem mem]. now rewrite Hcell.
  - exact Hi.
  - unfold dsc. cbn [set_mem mem]. rewrite Hcell. exact Hri.
  - exists s'. split; [exact Hact|].
    pose proof (activate_log_trace _ _ _ Hact) as (v & _ & _ & Htag & Ho).
    apply activate_log_spec in Hact as (tbl' & f' & Ho' & Hf' & _ & _ & _ & _ & Hm).
    unfold dsc in Ho'. cbn [set_mem mem] in Ho'. rewrite Hcell in Ho'.
    cbn in Ho'. injection Ho' as <-. rewrite Hi in Hf'. injection Hf' as <-.
    cbn zeta in Hm. split; [|split; [|exact Htag]].
    + rewrite Ho. unfold dsc. cbn [set_mem mem]. now rewrite Hcell.
    + unfold dsc at 1. rewrite Hm, PCM_store_same. cbn [set_mem mem].
      rewrite !invoke_same, Hcell. reflexivity.
Qed.

(** X18. Allocation from an untyped slot: when no free descriptor
    carries the tag of the type, [d] is the first FREE-tagged free
    descriptor, the registry has a table for the type, and the [alloc]
    and [init] of that table succeed on the descriptor, the request
    returns [M_R_SUCCESS] with [d]; [d] is then bound to the table, it
    has gone through [alloc] and [init], and its persisted tag bits are
    those of the type. *)
Theorem alloc_log_untyped_succeeds t s d e tbl f_alloc f_init :
  first_tagged s t = None ->
  first_tagged s LF_TYPE_FREE = Some d ->
  lookup_logtype (known_logtypes_list (mgr s)) t = Some e ->
  lt_ops e = Some tbl ->
  alloc tbl = Some f_alloc ->
  init tbl = Some f_init ->
  fst (f_alloc (view_of (dsc s d))) = M_R_SUCCESS ->
  fst (f_init (view_of (apply_cb (dsc s d) f_alloc))) = M_R_SUCCESS ->
  exists s',
    alloc_log t s = Ret (M_R_SUCCESS, Some d, s') /\
    ops (dsc s' d) = Some tbl /\
    dsc s' d
    = set_flags (retag (generic_flags
                          (nvmd (apply_cb (apply_cb (dsc s d) f_alloc) f_init))) t)
        (set_ops (Some tbl) (apply_cb (apply_cb (dsc s d) f_alloc) f_init)) /\
    tag_of (dsc s' d) = Z.land (u64 t) LF_TYPE_MASK.
Proof. apply alloc_log_untyped_run. Qed.

(** ** Recovery: termination, callbacks, capacity *)

Lemma replay_progress_ops mu m m' l :
  (forall x, ops (log_dscs m' x) = ops (log_dscs m x)) ->
  replay_progress mu m l -> replay_progress mu m' l.
Proof.
  intros Hops Hp d Hd. destruct (Hp d Hd) as (o & f_do & f_next & Ho & H).
  exists o, f_do, f_next. split; [now rewrite Hops | exact H].
Qed.

Lemma recovery_loop_more_fuel l : forall fuel m m',
  recovery_loop fuel l m = Ret m' ->
  forall fuel', fuel <= fuel' -> recovery_loop fuel' l m = Ret m'.
Proof.
  induction fuel as [|fuel IH]; intros m m'; cbn [recovery_loop]; [discriminate|].
  intros H [|fuel'] Hle; [lia|]. cbn [recovery_loop].
  destruct (next_to_recover m l None) as [d|]; [|exact H].
  destruct (recover_log d m) as [m1| |]; [|discriminate..].
  cbn [bind] in *. apply IH; [exact H | lia].
Qed.

(** X19. Recovery returns when replay makes progress: if, for some
    measure, every pending descriptor that is to be recovered has a table
    with [recovery_do] and [recovery_prepare_next], and a replay step on
    a log that still announces an order makes the measure of that log
    smaller, then [do_recovery] returns [M_R_SUCCESS], with one and the
    same state for every sufficient fuel. *)
Theorem do_recovery_terminates mu s :
  replay_progress mu (mem s)
    (filter (recoverable (mem s)) (pending_logs_list (mgr s))) ->
  exists fuel s',
    forall fuel', fuel <= fuel' -> do_recovery fuel' s = Ret (M_R_SUCCESS, s').
Proof.
  intros Hprog.
  destruct (collect_logs (pending_logs_list (mgr s)) (s, INIT_LIST_HEAD))
    as [s1 rl] eqn:Hc.
  pose proof Hc as Hspec. apply collect_logs_spec in Hspec
    as (Hrl & _ & _ & _ & _ & _ & _ & Hops & _).
  cbn zeta in Hrl. unfold INIT_LIST_HEAD in Hrl. rewrite app_nil_r in Hrl.
  assert (Hprog1 : replay_progress mu (mem s1) rl).
  { apply replay_progress_ops with (m := mem s); [exact Hops|].
    intros d Hd. apply Hprog. subst rl. now apply in_rev. }
  destruct (recovery_loop_terminates (n := total_measure mu (mem s1) rl)
              Hprog1 (le_n _)) as [m' Hloop].
  eexists (S (total_measure mu (mem s1) rl)), _. intros fuel' Hle.
  unfold do_recovery. rewrite Hc.
  rewrite (recovery_loop_more_fuel _ _ Hloop Hle). cbn [bind]. reflexivity.
Qed.

(** A descriptor of the recovery set that announces an order and whose
    table lacks a replay callback keeps the ordering loop from ending. *)
Lemma ordering_loop_stuck l m m' d o :
  ordering_loop l m m' ->
  In d l ->
  ops (log_dscs m d) = Some o ->
  recovery_do o = None \/ recovery_prepare_next o = None ->
  order_of m d <> INV_LOG_ORDER ->
  False.
Proof.
  induction 1 as [m Hnone | m d0 o0 f_do f_next m' Hs Ho0 Hdo Hnext _ IH];
    intros Hin Ho Hmiss Hord.
  - apply Hord, Hnone, Hin.
  - destruct (Nat.eq_dec d d0) as [->|Hne].
    + rewrite Ho0 in Ho. injection Ho as ->.
      destruct Hmiss as [Hm|Hm]; congruence.
    + apply IH; [exact Hin| |exact Hmiss|].
      * now rewrite !invoke_ops.
      * unfold order_of in *. now rewrite !invoke_other by exact Hne.
Qed.

(** The cell of a collected descriptor after the collection phase. *)
Lemma collect_logs_cell l : forall s rl s1 rl1 d o f,
  collect_logs l (s, rl) = (s1, rl1) ->
  NoDup l -> In d l ->
  ops (dsc s d) = Some o -> recovery_init o = Some f ->
  log_dscs (mem s1) d = apply_cb (dsc s d) f.
Proof.
  induction l as [|x l IH]; intros s rl s1 rl1 d o f; cbn [collect_logs];
    [intros _ _ []|].
  intros Hc Hnd Hin Ho Hf. apply NoDup_cons_iff in Hnd as [Hx Hnd].
  destruct (Nat.eq_dec x d) as [->|Hne].
  - destruct (collect_log_cases d s rl) as [[Hrec _]|[_ (o' & f' & Ho' & Hf' & Hcl)]].
    + unfold recoverable in Hrec. unfold dsc in Ho. rewrite Ho, Hf in Hrec.
      discriminate.
    + rewrite Hcl in Hc. unfold dsc in Ho. rewrite Ho in Ho'. injection Ho' as <-.
      rewrite Hf in Hf'. injection Hf' as <-.
      apply collect_logs_spec in Hc as (_ & _ & _ & _ & _ & _ & _ & _ & Hfr).
      cbn zeta in Hfr. rewrite Hfr.
      * cbn [mem]. rewrite invoke_same. reflexivity.
      * intros Hm. apply filter_In in Hm as [Hm _]. contradiction.
  - destruct Hin as [Heq|Hin]; [contradiction|].
    destruct (collect_log_cases x s rl) as [[_ Hcl]|[_ (o' & f' & _ & _ & Hcl)]];
      rewrite Hcl in Hc.
    + eapply IH; eassumption.
    + erewrite IH; [|exact Hc|exact Hnd|exact Hin| |exact Hf].
      * unfold dsc. cbn [mem]. rewrite invoke_other by (intros ->; contradiction).
        reflexivity.
      * unfold dsc in *. cbn [mem]. rewrite invoke_other by (intros ->; contradiction).
        exact Ho.
Qed.

(** X20. A table with [recovery_init] needs the two replay callbacks: if
    a pending descriptor is bound to a table that has [recovery_init],
    lacks [recovery_do] or [recovery_prepare_next], and [recovery_init]
    leaves the descriptor with a recovery order, then [do_recovery] does
    not return (the ordering loop cannot end without selecting the
    descriptor, and the assertions of lines 315-317 stop it there). *)
Theorem do_recovery_needs_replay_callbacks s d o f :
  reachable s [] ->
  In d (pending_logs_list (mgr s)) ->
  ops (dsc s d) = Some o ->
  recovery_init o = Some f ->
  recovery_do o = None \/ recovery_prepare_next o = None ->
  logorder (apply_cb (dsc s d) f) <> INV_LOG_ORDER ->
  forall fuel rv s', do_recovery fuel s <> Ret (rv, s').
Proof.
  intros Hr Hin Ho Hf Hmiss Hord fuel rv s'. unfold do_recovery.
  destruct (collect_logs (pending_logs_list (mgr s)) (s, INIT_LIST_HEAD))
    as [s1 rl] eqn:Hc.
  destruct (recovery_loop fuel rl (mem s1)) as [m'| |] eqn:Hloop;
    [|discriminate..].
  exfalso. apply recovery_loop_sound in Hloop.
  pose proof (linked_once_NoDup_pending (reachable_linked_once Hr)) as Hnd.
  pose proof (@collect_logs_cell _ _ _ _ _ _ _ _ Hc Hnd Hin Ho Hf) as Hcell.
  apply collect_logs_spec in Hc as (Hrl & _ & _ & _ & _ & _ & _ & Hops & _).
  cbn zeta in Hrl. unfold INIT_LIST_HEAD in Hrl. rewrite app_nil_r in Hrl.
  apply (@ordering_loop_stuck rl (mem s1) m' d o Hloop).
  - subst rl. apply -> in_rev. apply filter_In. split; [exact Hin|].
    unfold recoverable. unfold dsc in Ho. now rewrite Ho, Hf.
  - rewrite Hops. exact Ho.
  - exact Hmiss.
  - unfold order_of. rewrite Hcell. exact Hord.
Qed.

Lemma ordering_loop_trace l m m' :
  ordering_loop l m m' ->
  exists ds,
    (forall d, In d ds -> In d l) /\
    trace m'
    = trace m ++ flat_map (fun d => [EvRecoveryDo d; EvRecoveryPrepareNext d]) ds.
Proof.
  induction 1 as [m Hnone | m d o f_do f_next m' Hs Ho Hdo Hnext _ IH].
  - exists []. split; [intros d []|]. cbn. now rewrite app_nil_r.
  - destruct IH as (ds & Hds & Htr). exists (d :: ds). split.
    + intros x [<-|Hx]; [eapply smallest_pending_In; eassumption | now apply Hds].
    + rewrite Htr, !invoke_trace. cbn [flat_map]. now rewrite <- !app_assoc.
Qed.

(** X21. The order in which recovery calls into a log type: in a
    reachable state a run of [do_recovery] that returns has called
    [recovery_init] once on each pending descriptor whose table has it,
    in the order of the pending list and before any replay; after that
    it has called [recovery_do] and [recovery_prepare_next] in pairs,
    each pair on one of those descriptors; and it has called nothing
    else. *)
Theorem do_recovery_callback_protocol fuel s rv s' :
  reachable s [] ->
  do_recovery fuel s = Ret (rv, s') ->
  NoDup (filter (recoverable (mem s)) (pending_logs_list (mgr s))) /\
  exists ds,
    (forall d, In d ds ->
               In d (filter (recoverable (mem s)) (pending_logs_list (mgr s)))) /\
    trace (mem s')
    = trace (mem s)
      ++ map EvRecoveryInit
           (filter (recoverable (mem s)) (pending_logs_list (mgr s)))
      ++ flat_map (fun d => [EvRecoveryDo d; EvRecoveryPrepareNext d]) ds.
Proof.
  intros Hr. unfold do_recovery.
  destruct (collect_logs (pending_logs_list (mgr s)) (s, INIT_LIST_HEAD))
    as [s1 rl] eqn:Hc.
  destruct (recovery_loop fuel rl (mem s1)) as [m'| |] eqn:Hloop;
    [|discriminate..].
  cbn [bind]. intros H. apply Ret_inj in H. injection H as _ <-. cbn [mem].
  split.
  - apply NoDup_filter.
    exact (linked_once_NoDup_pending (reachable_linked_once Hr)).
  - apply collect_logs_spec in Hc as (Hrl & _ & _ & _ & _ & Htr & _).
    cbn zeta in Hrl, Htr. unfold INIT_LIST_HEAD in Hrl. rewrite app_nil_r in Hrl.
    apply recovery_loop_sound, ordering_loop_trace in Hloop as (ds & Hds & Htr').
    exists ds. split.
    + intros d Hd. apply in_rev. rewrite <- Hrl. now apply Hds.
    + rewrite Htr', Htr. now rewrite <- app_assoc.
Qed.

(** X22. The pool has [LOG_NUM] descriptors and never more: in a
    reachable state the free, active and pending lists hold [LOG_NUM]
    descriptors together, so that at most [LOG_NUM] logs are in use; and
    when [LOG_NUM] logs are in use every request fails. *)
Theorem pool_capacity s :
  reachable s [] ->
  length (free_logs_list (mgr s)) + length (active_logs_list (mgr s))
  + length (pending_logs_list (mgr s)) = LOG_NUM /\
  (length (active_logs_list (mgr s)) = LOG_NUM ->
   forall t, alloc_log t s = Ret (M_R_FAILURE, None, s)).
Proof.
  intros Hr. apply reachable_linked_once in Hr.
  assert (Hperm : Permutation
            (free_logs_list (mgr s) ++ active_logs_list (mgr s)
             ++ pending_logs_list (mgr s)) (seq 0 LOG_NUM)).
  { apply occ_Permutation. intros x.
    rewrite occ_seq, <- (Hr x), !occ_app, occ_nil. lia. }
  apply Permutation_length in Hperm.
  rewrite !length_app, length_seq in Hperm.
  split; [lia|]. intros Hfull t.
  assert (Hfree : free_logs_list (mgr s) = []).
  { apply length_zero_iff_nil. lia. }
  rewrite alloc_log_first_tagged. unfold first_tagged. now rewrite Hfree.
Qed.

(** X23. A call of [m_logmgr_do_recovery] right after bring-up finds
    nothing to recover: bring-up has run recovery already, and the only
    tables bound so far have no [recovery_init]. *)
Theorem recovery_after_bring_up fuel p p' :
  logmgr_initialized p = false ->
  logmgr_init fuel p = Ret (M_R_SUCCESS, p') ->
  forall n, m_logmgr_do_recovery (S n) p' = Ret (M_R_SUCCESS, p').
Proof.
  intros Hinit. unfold logmgr_init. rewrite Hinit.
  destruct (malloc (heap p)) as [[|] m]; [|discriminate].
  destruct (create_log_pool _) as [s1| |]; [|discriminate..]. cbn [bind].
  destruct (register_static_logtypes s1) as [[rv2 s2]| |]; [|discriminate..].
  cbn [bind]. destruct (do_recovery fuel s2) as [[rv3 s3]| |] eqn:Hrec;
    [|discriminate..].
  cbn [bind]. intros H. apply Ret_inj in H. injection H as <-. intros n.
  unfold m_logmgr_do_recovery, publish. cbn [logmgr heap logmgr_initialized].
  replace {| mgr := mgr s3; mem := mem s3 |} with s3 by now destruct s3.
  rewrite (do_recovery_settled _ _ Hrec n). cbn [bind]. reflexivity.
Qed.

(** ** From a fresh process to a first log *)

Lemma malloc_succeeds m :
  (forall b, In b (allocs m) -> b = true) ->
  fst (malloc m) = true /\
  (forall b, In b (allocs (snd (malloc m))) -> b = true).
Proof.
  intros H. unfold malloc. destruct (allocs m) as [|b l] eqn:E; cbn.
  - split; [reflexivity|]. now rewrite E.
  - split; [apply H; now left|]. intros x Hx. apply H. now right.
Qed.

(** The static registration goes through when memory is there and no
    pending descriptor carries the tag of one of the types. *)
Lemma register_static_from_run l : forall s,
  NoDup l ->
  (forall i, In i l -> is_registered (known_logtypes_list (mgr s)) (Z.of_nat i) = false) ->
  (forall b, In b (allocs (mem s)) -> b = true) ->
  (forall i d, In i l -> In d (pending_logs_list (mgr s)) ->
               tag_is (dsc s d) (Z.of_nat i) = false) ->
  exists s',
    register_static_from l s = Ret s' /\
    (forall b, In b (allocs (mem s')) -> b = true).
Proof.
  induction l as [|j l IH]; intros s Hnd Hfresh Hmem Htags;
    cbn [register_static_from]; [eauto|].
  unfold static_log_ops. rewrite register_null_ops.
  rewrite (Hfresh j (or_introl eq_refl)).
  destruct (malloc_succeeds _ Hmem) as [Hok Hmem'].
  pose proof (malloc_log_dscs (mem s)) as Hcells. rewrite Hok.
  destruct (existsb _ _) eqn:He.
  - exfalso. apply existsb_exists in He as (d & Hd & Ht).
    specialize (Htags j d (or_introl eq_refl) Hd). unfold dsc in Htags. congruence.
  - cbn [bind is_success]. inversion Hnd as [|? ? Hnotin Hnd']; subst.
    apply IH; [exact Hnd' | | exact Hmem' |].
    + intros k Hk. cbn [mgr set_known known_logtypes_list].
      rewrite is_registered_app, (Hfresh k (or_intror Hk)). cbn.
      apply Z.eqb_neq. intros Heq. apply Nat2Z.inj in Heq. subst. contradiction.
    + intros i d Hi Hd. unfold dsc. cbn [mem]. rewrite Hcells.
      apply (Htags i d (or_intror Hi)). exact Hd.
Qed.

Lemma malloc_pool_segment m : pool_segment (snd (malloc m)) = pool_segment m.
Proof. unfold malloc. now destruct (allocs m). Qed.

(** [create_log_pool] returns when the pool segment is in place, the
    layout assertion holds and [calloc] succeeds. *)
Lemma create_log_pool_outcome s0 :
  pool_segment (mem s0) = true ->
  LOG_POOL_LAYOUT_FITS = true ->
  fst (malloc (mem s0)) = true ->
  exists s,
    create_log_pool s0 = Ret s /\
    allocs (mem s) = allocs (snd (malloc (mem s0))).
Proof.
  intros Hseg Hfit Hok. unfold create_log_pool. rewrite Hseg, Hfit.
  destruct (malloc (mem s0)) as [ok m]. cbn [fst snd] in *. subst ok.
  eexists. split; [reflexivity|].
  generalize (seq 0 LOG_NUM) as l. intros l.
  destruct (create_log_dscs_spec l (set_mem m s0)) as (_ & _ & _ & _ & Hal & _).
  exact Hal.
Qed.

(** [create_log_pool] ends the process when the pool segment cannot be
    mapped or the layout assertion fails. *)
Lemma create_log_pool_fault s0 :
  pool_segment (mem s0) = false \/ LOG_POOL_LAYOUT_FITS = false ->
  create_log_pool s0 = Fault.
Proof.
  unfold create_log_pool. intros [-> | ->]; [reflexivity|].
  now destruct (pool_segment _).
Qed.

(** Once the pool is created, the rest of bring-up goes through when
    memory is there and no slot in use carries the tag of a type known at
    compilation time. *)
Lemma logmgr_init_run fuel p s1 :
  logmgr_initialized p = false ->
  fst (malloc (heap p)) = true ->
  create_log_pool {| mgr := empty_mgr; mem := snd (malloc (heap p)) |} = Ret s1 ->
  (forall b, In b (allocs (mem s1)) -> b = true) ->
  (forall i d, In i static_types -> d < LOG_NUM ->
               free_slot (heap p) d = false ->
               tag_is (log_dscs (heap p) d) (Z.of_nat i) = false) ->
  exists s,
    logmgr_init (S fuel) p = Ret (M_R_SUCCESS, publish true s) /\
    (forall b, In b (allocs (mem s)) -> b = true).
Proof.
  intros Hinit Hok Hc Hmem1 Htags. unfold logmgr_init. rewrite Hinit.
  pose proof (malloc_log_dscs (heap p)) as Hcells.
  destruct (malloc (heap p)) as [ok m]. cbn [fst snd] in *. subst ok.
  rewrite Hc. cbn [bind].
  pose proof (create_log_pool_known _ Hc) as Hk1.
  pose proof (create_log_pool_spec _ Hc) as (_ & Hp1 & _ & _ & Hin1 & _).
  cbn [mgr mem empty_mgr pending_logs_list INIT_LIST_HEAD] in Hp1, Hin1.
  rewrite app_nil_l in Hp1.
  unfold register_static_logtypes. fold static_types.
  destruct (@register_static_from_run static_types s1) as (s2 & Hs & Hmem3).
  - exact static_types_NoDup.
  - intros i _. now rewrite Hk1.
  - exact Hmem1.
  - intros i d Hi Hd. rewrite Hp1, filter_In, in_seq in Hd. destruct Hd as [Hd Hf].
    rewrite Hin1 by lia. unfold dsc. cbn [mem]. rewrite tag_is_fresh, Hcells.
    apply Htags; [exact Hi | lia |].
    unfold free_slot in *. rewrite Hcells in Hf. now destruct (tag_is _ _).
  - rewrite Hs. cbn [bind].
    destruct (bring_up_registered _ Hc Hs) as (_ & _ & Hp & _ & _ & Hin & _).
    assert (Hnone : forall d, In d (pending_logs_list (mgr s2)) ->
                              recoverable (mem s2) d = false).
    { intros d Hdp. rewrite Hp, filter_In, in_seq in Hdp. destruct Hdp as [Hdp _].
      unfold recoverable. fold (dsc s2 d). rewrite Hin by lia. reflexivity. }
    rewrite (proj1 (do_recovery_noop s2 Hnone) fuel). cbn [bind]. eauto.
Qed.

(** Bring-up returns success when the pool segment is in place, the
    layout assertion holds, memory is there and no slot in use carries
    the tag of a type known at compilation time. *)
Lemma logmgr_init_total fuel p :
  logmgr_initialized p = false ->
  pool_segment (heap p) = true ->
  LOG_POOL_LAYOUT_FITS = true ->
  (forall b, In b (allocs (heap p)) -> b = true) ->
  (forall i d, In i static_types -> d < LOG_NUM ->
               free_slot (heap p) d = false ->
               tag_is (log_dscs (heap p) d) (Z.of_nat i) = false) ->
  exists s,
    logmgr_init (S fuel) p = Ret (M_R_SUCCESS, publish true s) /\
    (forall b, In b (allocs (mem s)) -> b = true).
Proof.
  intros Hinit Hseg Hfit Hmem Htags.
  destruct (malloc_succeeds _ Hmem) as [Hok Hmem1].
  destruct (malloc_succeeds _ Hmem1) as [Hok2 Hmem2].
  destruct (@create_log_pool_outcome
              {| mgr := empty_mgr; mem := snd (malloc (heap p)) |})
    as (s1 & Hc & Hal); cbn [mem].
  - now rewrite malloc_pool_segment.
  - exact Hfit.
  - exact Hok2.
  - cbn [mem] in Hal.
    apply (logmgr_init_run fuel p Hinit Hok Hc); [|exact Htags].
    now rewrite Hal.
Qed.

(** X24. Bring-up succeeds when it can.  For a process not yet
    initialized, with memory for every allocation and with no slot in
    use that carries the tag of a type known at compilation time:
    when the pool segment is in place and the layout assertion holds,
    [logmgr_init] returns [M_R_SUCCESS], with the manager published and
    marked initialized; when the pool segment cannot be mapped, or the
    layout assertion fails, it ends the process. *)
Theorem logmgr_init_succeeds fuel p :
  logmgr_initialized p = false ->
  (forall b, In b (allocs (heap p)) -> b = true) ->
  (forall i d, In i static_types -> d < LOG_NUM ->
               free_slot (heap p) d = false ->
               tag_is (log_dscs (heap p) d) (Z.of_nat i) = false) ->
  (pool_segment (heap p) = true -> LOG_POOL_LAYOUT_FITS = true ->
   exists p',
     logmgr_init (S fuel) p = Ret (M_R_SUCCESS, p') /\
     logmgr_initialized p' = true /\ logmgr p' <> None) /\
  (pool_segment (heap p) = false \/ LOG_POOL_LAYOUT_FITS = false ->
   logmgr_init fuel p = Fault).
Proof.
  intros Hinit Hmem Htags. split.
  - intros Hseg Hfit.
    destruct (logmgr_init_total fuel p Hinit Hseg Hfit Hmem Htags)
      as (s & Hrun & _).
    exists (publish true s).
    split; [exact Hrun|]. split; [reflexivity|discriminate].
  - intros Hbad. unfold logmgr_init. rewrite Hinit.
    destruct (malloc_succeeds _ Hmem) as [Hok _].
    pose proof (malloc_pool_segment (heap p)) as Hseg.
    destruct (malloc (heap p)) as [ok m]. cbn [fst snd] in *. subst ok.
    rewrite create_log_pool_fault; [reflexivity|].
    cbn [mem]. rewrite Hseg. exact Hbad.
Qed.

Lemma find_filter_ext {A : Type} (f g : A -> bool) (l : list A) :
  (forall x, In x l -> f x = g x) -> find f (filter g l) = find g l.
Proof.
  induction l as [|x l IH]; intros H; cbn [filter find]; [reflexivity|].
  pose proof (H x (or_introl eq_refl)) as Hx.
  destruct (g x) eqn:Hg.
  - cbn [find]. now rewrite Hx.
  - apply IH. intros y Hy. apply H. now right.
Qed.

Lemma find_all_false {A : Type} (f : A -> bool) (l : list A) :
  (forall x, In x l -> f x = false) -> find f l = None.
Proof.
  induction l as [|x l IH]; intros H; cbn [find]; [reflexivity|].
  rewrite (H x (or_introl eq_refl)). apply IH. intros y Hy. apply H. now right.
Qed.

Lemma find_exists {A : Type} (f : A -> bool) (l : list A) x :
  In x l -> f x = true -> exists y, find f l = Some y.
Proof.
  intros Hin Hx. destruct (find f l) as [y|] eqn:E; [eauto|].
  now rewrite (find_none _ _ E x Hin) in Hx.
Qed.

Lemma is_registered_static_other l t :
  (forall i, In i l -> Z.of_nat i <> t) ->
  is_registered (map static_entry l) t = false.
Proof.
  induction l as [|i l IH]; intros H; [reflexivity|].
  cbn [map]. unfold is_registered in *. cbn [existsb static_entry lt_type].
  rewrite IH by (intros k Hk; apply H; now right).
  rewrite orb_false_r. apply Z.eqb_neq. apply H. now left.
Qed.

Lemma lookup_logtype_last r e t :
  is_registered r t = false -> lt_type e = t ->
  lookup_logtype (r ++ [e]) t = Some e.
Proof.
  unfold lookup_logtype, is_registered. intros Hr He.
  induction r as [|x r IH]; cbn [app find existsb] in *.
  - now rewrite He, Z.eqb_refl.
  - apply orb_false_iff in Hr as [Hx Hr]. rewrite Hx. now apply IH.
Qed.

(** X25. From a fresh process to a first log of a new type.  Take a
    process that has not used the manager, with the pool segment in
    place, the layout assertion holding, memory for every allocation, a
    pool in which no slot in use carries the tag of a type known at
    compilation time and no slot carries the tag of [t], and at least
    one FREE slot; let [t] be no compile-time type and let the [alloc]
    and [init] of the table always succeed.  Then
    [m_logmgr_register_logtype] brings the manager up and returns
    success, and [m_logmgr_alloc_log] after it returns success with the
    descriptor of the lowest FREE slot, bound to the table and with the
    tag of [t] persisted. *)
Theorem first_log_of_a_new_type fuel t tbl f_alloc f_init p d0 :
  logmgr p = None ->
  logmgr_initialized p = false ->
  pool_segment (heap p) = true ->
  LOG_POOL_LAYOUT_FITS = true ->
  (forall b, In b (allocs (heap p)) -> b = true) ->
  (forall i d, In i static_types -> d < LOG_NUM ->
               free_slot (heap p) d = false ->
               tag_is (log_dscs (heap p) d) (Z.of_nat i) = false) ->
  (forall i, In i static_types -> Z.of_nat i <> t) ->
  (forall d, d < LOG_NUM -> tag_is (log_dscs (heap p) d) t = false) ->
  d0 < LOG_NUM -> free_slot (heap p) d0 = true ->
  alloc tbl = Some f_alloc -> init tbl = Some f_init ->
  (forall v, fst (f_alloc v) = M_R_SUCCESS) ->
  (forall v, fst (f_init v) = M_R_SUCCESS) ->
  exists p1 p2 d,
    m_logmgr_register_logtype (S fuel) t (Some tbl) p = Ret (M_R_SUCCESS, p1) /\
    m_logmgr_alloc_log t p1 = Ret (M_R_SUCCESS, Some d, p2) /\
    find (free_slot (heap p)) (seq 0 LOG_NUM) = Some d /\
    ops (log_dscs (heap p2) d) = Some tbl /\
    tag_of (log_dscs (heap p2) d) = Z.land (u64 t) LF_TYPE_MASK.
Proof.
  intros Hnone Hinit Hseg Hfit Hmem Hstatic Hnew Hnotag Hd0 Hfree0 Ha Hi Hra Hri.
  destruct (logmgr_init_total fuel p Hinit Hseg Hfit Hmem Hstatic)
    as (s2 & Hrun & Hmem2).
  destruct (@logmgr_init_state (S fuel) p (publish true s2) Hinit Hrun)
    as (s & Hpub & Hk & Hf & Hp & _ & _ & Hin & _).
  assert (Hs : s = s2).
  { unfold publish in Hpub. injection Hpub as Hg Hm.
    destruct s, s2. cbn [mgr mem] in Hg, Hm. congruence. }
  subst s. clear Hpub.
  (* the registration *)
  destruct (malloc_succeeds _ Hmem2) as [Hok _].
  pose proof (malloc_log_dscs (mem s2)) as Hcells.
  set (s3 := {| mgr := set_known (known_logtypes_list (mgr s2)
                                  ++ [{| lt_type := t; lt_ops := Some tbl |}])
                         (mgr s2);
                mem := snd (malloc (mem s2)) |}).
  assert (Hcell3 : forall i, i < LOG_NUM ->
                             dsc s3 i = fresh_dsc (log_dscs (heap p) i)).
  { intros i Hlt. unfold dsc, s3. cbn [mem]. rewrite Hcells. now apply Hin. }
  assert (Hreg : register_logtype s2 t (Some tbl) true = Ret (M_R_SUCCESS, s3)).
  { unfold register_logtype. rewrite Hk, is_registered_static_other by exact Hnew.
    rewrite <- Hk. fold s3.
    destruct (malloc (mem s2)) as [ok m3] eqn:Hm3. cbn [fst snd] in *. subst ok.
    cbn [set_known pending_logs_list].
    rewrite bind_pending_no_match; [reflexivity|].
    intros d Hd. rewrite Hp, filter_In, in_seq in Hd. destruct Hd as [Hd _].
    rewrite Hcells. fold (dsc s2 d). rewrite Hin by lia.
    rewrite tag_is_fresh. apply Hnotag. lia. }
  (* the allocation *)
  assert (Hfind : exists d, find (free_slot (heap p)) (seq 0 LOG_NUM) = Some d).
  { apply find_exists with (x := d0); [|exact Hfree0]. rewrite in_seq. lia. }
  destruct Hfind as [d Hfind].
  assert (Hfree3 : free_logs_list (mgr s3)
                   = filter (free_slot (heap p)) (seq 0 LOG_NUM)).
  { unfold s3. cbn [mgr set_known free_logs_list]. exact Hf. }
  destruct (@alloc_log_untyped_run t s3 d {| lt_type := t; lt_ops := Some tbl |}
              tbl f_alloc f_init) as (s4 & Halloc & Hops & _ & Htag).
  - unfold first_tagged. rewrite Hfree3. apply find_all_false.
    intros x Hx. rewrite filter_In, in_seq in Hx. destruct Hx as [Hx _].
    rewrite Hcell3 by lia. rewrite tag_is_fresh. apply Hnotag. lia.
  - unfold first_tagged. rewrite Hfree3, find_filter_ext; [exact Hfind|].
    intros x Hx. rewrite in_seq in Hx. rewrite Hcell3 by lia. apply tag_is_fresh.
  - unfold s3. cbn [mgr set_known known_logtypes_list].
    apply lookup_logtype_last; [|reflexivity].
    rewrite Hk. now apply is_registered_static_other.
  - reflexivity.
  - exact Ha.
  - exact Hi.
  - apply Hra.
  - apply Hri.
  - exists (publish true s3), (publish true s4), d.
    split; [|split; [|split; [exact Hfind|split; [exact Hops|exact Htag]]]].
    + unfold m_logmgr_register_logtype. rewrite Hnone, Hrun. cbn [bind].
      cbn [publish logmgr heap logmgr_initialized].
      replace {| mgr := mgr s2; mem := mem s2 |} with s2 by now destruct s2.
      rewrite Hreg. reflexivity.
    + unfold m_logmgr_alloc_log. cbn [publish logmgr heap logmgr_initialized].
      replace {| mgr := mgr s3; mem := mem s3 |} with s3 by reflexivity.
      rewrite Halloc. reflexivity.
Qed.

End Properties.

(** * The properties on the reference configuration *)

Section Runs.

Import Example.

Example ex_recovered_lists :
  (free_logs_list (mgr ex_recovered), pending_logs_list (mgr ex_recovered))
  = ([1; 0] ++ seq 3 29, [2]).
Proof. vm_compute. reflexivity. Qed.

Example ex_recovered_trace :
  trace (mem ex_recovered)
  = [EvAlloc 0; EvAlloc 1; EvRecoveryInit 0; EvRecoveryInit 1;
     EvRecoveryDo 0; EvRecoveryPrepareNext 0;
     EvRecoveryDo 1; EvRecoveryPrepareNext 1;
     EvRecoveryDo 1; EvRecoveryPrepareNext 1;
     EvRecoveryDo 0; EvRecoveryPrepareNext 0].
Proof. vm_compute. reflexivity. Qed.

(** The sample log type makes progress, so recovery of the reference
    pool returns. *)
Example ex_ops_progress : replay_progress ex_mu (mem ex_collected) [1; 0].
Proof.
  intros d Hd. exists ex_ops, ex_do, ex_prepare.
  split; [|split; [reflexivity|split; [reflexivity|]]].
  - destruct Hd as [<-|[<-|[]]]; vm_compute; reflexivity.
  - intros c _ Hord. unfold ex_mu, replay, apply_cb, write_back, ex_do, ex_prepare, view_of.
    cbn [nvphlog logorder snd v_nvphlog v_logorder].
    apply Z.eqb_neq in Hord. rewrite Hord.
    destruct (nvphlog c) as [|x l]; cbn [tl length first_order].
    + rewrite Z.eqb_refl. lia.
    + destruct (Z.eqb (first_order l) INV_LOG_ORDER); lia.
Qed.

Example ex_recovery_returns :
  exists fuel s', do_recovery fuel ex_registered = Ret (M_R_SUCCESS, s').
Proof.
  destruct (@do_recovery_returns ref_consts ex_mu ex_registered ex_collected [1; 0])
    as [s' Hs'].
  - vm_compute. reflexivity.
  - exact ex_ops_progress.
  - eexists _, s'. exact Hs'.
Qed.

Lemma ex_created_reachable : reachable ex_created [].
Proof. apply reach_create with (m := ex_mem). vm_compute. reflexivity. Qed.

Lemma ex_registered_reachable : reachable ex_registered [].
Proof.
  apply reach_register
    with (s := ex_created) (t := 2%Z) (o := Some ex_ops) (lock := true)
         (rv := M_R_SUCCESS).
  - exact ex_created_reachable.
  - vm_compute. reflexivity.
Qed.

Lemma do_recovery_ordering_witness :
  exists s1,
    collect_logs (pending_logs_list (mgr ex_registered))
      (ex_registered, INIT_LIST_HEAD) = (s1, [1; 0]) /\
    ordering_loop [1; 0] (mem s1) (mem ex_recovered) /\
    none_pending (mem ex_recovered) [1; 0] /\
    free_logs_list (mgr ex_recovered)
    = [1; 0] ++ free_logs_list (mgr ex_registered) /\
    forall d, In d [0; 1] -> In d (free_logs_list (mgr ex_recovered)).
Proof.
  apply (@do_recovery_ordering ref_consts 10 ex_registered M_R_SUCCESS ex_recovered).
  vm_compute. reflexivity.
Defined.


Lemma slot_lists_partition_witness :
  Permutation
    (free_logs_list (mgr ex_collected) ++ active_logs_list (mgr ex_collected)
     ++ pending_logs_list (mgr ex_collected) ++ [1; 0])
    (seq 0 LOG_NUM)
  /\ exactly_one (In 2 (free_logs_list (mgr ex_collected)))
                 (In 2 (active_logs_list (mgr ex_collected)))
                 (In 2 (pending_logs_list (mgr ex_collected)))
                 (In 2 [1; 0]).
Proof.
  destruct (@slot_lists_partition ref_consts ex_collected [1; 0]) as [Hperm Hone].
  - apply reach_collect
      with (s := ex_registered) (l1 := [0; 1; 2]) (l2 := []).
    + exact ex_registered_reachable.
    + vm_compute. reflexivity.
    + vm_compute. reflexivity.
  - split; [exact Hperm|]. apply Hone. unfold LOG_NUM. lia.
Defined.

Lemma alloc_log_selection_witness :
  alloc_log 2 ex_recovered = activate_log 1 2 ex_recovered /\
  (M_R_SUCCESS = M_R_SUCCESS /\ Some 3 = Some 3 /\
   ops (dsc ex_bound 3) = Some ex_ops /\
   exists v, trace (mem ex_bound)
             = trace (mem ex_registered)
               ++ [EvAlloc 3; EvInit 3; EvPcmStore 3 v; EvPcmBarrier]).
Proof.
  split.
  - destruct (proj1 (proj2 (@alloc_log_selection ref_consts 2 ex_recovered)) 1)
      as [Heq _]; [vm_compute; reflexivity | exact Heq].
  - refine (proj2 (proj2 (@alloc_log_selection ref_consts 2 ex_registered)) 3
              {| lt_type := 2; lt_ops := Some ex_ops |} _ _ _
              M_R_SUCCESS (Some 3) ex_bound _);
      vm_compute; reflexivity.
Defined.

Lemma alloc_log_unknown_type_witness :
  alloc_log 9 ex_recovered = Ret (M_R_FAILURE, None, ex_recovered) /\
  alloc_log 9 ex_exhausted = Ret (M_R_FAILURE, None, ex_exhausted).
Proof.
  destruct (@alloc_log_unknown_type ref_consts 9 ex_recovered 3)
    as [Hunknown Hnone]; try (vm_compute; reflexivity).
  split; [exact Hunknown|]. apply Hnone; vm_compute; reflexivity.
Defined.

Lemma alloc_log_success_witness :
  In 1 (free_logs_list (mgr ex_recovered)) /\
  ~ In 1 (free_logs_list (mgr ex_allocated)) /\
  active_logs_list (mgr ex_allocated)
  = active_logs_list (mgr ex_recovered) ++ [1] /\
  tag_is (dsc ex_allocated 1) 2 = true.
Proof.
  destruct (@alloc_log_success ref_consts 2 ex_recovered (Some 1) ex_allocated)
    as (d & Hd & Hin & _ & Hout & Hact & _ & _ & _ & Htag).
  - vm_compute. reflexivity.
  - injection Hd as <-. split; [exact Hin|]. split; [exact Hout|].
    split; [exact Hact|]. apply Htag. vm_compute. reflexivity.
Defined.

Lemma register_logtype_contract_witness :
  exists s',
    register_logtype ex_created 2 (Some ex_ops) true = Ret (M_R_SUCCESS, s') /\
    known_logtypes_list (mgr s')
    = known_logtypes_list (mgr ex_created)
      ++ [{| lt_type := 2; lt_ops := Some ex_ops |}] /\
    trace (mem s') = trace (mem ex_created) ++ [EvAlloc 0; EvAlloc 1].
Proof.
  destruct (proj2 (proj2 (@register_logtype_contract ref_consts ex_created 2
                            (Some ex_ops) true ex_created_reachable)))
    as (s' & Hrun & Hk & _ & _ & _ & _ & Htr & _).
  - vm_compute. reflexivity.
  - vm_compute. reflexivity.
  - intros d Hd Ht. exists ex_ops, ex_alloc.
    split; [reflexivity|]. split; reflexivity.
  - exists s'. split; [exact Hrun|]. split; [exact Hk | exact Htr].
Defined.

Lemma recovered_slots_reuse_by_tag_witness :
  (In 1 (free_logs_list (mgr ex_recovered)) /\
   (tag_is (dsc ex_recovered 1) 2 = true \/
    tag_is (dsc ex_recovered 1) LF_TYPE_FREE = true)) /\
  (In 0 (free_logs_list (mgr ex_recovered)) /\
   @None nat <> Some 0 /\ dsc ex_recovered 0 = dsc ex_recovered 0 /\
   In 0 (free_logs_list (mgr ex_recovered))).
Proof.
  split.
  - destruct (@recovered_slots_reuse_by_tag ref_consts 10 ex_registered
                M_R_SUCCESS ex_recovered 1) as [Hfree Hsel].
    + vm_compute. reflexivity.
    + vm_compute. right. left. reflexivity.
    + vm_compute. reflexivity.
    + split; [exact Hfree|].
      refine (proj1 (Hsel 2%Z M_R_SUCCESS (Some 1) ex_allocated _) eq_refl).
      vm_compute. reflexivity.
  - destruct (@recovered_slots_reuse_by_tag ref_consts 10 ex_registered
                M_R_SUCCESS ex_recovered 0) as [Hfree Hsel].
    + vm_compute. reflexivity.
    + vm_compute. left. reflexivity.
    + vm_compute. reflexivity.
    + split; [exact Hfree|].
      refine (proj2 (Hsel 5%Z M_R_FAILURE None ex_recovered _) _ _);
        vm_compute; reflexivity.
Defined.

Lemma do_recovery_leaves_unregistered_witness :
  In 2 (pending_logs_list (mgr ex_recovered)) /\
  ~ In 2 (free_logs_list (mgr ex_recovered)) /\
  dsc ex_recovered 2 = dsc ex_registered 2.
Proof.
  destruct (@do_recovery_leaves_unregistered ref_consts 10 ex_registered
              M_R_SUCCESS ex_recovered 2) as (Hpend & Hfree & Hcell & _).
  - vm_compute. reflexivity.
  - vm_compute. auto.
  - left. vm_compute. reflexivity.
  - split; [exact Hpend|]. split; [|exact Hcell]. apply Hfree.
    vm_compute. intros H.
    repeat (destruct H as [H|H]; [discriminate H|]). exact H.
Defined.

Lemma first_use_of_the_manager_witness :
  (exists s, ex_first_registered = publish true s /\ reachable s []) /\
  m_logmgr_do_recovery 10 ex_start = Fault /\
  m_logmgr_alloc_log 2 ex_start = Fault.
Proof.
  destruct (@first_use_of_the_manager ref_consts 10 2 ex_start)
    as (Hreg & Hrec & Halloc); try reflexivity.
  split; [|split; [exact Hrec | exact Halloc]].
  apply (Hreg (Some ex_ops) M_R_SUCCESS). vm_compute. reflexivity.
Defined.

Lemma do_recovery_keeps_tags_witness :
  generic_flags (nvmd (dsc ex_recovered 0))
  = generic_flags (nvmd (dsc ex_registered 0)) /\
  In 0 (free_logs_list (mgr ex_recovered)) /\
  tag_is (dsc ex_recovered 0) LF_TYPE_FREE = false.
Proof.
  destruct (proj2 (proj2 (@do_recovery_keeps_tags ref_consts 10 ex_registered
                            M_R_SUCCESS ex_recovered
                            ltac:(vm_compute; reflexivity))) 0)
    as (Hflags & _ & Hfree).
  - intros f (o & Ho & Hf). vm_compute in Ho. injection Ho as <-.
    destruct Hf as [Hf|[Hf|Hf]]; injection Hf as <-; intros v; reflexivity.
  - split; [exact Hflags|].
    destruct Hfree as [Hin Htag]; [vm_compute; auto | vm_compute; reflexivity |].
    split; [exact Hin|]. rewrite Htag. vm_compute. reflexivity.
Defined.

(** ** Counterexamples *)

(** C4 as it is stated does not hold: the result of a request for an
    unknown type (9, with free untyped slots at hand and no entry in the
    registry) is [M_R_FAILURE], and so is the result of a request that
    finds no free slot at all; the caller cannot tell them apart. *)
Lemma unknown_type_is_generic_failure :
  first_tagged ex_recovered 9 = None /\
  first_tagged ex_recovered LF_TYPE_FREE = Some 3 /\
  lookup_logtype (known_logtypes_list (mgr ex_recovered)) 9 = None /\
  free_logs_list (mgr ex_exhausted) = [] /\
  exists rv,
    alloc_log 9 ex_recovered = Ret (rv, None, ex_recovered) /\
    alloc_log 9 ex_exhausted = Ret (rv, None, ex_exhausted).
Proof.
  do 4 (split; [vm_compute; reflexivity|]).
  exists M_R_FAILURE. split; vm_compute; reflexivity.
Qed.

(** Why C4 asks for a descriptor without operations table: line 374
    tests [log_dsc->ops], not whether the registry had an entry.  A
    FREE-tagged free descriptor that still carries a table is activated
    for a type nobody registered. *)
Example unknown_type_with_bound_ops :
  first_tagged ex_freed 9 = None /\
  first_tagged ex_freed LF_TYPE_FREE = Some 1 /\
  lookup_logtype (known_logtypes_list (mgr ex_freed)) 9 = None /\
  is_null (ops (dsc ex_freed 1)) = false /\
  exists s',
    alloc_log 9 ex_freed = Ret (M_R_SUCCESS, Some 1, s') /\
    active_logs_list (mgr s') = [1] /\
    generic_flags (nvmd (dsc s' 1)) = 9%Z.
Proof.
  do 4 (split; [vm_compute; reflexivity|]).
  eexists. split; [vm_compute; reflexivity|].
  split; vm_compute; reflexivity.
Qed.

(** C7 as it is stated does not hold: after recovery the 32 slots of
    the pool are on the free list, all with the tag of type 2; type 5 is
    registered; a request for type 5 selects none of them and fails. *)
Lemma recovered_slot_not_rebound :
  do_recovery 40 ex_full_registered = Ret (M_R_SUCCESS, ex_full_recovered) /\
  free_logs_list (mgr ex_full_recovered) = rev (seq 0 LOG_NUM) /\
  map (fun d => tag_of (dsc ex_full_recovered d)) (seq 0 LOG_NUM)
  = repeat 2%Z LOG_NUM /\
  is_registered (known_logtypes_list (mgr ex_full_recovered)) 5 = true /\
  alloc_log 5 ex_full_recovered = Ret (M_R_FAILURE, None, ex_full_recovered).
Proof. do 4 (split; [vm_compute; reflexivity|]). vm_compute. reflexivity. Qed.

Lemma ex_recovered_reachable : reachable ex_recovered [].
Proof.
  apply (@do_recovery_reachable ref_consts 10 ex_registered M_R_SUCCESS ex_recovered).
  - exact ex_registered_reachable.
  - vm_compute. reflexivity.
Qed.

Lemma create_log_pool_classifies_witness :
  free_logs_list (mgr ex_created)
  = free_logs_list (mgr ex_blank) ++ filter (free_slot (mem ex_blank)) (seq 0 LOG_NUM) /\
  pending_logs_list (mgr ex_created)
  = pending_logs_list (mgr ex_blank)
    ++ filter (fun i => negb (free_slot (mem ex_blank) i)) (seq 0 LOG_NUM) /\
  active_logs_list (mgr ex_created) = active_logs_list (mgr ex_blank) /\
  trace (mem ex_created) = trace (mem ex_blank) /\
  (forall i, i < LOG_NUM -> dsc ex_created i = fresh_dsc (dsc ex_blank i)) /\
  (forall i, LOG_NUM <= i -> dsc ex_created i = dsc ex_blank i).
Proof.
  refine (@create_log_pool_classifies ref_consts ex_blank ex_created _).
  vm_compute. reflexivity.
Defined.

Lemma do_recovery_nothing_to_recover_witness :
  do_recovery 1 ex_created = Ret (M_R_SUCCESS, ex_created).
Proof.
  refine (proj1 (@do_recovery_nothing_to_recover ref_consts ex_created _) 0).
  intros d Hd. vm_compute in Hd.
  destruct Hd as [<-|[<-|[<-|[]]]]; vm_compute; reflexivity.
Defined.

Lemma do_recovery_idempotent_witness :
  do_recovery 1 ex_recovered = Ret (M_R_SUCCESS, ex_recovered).
Proof.
  refine (@do_recovery_idempotent ref_consts 10 ex_registered M_R_SUCCESS
            ex_recovered _ 0).
  vm_compute. reflexivity.
Defined.

Lemma logmgr_init_brings_up_witness :
  exists g,
    logmgr ex_brought_up = Some g /\
    known_logtypes_list g = map static_entry static_types /\
    pending_logs_list g
    = filter (fun i => negb (free_slot (heap ex_start) i)) (seq 0 LOG_NUM) /\
    trace (heap ex_brought_up) = trace (heap ex_start).
Proof.
  destruct (@logmgr_init_brings_up ref_consts 1 ex_start ex_brought_up)
    as (g & Hg & _ & Hk & _ & Hp & _ & Ht & _).
  - reflexivity.
  - vm_compute. reflexivity.
  - exists g. exact (conj Hg (conj Hk (conj Hp Ht))).
Defined.

Lemma logmgr_init_static_tag_fault_witness :
  logmgr_init 1 ex_start_static = Fault.
Proof.
  refine (@logmgr_init_static_tag_fault ref_consts 1 ex_start_static 0 1
            _ _ _ _ _ _).
  - reflexivity.
  - reflexivity.
  - unfold LOG_NUM. lia.
  - vm_compute. left. reflexivity.
  - vm_compute. reflexivity.
  - vm_compute. reflexivity.
Defined.

Lemma logmgr_init_idempotent_witness :
  logmgr_initialized ex_brought_up = true /\
  forall fuel', logmgr_init fuel' ex_brought_up = Ret (M_R_SUCCESS, ex_brought_up).
Proof.
  refine (@logmgr_init_idempotent ref_consts 1 ex_start ex_brought_up _).
  vm_compute. reflexivity.
Defined.

Lemma register_after_failed_init_witness :
  logmgr_init 1 ex_start_oom
  = Ret (M_R_NOMEMORY,
         {| logmgr := None; logmgr_initialized := false;
            heap := snd (malloc (heap ex_start_oom)) |}) /\
  m_logmgr_register_logtype 1 2 (Some ex_ops) ex_start_oom = Fault.
Proof.
  refine (@register_after_failed_init ref_consts 1 2%Z (Some ex_ops)
            ex_start_oom _ _ _); reflexivity.
Defined.

Lemma static_type_after_bring_up_witness :
  (forall fuel' o,
     m_logmgr_register_logtype fuel' (Z.of_nat 1) o ex_brought_up
     = Ret (M_R_SUCCESS, ex_brought_up)) /\
  m_logmgr_alloc_log (Z.of_nat 1) ex_brought_up = Fault.
Proof.
  destruct (@static_type_after_bring_up ref_consts 1 ex_start ex_brought_up 1)
    as [Hreg Halloc].
  - reflexivity.
  - vm_compute. reflexivity.
  - vm_compute. left. reflexivity.
  - split; [exact Hreg|]. apply Halloc.
    + vm_compute. discriminate.
    + exists 3. split; [unfold LOG_NUM; lia|vm_compute; reflexivity].
Defined.

Lemma alloc_log_failure_is_clean_witness :
  alloc_log 2 ex_exhausted = Ret (M_R_FAILURE, None, ex_exhausted) /\
  ((M_R_FAILURE = M_R_SUCCESS /\ exists d, @None nat = Some d) \/
   (M_R_FAILURE = M_R_FAILURE /\ @None nat = None /\ ex_created = ex_created)).
Proof.
  split.
  - refine (proj2 (@alloc_log_failure_is_clean ref_consts 2%Z ex_exhausted) _).
    vm_compute. reflexivity.
  - refine (proj1 (@alloc_log_failure_is_clean ref_consts 5%Z ex_created)
              M_R_FAILURE None ex_created _).
    vm_compute. reflexivity.
Defined.

Lemma alloc_log_frame_witness :
  known_logtypes_list (mgr ex_allocated) = known_logtypes_list (mgr ex_recovered) /\
  pending_logs_list (mgr ex_allocated) = pending_logs_list (mgr ex_recovered) /\
  allocs (mem ex_allocated) = allocs (mem ex_recovered) /\
  dsc ex_allocated 0 = dsc ex_recovered 0.
Proof.
  destruct (@alloc_log_frame ref_consts 2%Z ex_recovered M_R_SUCCESS (Some 1)
              ex_allocated) as (Hk & Hp & Ha & Hd).
  - vm_compute. reflexivity.
  - refine (conj Hk (conj Hp (conj Ha (Hd 0 _)))). discriminate.
Defined.

Lemma alloc_log_hands_out_once_witness :
  1 < LOG_NUM /\
  ~ In 1 (active_logs_list (mgr ex_recovered)) /\
  ~ In 1 (pending_logs_list (mgr ex_recovered)) /\
  In 1 (active_logs_list (mgr ex_allocated)) /\
  0 <> 1.
Proof.
  destruct (@alloc_log_hands_out_once ref_consts 2%Z ex_recovered M_R_SUCCESS 1
              ex_allocated) as (Hlt & Ha & Hp & Hin & Hnext).
  - exact ex_recovered_reachable.
  - vm_compute. reflexivity.
  - refine (conj Hlt (conj Ha (conj Hp (conj Hin
              (Hnext 2%Z M_R_SUCCESS 0 ex_allocated_twice _))))).
    vm_compute. reflexivity.
Defined.

Lemma register_logtype_results_witness :
  (exists s',
     register_logtype ex_created_oom 2 (Some ex_ops) true = Ret (M_R_NOMEMORY, s')) /\
  ((M_R_SUCCESS = M_R_SUCCESS /\
    is_registered (known_logtypes_list (mgr ex_registered)) 2 = true) \/
   (M_R_SUCCESS = M_R_NOMEMORY /\ mgr ex_registered = mgr ex_created /\
    log_dscs (mem ex_registered) = log_dscs (mem ex_created) /\
    trace (mem ex_registered) = trace (mem ex_created))).
Proof.
  split.
  - refine (proj2 (@register_logtype_results ref_consts ex_created_oom 2%Z
                     (Some ex_ops) true) _ _); vm_compute; reflexivity.
  - refine (proj1 (@register_logtype_results ref_consts ex_created 2%Z
                     (Some ex_ops) true) M_R_SUCCESS ex_registered _).
    vm_compute. reflexivity.
Defined.

Lemma register_logtype_first_wins_witness :
  register_logtype ex_registered 2 (Some ex_ops_freeing) false
  = Ret (M_R_SUCCESS, ex_registered).
Proof.
  refine (@register_logtype_first_wins ref_consts ex_created 2%Z (Some ex_ops)
            true ex_registered _ (Some ex_ops_freeing) false).
  vm_compute. reflexivity.
Defined.

Lemma register_then_lookup_witness :
  (forall d m,
     lookup_and_alloc (known_logtypes_list (mgr ex_registered)) 2 d m
     = assert_alloc d (set_dsc d (set_ops (Some ex_ops) (log_dscs m d)) m)) /\
  (forall d m,
     lookup_and_alloc (known_logtypes_list (mgr ex_registered)) 3 d m
     = lookup_and_alloc (known_logtypes_list (mgr ex_created)) 3 d m).
Proof.
  destruct (@register_then_lookup ref_consts ex_created 2%Z (Some ex_ops) true
              ex_registered) as [Hsame Hother].
  - vm_compute. reflexivity.
  - vm_compute. reflexivity.
  - split; [exact Hsame|]. intros d m. apply Hother. discriminate.
Defined.

Lemma late_registration_unblocks_witness :
  recoverable (mem ex_registered) 0 = true /\
  In 0 (free_logs_list (mgr ex_recovered)) /\
  ~ In 0 (pending_logs_list (mgr ex_recovered)).
Proof.
  refine (@late_registration_unblocks ref_consts ex_created 2%Z ex_ops ex_prepare
            true ex_registered 10 M_R_SUCCESS ex_recovered 0 _ _ _ _ _ _ _).
  - exact ex_created_reachable.
  - vm_compute. reflexivity.
  - reflexivity.
  - vm_compute. reflexivity.
  - vm_compute. reflexivity.
  - vm_compute. left. reflexivity.
  - vm_compute. reflexivity.
Defined.

Lemma do_recovery_frame_witness :
  known_logtypes_list (mgr ex_recovered) = known_logtypes_list (mgr ex_registered) /\
  active_logs_list (mgr ex_recovered) = active_logs_list (mgr ex_registered) /\
  (exists l, free_logs_list (mgr ex_recovered)
             = l ++ free_logs_list (mgr ex_registered)) /\
  dsc ex_recovered 3 = dsc ex_registered 3.
Proof.
  destruct (@do_recovery_frame ref_consts 10 ex_registered M_R_SUCCESS ex_recovered)
    as (Hk & Ha & Hf & Hd).
  - exact ex_registered_reachable.
  - vm_compute. reflexivity.
  - refine (conj Hk (conj Ha (conj Hf (Hd 3 _)))).
    right. vm_compute. left. reflexivity.
Defined.

Lemma retag_rewrites_the_tag_only_witness :
  Z.land (retag 19 2) (u64 (Z.lnot LF_TYPE_MASK))
  = Z.land 19 (u64 (Z.lnot LF_TYPE_MASK)) /\
  Z.land (retag 19 2) LF_TYPE_MASK = Z.land (u64 2) LF_TYPE_MASK /\
  (0 <= retag 19 2 < 2 ^ 64)%Z /\
  retag (retag 19 2) 2 = retag 19 2 /\
  forall t', retag (retag 19 2) t' = retag 19 t'.
Proof.
  refine (@retag_rewrites_the_tag_only ref_consts 19%Z 2%Z _).
  vm_compute. reflexivity.
Defined.

Lemma alloc_log_untyped_succeeds_witness :
  exists s',
    alloc_log 2 ex_registered = Ret (M_R_SUCCESS, Some 3, s') /\
    ops (dsc s' 3) = Some ex_ops /\
    tag_of (dsc s' 3) = Z.land (u64 2) LF_TYPE_MASK.
Proof.
  destruct (@alloc_log_untyped_succeeds ref_consts 2%Z ex_registered 3
              {| lt_type := 2; lt_ops := Some ex_ops |} ex_ops ex_alloc ex_init)
    as (s' & Hrun & Hops & _ & Htag).
  - vm_compute. reflexivity.
  - vm_compute. reflexivity.
  - vm_compute. reflexivity.
  - reflexivity.
  - reflexivity.
  - reflexivity.
  - vm_compute. reflexivity.
  - vm_compute. reflexivity.
  - exists s'. exact (conj Hrun (conj Hops Htag)).
Defined.

Lemma ex_registered_no_replay_reachable : reachable ex_registered_no_replay [].
Proof.
  apply reach_register
    with (s := ex_created) (t := 2%Z) (o := Some ex_ops_no_replay) (lock := true)
         (rv := M_R_SUCCESS).
  - exact ex_created_reachable.
  - vm_compute. reflexivity.
Qed.

Lemma alloc_many_reachable n : forall s,
  reachable s [] -> reachable (alloc_many n s) [].
Proof.
  induction n as [|n IH]; intros s Hr; cbn [alloc_many]; [exact Hr|].
  apply IH. destruct (alloc_log 2 s) as [[[rv dp] s']| |] eqn:Ha; cbn; try exact Hr.
  eapply reach_alloc; eassumption.
Qed.

Lemma ex_all_active_reachable : reachable ex_all_active [].
Proof.
  apply alloc_many_reachable.
  apply (@do_recovery_reachable ref_consts 40 ex_full_registered M_R_SUCCESS
           ex_full_recovered); [|vm_compute; reflexivity].
  set (s2 := result_state (register_logtype ex_full_created 2 (Some ex_ops) true)
               ex_full_created).
  apply reach_register
    with (s := s2) (t := 5%Z) (o := Some ex_ops) (lock := true) (rv := M_R_SUCCESS);
    [|vm_compute; reflexivity].
  apply reach_register
    with (s := ex_full_created) (t := 2%Z) (o := Some ex_ops) (lock := true)
         (rv := M_R_SUCCESS); [|vm_compute; reflexivity].
  apply reach_create with (m := {| log_dscs := fun i => slot 2%Z [Z.of_nat i];
                                   trace := []; allocs := [];
                                   pool_segment := true |}).
  vm_compute. reflexivity.
Qed.

Lemma do_recovery_terminates_witness :
  exists fuel s',
    forall fuel', fuel <= fuel' ->
                  do_recovery fuel' ex_registered = Ret (M_R_SUCCESS, s').
Proof.
  refine (@do_recovery_terminates ref_consts ex_mu ex_registered _).
  assert (E : filter (recoverable (mem ex_registered))
                (pending_logs_list (mgr ex_registered)) = [0; 1])
    by (vm_compute; reflexivity).
  rewrite E. intros d Hd. exists ex_ops, ex_do, ex_prepare.
  split; [|split; [reflexivity|split; [reflexivity|]]].
  - destruct Hd as [<-|[<-|[]]]; vm_compute; reflexivity.
  - intros c _ Hord.
    unfold ex_mu, replay, apply_cb, write_back, ex_do, ex_prepare, view_of.
    cbn [nvphlog logorder snd v_nvphlog v_logorder].
    apply Z.eqb_neq in Hord. rewrite Hord.
    destruct (nvphlog c) as [|x l]; cbn [tl length first_order].
    + rewrite Z.eqb_refl. lia.
    + destruct (Z.eqb (first_order l) INV_LOG_ORDER); lia.
Defined.

Lemma do_recovery_needs_replay_callbacks_witness :
  do_recovery 1 ex_registered_no_replay = Fault /\
  forall fuel rv s', do_recovery fuel ex_registered_no_replay <> Ret (rv, s').
Proof.
  split; [vm_compute; reflexivity|].
  refine (@do_recovery_needs_replay_callbacks ref_consts ex_registered_no_replay 0
            ex_ops_no_replay ex_prepare _ _ _ _ _ _).
  - exact ex_registered_no_replay_reachable.
  - vm_compute. left. reflexivity.
  - vm_compute. reflexivity.
  - reflexivity.
  - left. reflexivity.
  - vm_compute. discriminate.
Defined.

Lemma do_recovery_callback_protocol_witness :
  NoDup (filter (recoverable (mem ex_registered))
           (pending_logs_list (mgr ex_registered))) /\
  exists ds,
    (forall d, In d ds ->
               In d (filter (recoverable (mem ex_registered))
                       (pending_logs_list (mgr ex_registered)))) /\
    trace (mem ex_recovered)
    = trace (mem ex_registered)
      ++ map EvRecoveryInit
           (filter (recoverable (mem ex_registered))
              (pending_logs_list (mgr ex_registered)))
      ++ flat_map (fun d => [EvRecoveryDo d; EvRecoveryPrepareNext d]) ds.
Proof.
  refine (@do_recovery_callback_protocol ref_consts 10 ex_registered M_R_SUCCESS
            ex_recovered _ _).
  - exact ex_registered_reachable.
  - vm_compute. reflexivity.
Defined.

Lemma pool_capacity_witness :
  length (free_logs_list (mgr ex_all_active))
  + length (active_logs_list (mgr ex_all_active))
  + length (pending_logs_list (mgr ex_all_active)) = LOG_NUM /\
  forall t, alloc_log t ex_all_active = Ret (M_R_FAILURE, None, ex_all_active).
Proof.
  destruct (@pool_capacity ref_consts ex_all_active ex_all_active_reachable)
    as [Hsum Hfull].
  split; [exact Hsum|]. apply Hfull. vm_compute. reflexivity.
Defined.

Lemma recovery_after_bring_up_witness :
  m_logmgr_do_recovery 1 ex_brought_up = Ret (M_R_SUCCESS, ex_brought_up).
Proof.
  refine (@recovery_after_bring_up ref_consts 1 ex_start ex_brought_up _ _ 0).
  - reflexivity.
  - vm_compute. reflexivity.
Defined.

Lemma logmgr_init_succeeds_witness :
  (exists p',
     logmgr_init 1 ex_start = Ret (M_R_SUCCESS, p') /\
     logmgr_initialized p' = true /\ logmgr p' <> None) /\
  logmgr_init 1 ex_start_unmapped = Fault.
Proof.
  assert (Htags : forall i d, In i static_types -> d < LOG_NUM ->
                    free_slot ex_mem d = false ->
                    tag_is (ex_pool d) (Z.of_nat i) = false).
  { intros i d Hi _ _. vm_compute in Hi. destruct Hi as [<-|[]].
    destruct d as [|[|[|d]]]; vm_compute; reflexivity. }
  split.
  - refine (proj1 (@logmgr_init_succeeds ref_consts 0 ex_start eq_refl _ Htags)
              eq_refl eq_refl).
    intros b [].
  - refine (proj2 (@logmgr_init_succeeds ref_consts 1 ex_start_unmapped eq_refl
                     _ Htags) (or_introl eq_refl)).
    intros b [].
Defined.

Lemma first_log_of_a_new_type_witness :
  exists p1 p2 d,
    m_logmgr_register_logtype 1 5 (Some ex_ops) ex_start = Ret (M_R_SUCCESS, p1) /\
    m_logmgr_alloc_log 5 p1 = Ret (M_R_SUCCESS, Some d, p2) /\
    find (free_slot (heap ex_start)) (seq 0 LOG_NUM) = Some d /\
    ops (log_dscs (heap p2) d) = Some ex_ops /\
    tag_of (log_dscs (heap p2) d) = Z.land (u64 5) LF_TYPE_MASK.
Proof.
  refine (@first_log_of_a_new_type ref_consts 0 5%Z ex_ops ex_alloc ex_init
            ex_start 3 _ _ _ _ _ _ _ _ _ _ _ _ _ _).
  - reflexivity.
  - reflexivity.
  - reflexivity.
  - reflexivity.
  - intros b [].
  - intros i d Hi _ _. vm_compute in Hi. destruct Hi as [<-|[]].
    destruct d as [|[|[|d]]]; vm_compute; reflexivity.
  - intros i Hi. vm_compute in Hi. destruct Hi as [<-|[]]. discriminate.
  - intros d _. destruct d as [|[|[|d]]]; vm_compute; reflexivity.
  - unfold LOG_NUM. lia.
  - vm_compute. reflexivity.
  - reflexivity.
  - reflexivity.
  - intros v. reflexivity.
  - intros v. reflexivity.
Defined.

End Runs.
